(** * Shallow embedding of [metagpt/repo_parser.py]

    The descriptor parsers ([DotClassAttribute], [DotReturn],
    [DotClassMethod]), the symbol extractor ([RepoParser.node_to_str],
    [extract_class_and_function_info], [generate_symbols]), the diagram
    ingestor ([_parse_classes]) and the namespace reconciler
    ([_repair_namespaces]) are translated function by function.

    Python [str] values are lists of characters with code points 0..255;
    Python [int] indices are [Z] (the sentinel [-1] of [find]/[rfind] and
    negative slice bounds are kept); a raised exception is the [Raise]
    case of [result]. *)

From Stdlib Require Import List ZArith Lia Bool Ascii String Permutation.
From Stdlib Require Import Sorted.
Import ListNotations.
Open Scope Z_scope.

(** ** Python strings *)

Definition str := list ascii.

Definition py (s : string) : str := list_ascii_of_string s.

Definition str_eq_dec : forall a b : str, {a = b} + {a <> b} :=
  list_eq_dec ascii_dec.

Definition str_eqb (a b : str) : bool :=
  if str_eq_dec a b then true else false.

Definition len (s : str) : Z := Z.of_nat (List.length s).

Definition chr_eqb (a b : ascii) : bool := Ascii.eqb a b.

Definition c_colon : ascii := ":"%char.
Definition c_equals : ascii := "="%char.
Definition c_dot : ascii := "."%char.
Definition c_comma : ascii := ","%char.
Definition c_pipe : ascii := "|"%char.
Definition c_lbracket : ascii := "["%char.
Definition c_rbracket : ascii := "]"%char.
Definition c_backslash : ascii := "\"%char.
Definition c_slash : ascii := "/"%char.
Definition c_gt : ascii := ">"%char.
Definition c_squote : ascii := "'"%char.
Definition c_dquote : ascii := ascii_of_nat 34.
Definition c_newline : ascii := ascii_of_nat 10.

(** [str.isspace] on one character, for the code points 0..255. *)
Definition is_space (c : ascii) : bool :=
  let n := nat_of_ascii c in
  ((9 <=? n) && (n <=? 13) || (28 <=? n) && (n <=? 32)
   || (n =? 133) || (n =? 160))%nat.

(** The character class of the quote-removing regular expressions: the
    single quote and the double quote. *)
Definition is_quote (c : ascii) : bool :=
  chr_eqb c c_squote || chr_eqb c c_dquote.

Fixpoint startswith (s sub : str) : bool :=
  match sub, s with
  | [], _ => true
  | _ :: _, [] => false
  | a :: sub', b :: s' => chr_eqb a b && startswith s' sub'
  end.

(** [s.find(sub)], counting from offset [i]. *)
Fixpoint find_from (sub s : str) (i : Z) : Z :=
  if startswith s sub then i
  else match s with
       | [] => -1
       | _ :: t => find_from sub t (i + 1)
       end.

Definition find (s sub : str) : Z := find_from sub s 0.

(** [s.rfind(sub)], counting from offset [i]. *)
Fixpoint rfind_from (sub s : str) (i : Z) : Z :=
  match s with
  | [] => if startswith s sub then i else -1
  | _ :: t =>
      let r := rfind_from sub t (i + 1) in
      if 0 <=? r then r else if startswith s sub then i else -1
  end.

Definition rfind (s sub : str) : Z := rfind_from sub s 0.

(** [sub in s] *)
Definition contains (s sub : str) : bool := 0 <=? find s sub.

(** A slice bound, as Python normalises it against the length [n]. *)
Definition clamp (n i : Z) : Z :=
  if i <? 0 then Z.max 0 (i + n) else Z.min i n.

(** [s[lo:hi]] *)
Definition slice (s : str) (lo hi : Z) : str :=
  let lo' := clamp (len s) lo in
  let hi' := clamp (len s) hi in
  firstn (Z.to_nat (hi' - lo')) (skipn (Z.to_nat lo') s).

(** [s[lo:]] *)
Definition slice_from (s : str) (lo : Z) : str :=
  skipn (Z.to_nat (clamp (len s) lo)) s.

Fixpoint lstrip (s : str) : str :=
  match s with
  | c :: t => if is_space c then lstrip t else s
  | [] => []
  end.

Definition rstrip (s : str) : str := rev (lstrip (rev s)).

(** [s.strip()] *)
Definition strip (s : str) : str := rstrip (lstrip s).

(** [s.replace(a, b)] for one-character [a] and [b]. *)
Definition replace_chr (a b : ascii) (s : str) : str :=
  map (fun c => if chr_eqb c a then b else c) s.

(** [s.replace(a, empty)] for a one-character [a]. *)
Definition remove_chr (a : ascii) (s : str) : str :=
  filter (fun c => negb (chr_eqb c a)) s.

(** [s.split(sep)] for a one-character [sep]: [cur] is the piece being
    read, reversed. *)
Fixpoint split_acc (sep : ascii) (s : str) (cur : str) : list str :=
  match s with
  | [] => [rev cur]
  | c :: t =>
      if chr_eqb c sep then rev cur :: split_acc sep t []
      else split_acc sep t (c :: cur)
  end.

Definition split (sep : ascii) (s : str) : list str := split_acc sep s [].

(** [re.sub] of the quote class by the empty string. *)
Definition remove_quotes (s : str) : str :=
  filter (fun c => negb (is_quote c)) s.

(** [range(lo, hi)] *)
Definition range (lo hi : Z) : list Z :=
  map (fun k => lo + Z.of_nat k) (seq 0 (Z.to_nat (hi - lo))).

(** ** Exceptions

    [OutOfFuel] is not a Python exception: it is what a [while] loop of
    the model answers when its fuel is used up, which the loops below are
    shown never to do. *)

Inductive exn : Type :=
| IndexError
| ValueError
| KeyError
| UnboundLocalError
| NotImplementedError
| TypeError
| AttributeError
| SyntaxError
| OutOfFuel.

Inductive result (A : Type) : Type :=
| Ok (a : A)
| Raise (e : exn).

Arguments Ok {A} a.
Arguments Raise {A} e.

Definition bind {A B} (m : result A) (f : A -> result B) : result B :=
  match m with
  | Ok a => f a
  | Raise e => Raise e
  end.

Notation "x <- m ;; k" := (bind m (fun x => k))
  (at level 61, m at next level, right associativity).

Notation "' pat <- m ;; k" :=
  (bind m (fun x => match x with pat => k end))
  (at level 61, pat pattern, m at next level, right associativity).

(** A comprehension or loop that builds a list and stops at the first
    exception. *)
Fixpoint mapM {A B} (f : A -> result B) (l : list A) : result (list B) :=
  match l with
  | [] => Ok []
  | x :: rest => y <- f x ;; ys <- mapM f rest ;; Ok (y :: ys)
  end.

(** [s[i]]: a negative index counts from the end, an index out of range
    raises [IndexError]. *)
Definition getitem (s : str) (i : Z) : result ascii :=
  let j := if i <? 0 then i + len s else i in
  if (j <? 0) || (len s <=? j) then Raise IndexError
  else match nth_error s (Z.to_nat j) with
       | Some c => Ok c
       | None => Raise IndexError
       end.

(** ** Sets and sorting

    A Python [set] of strings is kept as the duplicate-free list of its
    elements in insertion order.  The order in which [list(s)] enumerates
    a set depends on the hashes of its elements, which CPython salts per
    process: it is the parameter [set_order] of the functions below. *)

Definition pyset := list str.

Definition set_add (x : str) (s : pyset) : pyset :=
  if in_dec str_eq_dec x s then s else s ++ [x].

Definition set_update (xs : list str) (s : pyset) : pyset :=
  fold_left (fun acc x => set_add x acc) xs s.

(** What every enumeration order of a set satisfies. *)
Definition set_order_ok (set_order : pyset -> list str) : Prop :=
  forall s, Permutation (set_order s) s.

(** The order in which the elements were inserted is one enumeration
    order. *)
Definition insertion_order (s : pyset) : list str := s.

(** [a <= b] on strings: lexicographic on code points. *)
Fixpoint str_leb (a b : str) : bool :=
  match a, b with
  | [], _ => true
  | _ :: _, [] => false
  | x :: a', y :: b' =>
      let n := nat_of_ascii x in
      let m := nat_of_ascii y in
      if (n <? m)%nat then true
      else if (m <? n)%nat then false
      else str_leb a' b'
  end.

Fixpoint insert_sorted (x : str) (l : list str) : list str :=
  match l with
  | [] => [x]
  | y :: t => if str_leb x y then x :: l else y :: insert_sorted x t
  end.

(** [lst.sort()] *)
Definition sort (l : list str) : list str :=
  fold_right insert_sorted [] l.

(** [x in lst] *)
Definition mem (x : str) (l : list str) : bool :=
  if in_dec str_eq_dec x l then true else false.

(** ** [DotClassAttribute] *)

Module DotClassAttribute.

Record t : Type := mk {
  name : str;
  type_ : str;
  default_ : str;
  description : str;
  compositions : list str
}.

(** [re.sub] of the pattern of [remove_white_spaces]: a white space is
    matched by the first alternative when the character before it is not a
    quote (or there is none), by the second one when it is. [prev] is the
    character before the current one. *)
Fixpoint remove_white_spaces_from (prev : option ascii) (v : str) : str :=
  match v with
  | [] => []
  | c :: rest =>
      let after_quote :=
        match prev with Some p => is_quote p | None => false end in
      if (negb after_quote && is_space c) || (after_quote && is_space c)
      then remove_white_spaces_from (Some c) rest
      else c :: remove_white_spaces_from (Some c) rest
  end.

Definition remove_white_spaces (v : str) : str :=
  remove_white_spaces_from None v.

Definition filters : list str :=
  map py
    ["str"; "frozenset"; "set"; "int"; "float"; "complex"; "bool"; "dict";
     "list"; "Union"; "Dict"; "Set"; "Tuple"; "NoneType"; "None"; "Any";
     "Optional"; "Iterator"; "Literal"; "List"]%string.

(** The loop of [parse_compositions] that fills the set [result]. *)
Definition collect_types (types : list str) : pyset :=
  fold_left
    (fun result t =>
       let t := remove_quotes (strip t) in
       if negb (str_eqb t []) && negb (mem t filters)
       then set_add t result else result)
    types [].

(** The set [result] that [parse_compositions] builds from a nonempty
    [types_part]. *)
Definition composition_set (types_part : str) : pyset :=
  let modified_string :=
    map (fun c => if chr_eqb c c_lbracket || chr_eqb c c_rbracket
                     || chr_eqb c c_comma then c_pipe else c) types_part in
  collect_types (split c_pipe modified_string).

(** The [for] loop of [_split_literal] over the indices [idxs] still to be
    visited; the result is the final value of [eix]. *)
Fixpoint split_literal_loop (v : str) (idxs : list Z) (counter eix : Z)
  : result Z :=
  match idxs with
  | [] => Ok eix
  | i :: rest =>
      c <- getitem v i ;;
      if chr_eqb c c_lbracket then split_literal_loop v rest (counter + 1) eix
      else if chr_eqb c c_rbracket then
        let counter := counter - 1 in
        if 0 <? counter then split_literal_loop v rest counter eix
        else Ok i
      else split_literal_loop v rest counter eix
  end.

Definition _split_literal (v : str) : result (str * str * str) :=
  let tag := py "Literal[" in
  let bix := find v tag in
  eix <- split_literal_loop v (range (bix + len tag) (len v - 1)) 1
           (len v - 1) ;;
  let pre_l := slice v 0 bix in
  let post_l := slice_from v (eix + 1) in
  let pre_l := remove_quotes pre_l in
  let pos_l := remove_quotes post_l in
  Ok (pre_l, slice v bix (eix + 1), pos_l).

(** One turn of the scanning loop of [parse]; the state is
    [(val, meet_colon, meet_equals)]. *)
Definition scan_step (st : str * bool * bool) (c : ascii)
  : str * bool * bool :=
  let '(val, meet_colon, meet_equals) := st in
  if chr_eqb c c_colon then (val ++ [c], true, meet_equals)
  else if chr_eqb c c_equals then
    if meet_colon then (val ++ [c], true, true)
    else ((val ++ [c_colon]) ++ [c], true, true)
  else (val ++ [c], meet_colon, meet_equals).

Section WithSetOrder.

Variable set_order : pyset -> list str.

Definition parse_compositions (types_part : str) : list str :=
  if str_eqb types_part [] then []
  else set_order (composition_set types_part).

Definition parse (v : str) : result t :=
  let '(val, meet_colon, meet_equals) :=
    fold_left scan_step v ([], false, false) in
  let val := if meet_colon then val else val ++ [c_colon] in
  let val := if meet_equals then val else val ++ [c_equals] in
  let cix := find val [c_colon] in
  let eix := rfind val [c_equals] in
  let name := strip (slice val 0 cix) in
  let type_ := slice val (cix + 1) eix in
  let default_ := strip (slice_from val (eix + 1)) in
  let type_ := remove_white_spaces type_ in
  let type_ := if str_eqb type_ (py "NoneType") then [] else type_ in
  '(composition_val, type_) <-
    (if contains type_ (py "Literal[") then
       '(pre_l, literal, post_l) <- _split_literal type_ ;;
       Ok ((pre_l ++ py "Literal") ++ post_l, (pre_l ++ literal) ++ post_l)
     else
       let type_ := remove_quotes type_ in
       Ok (type_, type_)) ;;
  let default_ := if str_eqb default_ (py "None") then [] else default_ in
  let compositions := parse_compositions composition_val in
  Ok (mk name type_ default_ v (sort compositions)).

End WithSetOrder.

End DotClassAttribute.

(** ** [DotReturn] *)

Module DotReturn.

Record t : Type := mk {
  type_ : str;
  description : str;
  compositions : list str
}.

Section WithSetOrder.

Variable set_order : pyset -> list str.

Definition parse (v : str) : t :=
  if str_eqb v [] then mk [] v (sort [])
  else
    let type_ := DotClassAttribute.remove_white_spaces v in
    let compositions :=
      DotClassAttribute.parse_compositions set_order type_ in
    mk type_ v (sort compositions).

End WithSetOrder.

End DotReturn.

(** ** [DotClassMethod] *)

Module DotClassMethod.

Record t : Type := mk {
  name : str;
  args : list DotClassAttribute.t;
  return_args : option DotReturn.t;
  description : str;
  aggregations : list str
}.

Definition _parse_name (v : str) : str :=
  let tag0 := [c_gt] in
  let tag1 := py "</" in
  if contains v tag0 then
    let bix := find v tag0 + len tag0 in
    let eix := rfind v tag1 in
    strip (slice v bix eix)
  else strip v.

(** The first loop of [_parse_args] over the indices [idxs] still to be
    visited; the state is [(parts, bix, counter)]. *)
Fixpoint parse_args_loop (v : str) (idxs : list Z)
    (parts : list str) (bix counter : Z) : result (list str * Z) :=
  match idxs with
  | [] => Ok (parts, bix)
  | i :: rest =>
      c <- getitem v i ;;
      if chr_eqb c c_lbracket then
        parse_args_loop v rest parts bix (counter + 1)
      else if chr_eqb c c_rbracket then
        parse_args_loop v rest parts bix (counter - 1)
      else if chr_eqb c c_comma && (counter =? 0) then
        parse_args_loop v rest (parts ++ [strip (slice v bix i)]) (i + 1)
          counter
      else parse_args_loop v rest parts bix counter
  end.

Section WithSetOrder.

Variable set_order : pyset -> list str.

Definition _parse_args (v : str) : result (list DotClassAttribute.t) :=
  if str_eqb v [] then Ok []
  else
    '(parts, bix) <- parse_args_loop v (range 0 (len v)) [] 0 0 ;;
    let parts := parts ++ [strip (slice_from v bix)] in
    mapM (DotClassAttribute.parse set_order)
      (filter (fun p => negb (str_eqb p [])) parts).

(** [set(lst)] and [s.update(other)] for a set [other]: the elements of
    [other] arrive in its enumeration order. *)
Definition set_of_list (l : list str) : pyset := set_update l [].

Definition update_with_set (other s : pyset) : pyset :=
  set_update (set_order other) s.

Definition parse (v : str) : result t :=
  let bix := find v (py "(") in
  let eix := rfind v (py ")") in
  let rix := rfind v [c_colon] in
  let rix := if (rix <? 0) || (rix <? eix) then eix else rix in
  let name_part := strip (slice v 0 bix) in
  let args_part := strip (slice v (bix + 1) eix) in
  let return_args_part := strip (slice_from v (rix + 1)) in
  let name := _parse_name name_part in
  args <- _parse_args args_part ;;
  let return_args := DotReturn.parse set_order return_args_part in
  let aggregations :=
    fold_left
      (fun acc i =>
         update_with_set (set_of_list (DotClassAttribute.compositions i)) acc)
      args [] in
  let aggregations :=
    update_with_set (set_of_list (DotReturn.compositions return_args))
      aggregations in
  Ok (mk name args (Some return_args) v (set_order aggregations)).

End WithSetOrder.

End DotClassMethod.


(** ** Syntax trees

    The part of Python's [ast] that the symbol extractor reads.  A node
    class the extractor has no case for is an [OtherExpr] or an
    [OtherStmt]. *)

(** A Python value as the extractor meets it: the value of a constant, a
    resolved name, or [None].  [VOther] is a float, a complex number or
    [Ellipsis], of which only the truth value is observed. *)
Inductive value : Type :=
| VStr (s : str)
| VBytes (s : str)
| VInt (z : Z)
| VBool (b : bool)
| VNone
| VOther (truthy : bool).

Inductive other_expr_kind : Type :=
| NamedExpr | UnaryOp | Lambda | IfExp | Dict | Set_ | ListComp | SetComp
| DictComp | GeneratorExp | Await | Yield | YieldFrom | FormattedValue
| JoinedStr | Subscript | Starred | List_ | Slice.

#[warnings="-register-all"]
Inductive expr : Type :=
| Constant (value_ : value)
| Name (id : str)
| Attribute (value_ : expr) (attr : str)
| Call (func : expr) (args : list expr)
| Tuple (elts : list expr)
| BoolOp (values : list expr)
| Compare (left : expr) (comparators : list expr)
| BinOp (left right : expr)
| OtherExpr (kind : other_expr_kind).

Record alias : Type := mk_alias {
  alias_name : str;
  asname : option str
}.

Inductive other_stmt_kind : Type :=
| Return | Delete | AugAssign | For | AsyncFor | While | With | AsyncWith
| Match | Raise_ | Assert | Global | Nonlocal | Pass | Break | Continue
| TryStar | TypeAlias.

#[warnings="-register-all"]
Inductive stmt : Type :=
| Stmt (lineno end_lineno : Z) (node : stmt_node)
with stmt_node : Type :=
| Import (names : list alias)
| ImportFrom (module : option str) (names : list alias)
| Assign (targets : list expr)
| AnnAssign (target : expr)
| ClassDef (name : str) (body : list stmt)
| FunctionDef (name : str)
| AsyncFunctionDef (name : str)
| If (test : expr)
| Expr (value_ : expr)
| Try
| OtherStmt (kind : other_stmt_kind).

Definition lineno (s : stmt) : Z := let 'Stmt l _ _ := s in l.
Definition end_lineno (s : stmt) : Z := let 'Stmt _ e _ := s in e.
Definition node_of (s : stmt) : stmt_node := let 'Stmt _ _ n := s in n.

(** The class names of the nodes. *)
Definition other_expr_name (k : other_expr_kind) : string :=
  match k with
  | NamedExpr => "NamedExpr" | UnaryOp => "UnaryOp" | Lambda => "Lambda"
  | IfExp => "IfExp" | Dict => "Dict" | Set_ => "Set"
  | ListComp => "ListComp" | SetComp => "SetComp" | DictComp => "DictComp"
  | GeneratorExp => "GeneratorExp" | Await => "Await" | Yield => "Yield"
  | YieldFrom => "YieldFrom" | FormattedValue => "FormattedValue"
  | JoinedStr => "JoinedStr" | Subscript => "Subscript"
  | Starred => "Starred" | List_ => "List" | Slice => "Slice"
  end.

Definition expr_class (e : expr) : string :=
  match e with
  | Constant _ => "Constant" | Name _ => "Name" | Attribute _ _ => "Attribute"
  | Call _ _ => "Call" | Tuple _ => "Tuple" | BoolOp _ => "BoolOp"
  | Compare _ _ => "Compare" | BinOp _ _ => "BinOp"
  | OtherExpr k => other_expr_name k
  end.

Definition other_stmt_name (k : other_stmt_kind) : string :=
  match k with
  | Return => "Return" | Delete => "Delete" | AugAssign => "AugAssign"
  | For => "For" | AsyncFor => "AsyncFor" | While => "While"
  | With => "With" | AsyncWith => "AsyncWith" | Match => "Match"
  | Raise_ => "Raise" | Assert => "Assert" | Global => "Global"
  | Nonlocal => "Nonlocal" | Pass => "Pass" | Break => "Break"
  | Continue => "Continue" | TryStar => "TryStar" | TypeAlias => "TypeAlias"
  end.

Definition stmt_class (n : stmt_node) : string :=
  match n with
  | Import _ => "Import" | ImportFrom _ _ => "ImportFrom"
  | Assign _ => "Assign" | AnnAssign _ => "AnnAssign"
  | ClassDef _ _ => "ClassDef" | FunctionDef _ => "FunctionDef"
  | AsyncFunctionDef _ => "AsyncFunctionDef" | If _ => "If"
  | Expr _ => "Expr" | Try => "Try" | OtherStmt k => other_stmt_name k
  end.

(** Modelled from the spec: [any_to_str] of [metagpt.utils.common] is not
    among the sources.  On a node it is the display form of the node's
    class, here the class name qualified by its module; the extractor
    only compares these names with each other and stores them. *)
Definition any_to_str_class (c : string) : str := py ("ast." ++ c).

Definition any_to_str_expr (e : expr) : str :=
  any_to_str_class (expr_class e).

Definition any_to_str (s : stmt) : str :=
  any_to_str_class (stmt_class (node_of s)).

(** ** Symbol extractor *)

(** The diagnostics written to the log. *)
Inductive warning : Type :=
| UnsupportedCodeBlock (lineno end_lineno : Z) (type_name : str)
| UnsupportedVariable (node_class : str)
| UnsupportedIf (e : exn)
| ParseFileError.

Inductive property : Type :=
| PValue (v : value)
| PList (l : list value).

Record CodeBlockInfo : Type := mk_CodeBlockInfo {
  cb_lineno : Z;
  cb_end_lineno : Z;
  type_name : str;
  tokens : list value;
  properties : list (str * property)
}.

Record RepoFileInfo : Type := mk_RepoFileInfo {
  file : str;
  classes : list (str * list str);
  functions : list str;
  globals : list str;
  page_info : list CodeBlockInfo
}.

Module RepoParser.

(** The truth value of a Python value. *)
Definition truthy (v : value) : bool :=
  match v with
  | VStr s | VBytes s => negb (str_eqb s [])
  | VInt z => negb (z =? 0)
  | VBool b => b
  | VNone => false
  | VOther t => t
  end.

(** [_parse_variable] returns the resolved value, or [None] after the
    warning of its [except] clause. *)
Fixpoint _parse_variable (node : expr) : value * list warning :=
  match node with
  | Constant v => (v, [])
  | Name id => (VStr id, [])
  | Attribute (Name id) attr => (VStr ((id ++ [c_dot]) ++ attr), [])
  | Attribute _ attr => (VStr attr, [])
  | Call func _ => _parse_variable func
  | Tuple _ => (VStr [], [])
  | BoolOp _ | Compare _ _ | BinOp _ _ | OtherExpr _ =>
      (VNone, [UnsupportedVariable (any_to_str_expr node)])
  end.

Definition _parse_name (n : alias) : str :=
  match asname n with
  | Some a =>
      if negb (str_eqb a []) then (alias_name n ++ py " as ") ++ a
      else alias_name n
  | None => alias_name n
  end.

Definition _parse_assign (targets : list expr) : list value * list warning :=
  fold_right
    (fun t acc =>
       let '(v, w) := _parse_variable t in
       let '(vs, ws) := acc in (v :: vs, w ++ ws))
    ([], []) targets.

(** [_parse_expr] on the value of an expression statement. *)
Definition _parse_expr (value_ : expr) : result (list value) * list warning :=
  match value_ with
  | Constant _ =>
      let '(v, w) := _parse_variable value_ in
      (Ok [VStr (any_to_str_expr value_); v], w)
  | Call func _ =>
      let '(v, w) := _parse_variable func in
      (Ok [VStr (any_to_str_expr value_); v], w)
  | _ => (Raise NotImplementedError, [])
  end.

(** [_parse_if_compare]: the operand [n.left] resolved when [n] has one,
    the empty list otherwise. *)
Definition _parse_if_compare (n : expr)
  : (value + list value) * list warning :=
  match n with
  | Compare lhs _ | BinOp lhs _ =>
      let '(v, w) := _parse_variable lhs in (inl v, w)
  | _ => (inr [], [])
  end.

(** [tokens.extend(x)]: a string contributes its characters, a bytes
    object its codes, a list its items; anything else is not iterable. *)
Definition extend (tokens : list value) (x : value + list value)
  : result (list value) :=
  match x with
  | inr l => Ok (tokens ++ l)
  | inl (VStr s) => Ok (tokens ++ map (fun c => VStr [c]) s)
  | inl (VBytes s) =>
      Ok (tokens ++ map (fun c => VInt (Z.of_nat (nat_of_ascii c))) s)
  | inl _ => Raise TypeError
  end.

(** The loop of [_parse_if] over the operands of a boolean operation;
    an exception leaves the loop with the tokens gathered so far. *)
Fixpoint parse_if_boolop (values : list expr) (tokens : list value)
  : list value * list warning :=
  match values with
  | [] => (tokens, [])
  | v :: rest =>
      let '(x, w) := _parse_if_compare v in
      match extend tokens x with
      | Ok tokens' =>
          let '(r, w') := parse_if_boolop rest tokens' in (r, w ++ w')
      | Raise e => (tokens, w ++ [UnsupportedIf e])
      end
  end.

(** [v = _parse_variable(item); if v: tokens.append(v)] *)
Definition append_resolved (item : expr) (acc : list value * list warning)
  : list value * list warning :=
  let '(tokens, ws) := acc in
  let '(v, w) := _parse_variable item in
  (if truthy v then tokens ++ [v] else tokens, ws ++ w).

Definition _parse_if (test : expr) : list value * list warning :=
  match test with
  | BoolOp values => parse_if_boolop values []
  | Compare lhs comparators =>
      fold_left (fun acc item => append_resolved item acc) comparators
        (append_resolved lhs ([], []))
  | _ => ([], [UnsupportedIf AttributeError])
  end.

Definition node_to_str (node : stmt)
  : result (option CodeBlockInfo) * list warning :=
  let block tokens properties :=
    mk_CodeBlockInfo (lineno node) (end_lineno node) (any_to_str node)
      tokens properties in
  match node_of node with
  | Try => (Ok None, [])
  | Expr value_ =>
      match _parse_expr value_ with
      | (Ok tokens, w) => (Ok (Some (block tokens [])), w)
      | (Raise e, w) => (Raise e, w)
      end
  | Import names =>
      let val := map (fun n => VStr (_parse_name n)) names in
      (Ok (Some (block val [])), [])
  | Assign targets =>
      let '(val, w) := _parse_assign targets in
      (Ok (Some (block val [])), w)
  | ClassDef name _ | FunctionDef name | AsyncFunctionDef name =>
      (Ok (Some (block [VStr name] [])), [])
  | ImportFrom module names =>
      let val :=
        [(py "module",
          PValue match module with Some m => VStr m | None => VNone end);
         (py "names", PList (map (fun n => VStr (_parse_name n)) names))] in
      (Ok (Some (block [] val)), [])
  | If test =>
      let '(val, w) := _parse_if test in
      (Ok (Some (block val [])), w)
  | AnnAssign target =>
      let '(val, w) := _parse_variable target in
      match val with
      | VStr s => (Ok (Some (block [VStr s] [])), w)
      | _ => (Raise NotImplementedError, w)
      end
  | OtherStmt _ =>
      (Ok None,
       [UnsupportedCodeBlock (lineno node) (end_lineno node)
          (any_to_str node)])
  end.

Definition is_func (node : stmt) : bool :=
  match node_of node with
  | FunctionDef _ | AsyncFunctionDef _ => true
  | _ => false
  end.

(** [m.name] of a function definition. *)
Definition func_names (body : list stmt) : list str :=
  flat_map
    (fun m => match node_of m with
              | FunctionDef name | AsyncFunctionDef name => [name]
              | _ => []
              end) body.

Definition name_ids (targets : list expr) : list str :=
  flat_map (fun t => match t with Name id => [id] | _ => [] end) targets.

(** One turn of the loop of [extract_class_and_function_info]. *)
Definition extract_step (file_info : RepoFileInfo) (node : stmt)
  : result RepoFileInfo * list warning :=
  match node_to_str node with
  | (Raise e, w) => (Raise e, w)
  | (Ok info, w) =>
      let page_info' :=
        match info with
        | Some i => page_info file_info ++ [i]
        | None => page_info file_info
        end in
      let fi :=
        mk_RepoFileInfo (file file_info) (classes file_info)
          (functions file_info) (globals file_info) page_info' in
      (Ok match node_of node with
          | ClassDef name body =>
              mk_RepoFileInfo (file fi)
                (classes fi ++ [(name, func_names body)])
                (functions fi) (globals fi) (page_info fi)
          | FunctionDef name | AsyncFunctionDef name =>
              mk_RepoFileInfo (file fi) (classes fi)
                (functions fi ++ [name]) (globals fi) (page_info fi)
          | Assign targets =>
              mk_RepoFileInfo (file fi) (classes fi) (functions fi)
                (globals fi ++ name_ids targets) (page_info fi)
          | AnnAssign target =>
              mk_RepoFileInfo (file fi) (classes fi) (functions fi)
                (globals fi ++ name_ids [target]) (page_info fi)
          | _ => fi
          end, w)
  end.

Fixpoint extract_loop (tree : list stmt) (file_info : RepoFileInfo)
  : result RepoFileInfo * list warning :=
  match tree with
  | [] => (Ok file_info, [])
  | node :: rest =>
      match extract_step file_info node with
      | (Raise e, w) => (Raise e, w)
      | (Ok fi, w) =>
          let '(r, w') := extract_loop rest fi in (r, w ++ w')
      end
  end.

Section Repository.

(** The repository on disk: the paths that [base_directory.rglob] yields
    for a pattern, each path relative to [base_directory] as a string,
    the text of a file and Python's parser (both may raise). *)
Variable path : Type.
Variable rglob : str -> list path.
Variable relative_to_base : path -> str.
Variable read_text : path -> result str.
Variable ast_parse : str -> result (list stmt).

(** Modelled from the spec: the decorator [handle_exception] of
    [metagpt.utils.exceptions] is not among the sources.  With
    [exception_type=Exception] it turns every exception of the decorated
    call into a logged error and the value [default_return]. *)
Definition handle_exception {A} (default_return : A) (call : result A)
  : A * list warning :=
  match call with
  | Ok a => (a, [])
  | Raise _ => (default_return, [ParseFileError])
  end.

(** The record of a file without statements. *)
Definition empty_info (p : path) : RepoFileInfo :=
  mk_RepoFileInfo (relative_to_base p) [] [] [] [].

Definition _parse_file (file_path : path) : list stmt * list warning :=
  handle_exception [] (text <- read_text file_path ;; ast_parse text).

Definition extract_class_and_function_info (tree : list stmt)
    (file_path : path) : result RepoFileInfo * list warning :=
  extract_loop tree (mk_RepoFileInfo (relative_to_base file_path) [] [] [] []).

(** The second loop of [generate_symbols]. *)
Fixpoint symbols_of (matching_files : list path)
    (files_classes : list RepoFileInfo)
  : result (list RepoFileInfo) * list warning :=
  match matching_files with
  | [] => (Ok files_classes, [])
  | p :: rest =>
      let '(tree, w0) := _parse_file p in
      match extract_class_and_function_info tree p with
      | (Raise e, w) => (Raise e, w0 ++ w)
      | (Ok file_info, w) =>
          let '(r, w') := symbols_of rest (files_classes ++ [file_info]) in
          (r, (w0 ++ w) ++ w')
      end
  end.

Definition generate_symbols : result (list RepoFileInfo) * list warning :=
  let extensions := [py "*.py"; py "*.js"] in
  let matching_files := flat_map rglob extensions in
  symbols_of matching_files [].

End Repository.

End RepoParser.

(** ** Dictionaries

    A [dict] with string keys, as the list of its items in insertion
    order: assigning to a key that is present keeps its position. *)

Definition dict (V : Type) : Type := list (str * V).

Fixpoint dict_get {V} (d : dict V) (k : str) : option V :=
  match d with
  | [] => None
  | (k', v) :: rest => if str_eqb k k' then Some v else dict_get rest k
  end.

Definition dict_mem {V} (k : str) (d : dict V) : bool :=
  match dict_get d k with Some _ => true | None => false end.

(** [d[k] = v] *)
Fixpoint dict_set {V} (d : dict V) (k : str) (v : V) : dict V :=
  match d with
  | [] => [(k, v)]
  | (k', v') :: rest =>
      if str_eqb k k' then (k', v) :: rest
      else (k', v') :: dict_set rest k v
  end.

(** [d.update(other)] *)
Definition dict_update {V} (d other : dict V) : dict V :=
  fold_left (fun acc kv => dict_set acc (fst kv) (snd kv)) other d.

(** ** Diagram ingestor *)

Record DotClassInfo : Type := mk_DotClassInfo {
  ci_name : str;
  package : option str;
  attributes : dict DotClassAttribute.t;
  methods : dict DotClassMethod.t;
  ci_compositions : list str;
  ci_aggregations : list str
}.

Record DotClassRelationship : Type := mk_DotClassRelationship {
  src : str;
  dest : str;
  relationship : str;
  label : option str
}.

Module Ingest.

(** [re.sub] of a line-break tag, [<br] up to the next [>], by a newline.
    A tag starts where the text reads [<br] and a [>] follows later;
    [in_tag] says that the characters read belong to a tag. *)
Fixpoint sub_br (s : str) (in_tag : bool) : str :=
  match s with
  | [] => []
  | c :: rest =>
      if in_tag then
        if chr_eqb c c_gt then c_newline :: sub_br rest false
        else sub_br rest true
      else if startswith s (py "<br") && existsb (chr_eqb c_gt) rest
      then sub_br rest true
      else c :: sub_br rest false
  end.

Definition _split_class_line (line : str) : option (str * str) :=
  let part_splitor := [c_dquote; " "%char; c_lbracket] in
  if negb (contains line part_splitor) then None
  else
    let ix := find line part_splitor in
    let class_name := remove_chr c_dquote (slice line 0 ix) in
    let left_ := slice_from line ix in
    let begin_flag := py "label=<{" in
    let end_flag := py "}>" in
    if negb (contains left_ begin_flag) || negb (contains left_ end_flag)
    then None
    else
      let bix := find left_ begin_flag in
      let eix := rfind left_ end_flag in
      let info := slice left_ (bix + len begin_flag) eix in
      let info := sub_br info false in
      Some (class_name, info).

(** [re.split] at every pipe that no backslash precedes; [prev] is the
    character before the current one, [cur] the piece being read,
    reversed. *)
Fixpoint split_unescaped (s : str) (prev : option ascii) (cur : str)
  : list str :=
  match s with
  | [] => [rev cur]
  | c :: rest =>
      let escaped :=
        match prev with Some p => chr_eqb p c_backslash | None => false end in
      if chr_eqb c c_pipe && negb escaped
      then rev cur :: split_unescaped rest (Some c) []
      else split_unescaped rest (Some c) (c :: cur)
  end.

Definition split_sections (info : str) : list str :=
  split_unescaped info None [].

(** [for i in new: if i not in lst: lst.append(i)] *)
Definition add_compositions (lst new : list str) : list str :=
  fold_left (fun acc i => if mem i acc then acc else acc ++ [i]) new lst.

(** [for i in new: if i not in compositions and i not in lst:
    lst.append(i)] *)
Definition add_aggregations (compositions lst new : list str) : list str :=
  fold_left
    (fun acc i => if mem i compositions || mem i acc then acc else acc ++ [i])
    new lst.

Section WithSetOrder.

Variable set_order : pyset -> list str.

(** The loop over the attribute lines of a class. *)
Fixpoint parse_members (ms : list str) (class_info : DotClassInfo)
  : result DotClassInfo :=
  match ms with
  | [] => Ok class_info
  | m :: rest =>
      if str_eqb m [] then parse_members rest class_info
      else
        attr <- DotClassAttribute.parse set_order m ;;
        parse_members rest
          (mk_DotClassInfo (ci_name class_info) (package class_info)
             (dict_set (attributes class_info)
                (DotClassAttribute.name attr) attr)
             (methods class_info)
             (add_compositions (ci_compositions class_info)
                (DotClassAttribute.compositions attr))
             (ci_aggregations class_info))
  end.

(** The loop over the method lines of a class. *)
Fixpoint parse_functions (fs : list str) (class_info : DotClassInfo)
  : result DotClassInfo :=
  match fs with
  | [] => Ok class_info
  | f :: rest =>
      if str_eqb f [] then parse_functions rest class_info
      else
        method <- DotClassMethod.parse set_order f ;;
        parse_functions rest
          (mk_DotClassInfo (ci_name class_info) (package class_info)
             (attributes class_info)
             (dict_set (methods class_info)
                (DotClassMethod.name method) method)
             (ci_compositions class_info)
             (add_aggregations (ci_compositions class_info)
                (ci_aggregations class_info)
                (DotClassMethod.aggregations method)))
  end.

(** The body of the loop of [_parse_classes] for a line that encodes a
    class. *)
Definition parse_class (package_name info : str) : result DotClassInfo :=
  match split_sections info with
  | [class_name; members; functions] =>
      let class_info :=
        mk_DotClassInfo class_name None [] [] (sort []) (sort []) in
      let class_info :=
        mk_DotClassInfo (ci_name class_info) (Some package_name)
          (attributes class_info) (methods class_info)
          (ci_compositions class_info) (ci_aggregations class_info) in
      class_info <- parse_members (split c_newline members) class_info ;;
      parse_functions (split c_newline functions) class_info
  | _ => Raise ValueError
  end.

Fixpoint parse_class_lines (lines : list str) (class_views : list DotClassInfo)
  : result (list DotClassInfo) :=
  match lines with
  | [] => Ok class_views
  | line :: rest =>
      match _split_class_line line with
      | None => parse_class_lines rest class_views
      | Some (package_name, info) =>
          if str_eqb package_name [] then parse_class_lines rest class_views
          else
            class_info <- parse_class package_name info ;;
            parse_class_lines rest (class_views ++ [class_info])
      end
  end.

(** [_parse_classes] on the text of the class diagram; [None] when the
    file does not exist. *)
Definition _parse_classes (data : option str) : result (list DotClassInfo) :=
  match data with
  | None => Ok []
  | Some data => parse_class_lines (split c_newline data) []
  end.

End WithSetOrder.

End Ingest.

(** ** Namespace reconciler *)

(** The directory tree that [_create_path_mapping] walks.  Every entry
    carries [str] of its path; [Missing] is a path that does not exist. *)
#[warnings="-register-all"]
Inductive entry : Type :=
| File (path : str)
| Dir (path : str) (entries : list entry)
| Missing (path : str).

Definition entry_path (e : entry) : str :=
  match e with File p | Dir p _ | Missing p => p end.

Module Reconcile.

(** [s.lstrip(c)] for a one-character [c]. *)
Fixpoint lstrip_chr (c : ascii) (s : str) : str :=
  match s with
  | x :: t => if chr_eqb x c then lstrip_chr c t else s
  | [] => []
  end.

(** [str(Path(f).with_suffix(empty))]: the last component of [f] loses
    its suffix, which starts at its last dot when that dot is neither
    its first nor its last character. *)
Definition with_suffix_removed (f : str) : str :=
  let name := slice_from f (rfind f [c_slash] + 1) in
  let i := rfind name [c_dot] in
  if (0 <? i) && (i <? len name - 1)
  then slice f 0 (len f - (len name - i))
  else f.

Definition dotted (p : str) : str := replace_chr c_slash c_dot p.

(** The last loop of [_create_path_mapping]. *)
Definition add_files (mappings : dict str) (files : list str) : dict str :=
  fold_left
    (fun acc f => dict_set acc (dotted (with_suffix_removed f)) f)
    files mappings.

(** [iterdir] on something that is not a directory raises, which the
    function logs and survives with the mapping of the path alone. *)
Fixpoint _create_path_mapping (e : entry) : dict str :=
  let mappings := [(dotted (entry_path e), entry_path e)] in
  match e with
  | Missing _ | File _ => mappings
  | Dir _ entries =>
      let fix walk (es : list entry) (mappings : dict str)
          (files : list str) : dict str * list str :=
        match es with
        | [] => (mappings, files)
        | File f :: rest => walk rest mappings (files ++ [f])
        | sub :: rest =>
            walk rest (dict_update mappings (_create_path_mapping sub)) files
        end in
      let '(mappings, files) := walk entries mappings [] in
      add_files mappings files
  end.

(** The [while] loop of [_find_root]; the result is the final [left]. *)
Fixpoint find_root_loop (fuel : nat) (left_ package_ : str) : result str :=
  match fuel with
  | O => Raise OutOfFuel
  | S fuel' =>
      if str_eqb left_ [] then Ok left_
      else if contains package_ left_ then Ok left_
      else if negb (contains left_ [c_dot]) then Ok left_
      else
        let ix := find left_ [c_dot] in
        find_root_loop fuel' (slice_from left_ (ix + 1)) package_
  end.

(** [left in package] raises when [package] is [None]. *)
Definition _find_root (full_key : str) (package_ : option str) : result str :=
  left_ <-
    match package_ with
    | Some p => find_root_loop (S (List.length full_key)) full_key p
    | None => if str_eqb full_key [] then Ok full_key else Raise TypeError
    end ;;
  let ix := rfind full_key left_ in
  Ok (c_dot :: slice full_key 0 ix).

(** The [while] loop of [_repair_ns]; [ix] is [None] as long as the
    variable is not bound.  The result is the final [(file_ns, ix)]. *)
Fixpoint repair_ns_loop (fuel : nat) (file_ns : str) (ix : option Z)
    (mappings : dict str) : result (str * option Z) :=
  match fuel with
  | O => Raise OutOfFuel
  | S fuel' =>
      if str_eqb file_ns [] then Ok (file_ns, ix)
      else if negb (dict_mem file_ns mappings) then
        let ix := rfind file_ns [c_dot] in
        repair_ns_loop fuel' (slice file_ns 0 ix) (Some ix) mappings
      else Ok (file_ns, ix)
  end.

(** [None != empty] holds and [None] is no key, so a package that is
    [None] reaches [file_ns.rfind], which [None] does not have. *)
Definition _repair_ns (package_ : option str) (mappings : dict str)
  : result str :=
  match package_ with
  | None => Raise AttributeError
  | Some package_ =>
      '(file_ns, ix) <-
        repair_ns_loop (S (List.length package_)) package_ None mappings ;;
      match ix with
      | None => Raise UnboundLocalError
      | Some ix =>
          let internal_ns := slice_from package_ (ix + 1) in
          match dict_get mappings file_ns with
          | None => Raise KeyError
          | Some file_path =>
              Ok ((file_path ++ [c_colon])
                    ++ replace_chr c_dot c_colon internal_ns)
          end
      end
  end.

Definition repair_class (new_mappings : dict str) (c : DotClassInfo)
  : result DotClassInfo :=
  ns <- _repair_ns (package c) new_mappings ;;
  Ok (mk_DotClassInfo (ci_name c) (Some ns) (attributes c) (methods c)
        (ci_compositions c) (ci_aggregations c)).

Definition repair_relationship (new_mappings : dict str)
    (v : DotClassRelationship) : result DotClassRelationship :=
  s <- _repair_ns (Some (src v)) new_mappings ;;
  d <- _repair_ns (Some (dest v)) new_mappings ;;
  Ok (mk_DotClassRelationship s d (relationship v) (label v)).

(** [_repair_namespaces] on the directory tree found at [path]. *)
Definition _repair_namespaces (class_views : list DotClassInfo)
    (relationship_views : list DotClassRelationship) (path : entry)
  : result (list DotClassInfo * list DotClassRelationship * str) :=
  match class_views with
  | [] => Ok ([], [], [])
  | c :: _ =>
      let full_key := dotted (lstrip_chr c_slash (entry_path path)) in
      root_namespace <- _find_root full_key (package c) ;;
      let root_path := replace_chr c_dot c_slash root_namespace in
      let mappings := _create_path_mapping path in
      let ix_root_namespace := len root_namespace in
      let ix_root_path := len root_path in
      let new_mappings :=
        fold_left
          (fun acc kv =>
             dict_set acc (slice_from (fst kv) ix_root_namespace)
               (slice_from (snd kv) ix_root_path))
          mappings [] in
      class_views' <-
        mapM (repair_class new_mappings) class_views ;;
      relationship_views' <-
        mapM (repair_relationship new_mappings)
          relationship_views ;;
      Ok (class_views', relationship_views', root_path)
  end.

End Reconcile.

(** ** Relationship lines of the class diagram *)

(** [sep.join(l)] *)
Fixpoint join (sep : str) (l : list str) : str :=
  match l with
  | [] => []
  | x :: rest =>
      match rest with
      | [] => x
      | _ :: _ => (x ++ sep) ++ join sep rest
      end
  end.

Module Relationships.

(** [s.strip(c)] for a one-character [c]. *)
Definition strip_chr (c : ascii) (s : str) : str :=
  rev (Reconcile.lstrip_chr c (rev (Reconcile.lstrip_chr c s))).

(** [s.find(sub, start)] for [0 <= start]. *)
Definition find_at (s sub : str) (start : Z) : Z :=
  if len s <? start then -1
  else find_from sub (skipn (Z.to_nat start) s) start.

Definition _get_label (line : str) : str :=
  let tag := py "label=" ++ [c_dquote] in
  if negb (contains line tag) then []
  else
    let ix := find line tag in
    let eix := find_at line [c_dquote] (ix + len tag) in
    slice line (ix + len tag) eix.

(** The key of [mappings] for an arrow head: the attribute with its
    value between double quotes. *)
Definition arrowhead (kind : string) : str :=
  (py "arrowhead=" ++ [c_dquote]) ++ py kind ++ [c_dquote].

Section Constants.

(** The relationship names of [metagpt.const]. *)
Variables GENERALIZATION COMPOSITION AGGREGATION : str.

(** The loop over [mappings.items()], left at the first key that the
    properties contain. *)
Fixpoint set_relationship (mappings : list (str * str)) (properties : str)
    (ret : DotClassRelationship) : DotClassRelationship :=
  match mappings with
  | [] => ret
  | (k, v) :: rest =>
      if contains properties k then
        mk_DotClassRelationship (src ret) (dest ret) v
          (if negb (str_eqb v GENERALIZATION)
           then Some (_get_label properties) else label ret)
      else set_relationship rest properties ret
  end.

Definition _split_relationship_line (line : str)
  : option DotClassRelationship :=
  let s0 := py " -> " in
  let s1 := py " [" in
  let s2 := py "];" in
  if negb (contains line s0) then None
  else if negb (contains line s1) then None
  else if negb (contains line s2) then None
  else
    let i0 := find line s0 in
    let i1 := find line s1 in
    let i2 := find line s2 in
    let src_ := strip_chr c_dquote (slice line 0 i0) in
    let dest_ := strip_chr c_dquote (slice line (i0 + len s0) i1) in
    let properties := strip_chr " "%char (slice line (i1 + len s1) i2) in
    let mappings :=
      [(arrowhead "empty", GENERALIZATION);
       (arrowhead "diamond", COMPOSITION);
       (arrowhead "odiamond", AGGREGATION)] in
    Some (set_relationship mappings properties
            (mk_DotClassRelationship src_ dest_ [] None)).

(** [_parse_class_relationships] on the text of the class diagram;
    [None] when the file does not exist. *)
Definition _parse_class_relationships (data : option str)
  : list DotClassRelationship :=
  match data with
  | None => []
  | Some data =>
      fold_left
        (fun relationship_views line =>
           match _split_relationship_line line with
           | None => relationship_views
           | Some r => relationship_views ++ [r]
           end)
        (split c_newline data) []
  end.

End Constants.

End Relationships.

(** ** Sequence views: [metagpt/actions/rebuild_sequence_view.py] *)

Module RebuildSequenceView.

(** The character class of the pattern of [parse_participant]: letters,
    digits, the dot and the underscore. *)
Definition is_participant_chr (c : ascii) : bool :=
  let n := nat_of_ascii c in
  ((97 <=? n) && (n <=? 122) || (65 <=? n) && (n <=? 90) || (n =? 46)
   || (48 <=? n) && (n <=? 57) || (n =? 95))%nat.

Fixpoint take_while (p : ascii -> bool) (s : str) : str :=
  match s with
  | c :: t => if p c then c :: take_while p t else []
  | [] => []
  end.

(** [re.findall] of the pattern: at a position where the text reads
    [participant] and a space, the longest run of characters of the class
    is the match when it is not empty, and the search goes on behind it;
    [skip] counts the characters of the last match still to pass. *)
Fixpoint findall_participant (s : str) (skip : nat) : list str :=
  match s with
  | [] => []
  | _ :: t =>
      match skip with
      | S k => findall_participant t k
      | O =>
          if startswith s (py "participant ") then
            let name := take_while is_participant_chr (skipn 12 s) in
            if str_eqb name [] then findall_participant t 0
            else name :: findall_participant t (11 + List.length name)
          else findall_participant t 0
      end
  end.

Definition parse_participant (mermaid_sequence_diagram : str) : list str :=
  findall_participant mermaid_sequence_diagram 0.

End RebuildSequenceView.

(** ** Experiments: [expo/experimenter/experimenter.py] *)

Module Experimenter.

Section Evaluation.

(** The values of a score dictionary, the state of a run, and the
    evaluation of the predictions of one split, which reads files and may
    raise. *)
Variables score state : Type.
Variable evaluate_prediction : str -> state -> result score.

Definition evaluate (score_dict : dict score) (st : state)
  : result (dict score) :=
  dev <- evaluate_prediction (py "dev") st ;;
  test <- evaluate_prediction (py "test") st ;;
  let scores :=
    dict_set (dict_set [] (py "dev_score") dev) (py "test_score") test in
  Ok (dict_update score_dict scores).

End Evaluation.

End Experimenter.

(** ** Comprehensions of the statements *)

(** [a <= b] on strings. *)
Definition str_le (a b : str) : Prop := str_leb a b = true.

(** The classes, globals and blocks of a module body, statement by
    statement. *)
Definition class_entries (tree : list stmt) : list (str * list str) :=
  flat_map
    (fun n => match node_of n with
              | ClassDef name body => [(name, RepoParser.func_names body)]
              | _ => []
              end) tree.

Definition global_names (tree : list stmt) : list str :=
  flat_map
    (fun n => match node_of n with
              | Assign targets => RepoParser.name_ids targets
              | AnnAssign target => RepoParser.name_ids [target]
              | _ => []
              end) tree.

Definition blocks (tree : list stmt) : list CodeBlockInfo :=
  flat_map
    (fun n => match fst (RepoParser.node_to_str n) with
              | Ok (Some b) => [b]
              | _ => []
              end) tree.

(** A relationship line as the diagram tool writes it: the two names
    between double quotes, an arrow, and the properties in brackets. *)
Definition quoted (s : str) : str := c_dquote :: s ++ [c_dquote].

Definition relationship_line (src_ dest_ properties : str) : str :=
  quoted src_ ++ py " -> " ++ quoted dest_ ++ py " [" ++ properties
    ++ py "];".

(** A name without space, double quote or bracket. *)
Definition plain_name (s : str) : Prop :=
  forall c, In c s ->
    c <> " "%char /\ c <> c_dquote /\ c <> c_lbracket /\ c <> c_rbracket.

(** A relationship line of a class diagram and the edge it encodes. *)
Definition sample_relationship_line : str :=
  ([c_dquote] ++ py "a.C" ++ [c_dquote] ++ py " -> "
     ++ [c_dquote] ++ py "a.D" ++ [c_dquote] ++ py " [")
    ++ (Relationships.arrowhead "diamond" ++ py ", label=" ++ [c_dquote]
          ++ py "items" ++ [c_dquote] ++ py ", style=" ++ [c_dquote]
          ++ py "solid" ++ [c_dquote] ++ py "];").

Definition sample_relationship : DotClassRelationship :=
  mk_DotClassRelationship (py "a.C") (py "a.D") (py "Composite")
    (Some (py "items")).

(** A module body: an import, a class with a method, a function, an
    assignment and a statement of an unsupported kind. *)
Definition sample_module : list stmt :=
  [Stmt 1 1 (ImportFrom (Some (py "os")) [mk_alias (py "path") None]);
   Stmt 3 6 (ClassDef (py "A") [Stmt 4 4 (Expr (Constant (VStr (py "doc"))));
                                Stmt 5 6 (FunctionDef (py "run"))]);
   Stmt 8 9 (AsyncFunctionDef (py "main"));
   Stmt 11 11 (Assign [Name (py "x"); Attribute (Name (py "a")) (py "b")]);
   Stmt 12 13 (OtherStmt While)].

(** A sequence diagram with two participants and a message. *)
Definition sample_diagram : str :=
  py "sequenceDiagram" ++ [c_newline]
    ++ py "    participant a.Main" ++ [c_newline]
    ++ py "    participant  B" ++ [c_newline]
    ++ py "    participant Bob_2 as B" ++ [c_newline]
    ++ py "    a.Main->>Bob_2: run()".



(** A method line of a class label: the name, the arguments between
    parentheses, a colon and the return type; and an attribute line: the
    name, a colon, the type, an equals sign and the default value. *)
Definition method_line (name_ args_ return_ : str) : str :=
  name_ ++ py "(" ++ args_ ++ py ")" ++ [c_colon] ++ return_.

Definition attribute_line (name_ type_ default_ : str) : str :=
  name_ ++ [c_colon] ++ type_ ++ [c_equals] ++ default_.

(** The type text of an attribute line as [DotClassAttribute.parse]
    normalises it before it looks for a literal. *)
Definition normal_type (type_ : str) : str :=
  let t := DotClassAttribute.remove_white_spaces type_ in
  if str_eqb t (py "NoneType") then [] else t.

(** The bracket depth behind [s] when the depth before it is
    [counter]; [None] when [s] holds a comma at depth zero. *)
Fixpoint part_depth (s : str) (counter : Z) : option Z :=
  match s with
  | [] => Some counter
  | c :: t =>
      if chr_eqb c c_lbracket then part_depth t (counter + 1)
      else if chr_eqb c c_rbracket then part_depth t (counter - 1)
      else if chr_eqb c c_comma && (counter =? 0) then None
      else part_depth t counter
  end.

(** ** Predicates of the statements *)

(** The statements on which [node_to_str] raises: an expression
    statement whose value is neither a constant nor a call, and an
    annotated assignment whose target does not resolve to a string. *)
Definition raises (node : stmt) : bool :=
  match node_of node with
  | Expr (Constant _) | Expr (Call _ _) => false
  | Expr _ => true
  | AnnAssign target =>
      match fst (RepoParser._parse_variable target) with
      | VStr _ => false
      | _ => true
      end
  | _ => false
  end.

(** What holds of a class node while it is built: no aggregation is a
    composition, and the compositions of every attribute kept are
    compositions of the class. *)
Definition class_ok (c : DotClassInfo) : Prop :=
  (forall x, In x (ci_aggregations c) -> ~ In x (ci_compositions c))
  /\ (forall kv x,
        In kv (attributes c) ->
        In x (DotClassAttribute.compositions (snd kv)) ->
        In x (ci_compositions c)).

(** What the loop of [_repair_ns] keeps true of [ix] for the package
    [p]: it is unbound, or [-1], or the index of a dot of [p]. *)
Definition ix_ok (p : str) (ix : option Z) : Prop :=
  match ix with
  | None => True
  | Some i => i = -1 \/ (0 <= i /\ nth_error p (Z.to_nat i) = Some c_dot)
  end.

(** What the loop of [_repair_ns] keeps true of [(file_ns, ix)] for the
    package [p]: before the first round nothing is cut; after a round
    that found a dot, the package is [file_ns], that dot and the text
    from [ix + 1] on; after a round that found none, [ix] is [-1] and
    [file_ns] is a proper prefix of [p] without a dot. *)
Definition repair_inv (p file_ns : str) (ix : option Z) : Prop :=
  match ix with
  | None => file_ns = p
  | Some i =>
      (0 <= i /\ p = file_ns ++ c_dot :: slice_from p (i + 1))
      \/ (i = -1 /\ ~ In c_dot file_ns
          /\ exists k, file_ns = firstn k p /\ (k < List.length p)%nat)
  end.

(** What the scanning loop of [DotClassAttribute.parse] keeps true of
    [val]: no equals sign stands before its first colon. *)
Fixpoint colon_first (v : str) : bool :=
  match v with
  | [] => true
  | c :: t =>
      if chr_eqb c c_colon then true
      else if chr_eqb c c_equals then false
      else colon_first t
  end.

(** The shape of a class node: no duplicate among its compositions, its
    aggregations, the keys of its attributes and of its methods, and
    every attribute and method stands under its own name. *)
Definition class_wf (c : DotClassInfo) : Prop :=
  NoDup (ci_compositions c) /\ NoDup (ci_aggregations c)
  /\ NoDup (map fst (attributes c)) /\ NoDup (map fst (methods c))
  /\ (forall k a, In (k, a) (attributes c) -> k = DotClassAttribute.name a)
  /\ (forall k m, In (k, m) (methods c) -> k = DotClassMethod.name m).

(** Every pipe of [s] stands behind a backslash; [prev] is the character
    before [s]. *)
Fixpoint pipes_escaped (prev : option ascii) (s : str) : bool :=
  match s with
  | [] => true
  | c :: t =>
      (negb (chr_eqb c c_pipe)
       || match prev with Some p => chr_eqb p c_backslash | None => false end)
      && pipes_escaped (Some c) t
  end.

(** The paths of a directory tree, and the loop of
    [_create_path_mapping] over the entries of a directory as a function
    of its own. *)
Fixpoint all_paths (e : entry) : list str :=
  entry_path e
  :: match e with
     | Dir _ entries => flat_map all_paths entries
     | File _ | Missing _ => []
     end.

Fixpoint walk (es : list entry) (mappings : dict str) (files : list str)
  : dict str * list str :=
  match es with
  | [] => (mappings, files)
  | File f :: rest => walk rest mappings (files ++ [f])
  | sub :: rest =>
      walk rest (dict_update mappings (Reconcile._create_path_mapping sub))
        files
  end.

(** What holds of the mapping built for a tree whose paths are [paths]
    and whose root has the key [root_key]: the keys are distinct, the
    root key is one of them, and every key is the dotted form of its
    value, with or without the suffix, the value being a path of the
    tree. *)
Definition mapping_ok (paths : list str) (root_key : str) (m : dict str)
  : Prop :=
  NoDup (map fst m) /\ dict_mem root_key m = true
  /\ forall k v, In (k, v) m ->
       In v paths
       /\ (k = Reconcile.dotted v
           \/ k = Reconcile.dotted (Reconcile.with_suffix_removed v)).

(** ** Sample inputs *)

(** A class line of a diagram: class [A] of package [pkg], with the
    attribute [x : Foo] and the method [f(a: Foo, b: Bar): Baz]. *)
Definition sample_class_line : str :=
  (c_dquote :: py "pkg.A")
    ++ c_dquote
       :: py (" [color=black, label=<{A|x : Foo<br ALIGN=LEFT/>|"
              ++ "f(a: Foo, b: Bar): Baz<br ALIGN=LEFT/>}>, shape=record];").

Definition sample_class : DotClassInfo :=
  Eval vm_compute in
    match Ingest._parse_classes insertion_order (Some sample_class_line) with
    | Ok [c] => c
    | _ => mk_DotClassInfo [] None [] [] [] []
    end.

(** A directory [/root/proj/metagpt] with [foo.py] and [sub/bar.py], a
    class of the module [metagpt.foo] and an edge from it, as the diagram
    tool names them; then the same graph reconciled once and twice. *)
Definition sample_tree : entry :=
  Dir (py "/root/proj/metagpt")
    [File (py "/root/proj/metagpt/foo.py");
     Dir (py "/root/proj/metagpt/sub")
       [File (py "/root/proj/metagpt/sub/bar.py")]].

Definition sample_view (package_ : string) : DotClassInfo :=
  mk_DotClassInfo (py "Bar") (Some (py package_)) [] [] [] [].

Definition sample_edge (src_ dest_ : string) : DotClassRelationship :=
  mk_DotClassRelationship (py src_) (py dest_) (py "Generalize") None.

Definition sample_views : list DotClassInfo :=
  [sample_view "metagpt.foo.Bar"].
Definition sample_edges : list DotClassRelationship :=
  [sample_edge "metagpt.foo.Bar" "metagpt.sub.bar.Baz"].

Definition sample_views_once : list DotClassInfo :=
  [sample_view "metagpt/foo.py:Bar"].
Definition sample_edges_once : list DotClassRelationship :=
  [sample_edge "metagpt/foo.py:Bar" "metagpt/sub/bar.py:Baz"].

Definition sample_views_twice : list DotClassInfo :=
  [sample_view "metagpt:metagpt/foo:py:Bar"].
Definition sample_edges_twice : list DotClassRelationship :=
  [sample_edge "metagpt:metagpt/foo:py:Bar"
     "metagpt:metagpt/sub/bar:py:Baz"].

Definition sample_root_path : str := py "/root/proj/".

(** A repository of three files, of which [bad.py] does not parse. *)
Definition sample_rglob (pattern : str) : list str :=
  if str_eqb pattern (py "*.py") then [py "a.py"; py "bad.py"; py "b.py"]
  else [].

Definition sample_rglob_without (pattern : str) : list str :=
  if str_eqb pattern (py "*.py") then [py "a.py"; py "b.py"] else [].

Definition sample_read_text (p : str) : result str :=
  if str_eqb p (py "a.py") then Ok (py "x = 1")
  else if str_eqb p (py "b.py") then Ok (py "def f(): pass")
  else Ok (py "def (").

Definition sample_ast_parse (text : str) : result (list stmt) :=
  if str_eqb text (py "x = 1") then Ok [Stmt 1 1 (Assign [Name (py "x")])]
  else if str_eqb text (py "def f(): pass")
  then Ok [Stmt 1 1 (FunctionDef (py "f"))]
  else Raise SyntaxError.

(** * Properties *)

(** ** Strings and indices *)

Lemma find_from_bounds (sub s : str) (i : Z) :
  find_from sub s i = -1 \/ i <= find_from sub s i <= i + len s.
Proof.
  revert i; induction s as [|c s IH]; intros i; cbn [find_from].
  - destruct (startswith [] sub); [right; unfold len; cbn; lia | now left].
  - destruct (startswith (c :: s) sub).
    + right; unfold len; cbn [List.length]; lia.
    + destruct (IH (i + 1)) as [H|H]; [now left|right].
      unfold len in *; cbn [List.length]; lia.
Qed.

Lemma find_lower (s sub : str) : -1 <= find s sub.
Proof.
  unfold find; destruct (find_from_bounds sub s 0); lia.
Qed.

Lemma rfind_from_bounds (sub s : str) (i : Z) :
  0 <= i -> rfind_from sub s i = -1 \/ i <= rfind_from sub s i <= i + len s.
Proof.
  revert i; induction s as [|c s IH]; intros i Hi; cbn [rfind_from].
  - destruct (startswith [] sub); [right; unfold len; cbn; lia | now left].
  - destruct (IH (i + 1) ltac:(lia)) as [H|H].
    + rewrite H; cbn [Z.leb Z.compare].
      destruct (startswith (c :: s) sub);
        [right; unfold len; cbn [List.length]; lia | now left].
    + destruct (0 <=? rfind_from sub s (i + 1)) eqn:E.
      * right; unfold len in *; cbn [List.length]; lia.
      * apply Z.leb_gt in E; lia.
Qed.

Lemma In_range (lo hi i : Z) : In i (range lo hi) -> lo <= i < hi.
Proof.
  unfold range; intros H; apply in_map_iff in H as (k & <- & Hk).
  apply in_seq in Hk; lia.
Qed.

Lemma getitem_ok (s : str) (i : Z) :
  0 <= i < len s -> exists c, getitem s i = Ok c.
Proof.
  intros H; unfold getitem.
  destruct (i <? 0) eqn:E1; [apply Z.ltb_lt in E1; lia|].
  rewrite E1; simpl.
  destruct (len s <=? i) eqn:E2; [apply Z.leb_le in E2; lia|].
  destruct (nth_error s (Z.to_nat i)) eqn:E3; [eauto|].
  apply nth_error_None in E3; unfold len in H; lia.
Qed.

(** ** The descriptor parsers never raise *)

Lemma split_literal_loop_ok (v : str) (idxs : list Z) :
  (forall i, In i idxs -> 0 <= i < len v) ->
  forall counter eix, exists e,
    DotClassAttribute.split_literal_loop v idxs counter eix = Ok e.
Proof.
  induction idxs as [|i rest IH]; intros Hin counter eix; simpl; [eauto|].
  destruct (getitem_ok v i) as [c ->]; [apply Hin; now left|]; simpl.
  assert (Hrest : forall j, In j rest -> 0 <= j < len v)
    by (intros; apply Hin; now right).
  destruct (chr_eqb c c_lbracket); [now apply IH|].
  destruct (chr_eqb c c_rbracket); [|now apply IH].
  destruct (0 <? counter - 1); [now apply IH | eauto].
Qed.

Lemma _split_literal_ok (v : str) :
  exists r, DotClassAttribute._split_literal v = Ok r.
Proof.
  unfold DotClassAttribute._split_literal.
  set (tag := py "Literal[").
  destruct (split_literal_loop_ok v (range (find v tag + len tag) (len v - 1)))
    with (counter := 1) (eix := len v - 1) as [e ->]; [|simpl; eauto].
  intros i Hi; apply In_range in Hi.
  pose proof (find_lower v tag).
  assert (len tag = 8) by reflexivity; lia.
Qed.

Lemma attribute_parse_ok (set_order : pyset -> list str) (v : str) :
  exists a, DotClassAttribute.parse set_order v = Ok a
            /\ DotClassAttribute.description a = v.
Proof.
  unfold DotClassAttribute.parse.
  destruct (fold_left DotClassAttribute.scan_step v ([], false, false))
    as [[val mc] me].
  match goal with
  | |- context [contains ?t (py "Literal[")] =>
      destruct (contains t (py "Literal["))
  end.
  - match goal with
    | |- context [DotClassAttribute._split_literal ?t] =>
        destruct (_split_literal_ok t) as [[[pre lit] post] ->]
    end.
    simpl; eauto.
  - simpl; eauto.
Qed.

Lemma mapM_ok {A B} (f : A -> result B) (l : list A) :
  (forall x, exists y, f x = Ok y) ->
  exists ys, mapM f l = Ok ys.
Proof.
  intros Hf; induction l as [|x l [ys IH]]; simpl; [eauto|].
  destruct (Hf x) as [y ->]; simpl; rewrite IH; simpl; eauto.
Qed.

Lemma parse_args_loop_ok (v : str) (idxs : list Z) :
  (forall i, In i idxs -> 0 <= i < len v) ->
  forall parts bix counter, exists r,
    DotClassMethod.parse_args_loop v idxs parts bix counter = Ok r.
Proof.
  induction idxs as [|i rest IH]; intros Hin parts bix counter; simpl;
    [eauto|].
  destruct (getitem_ok v i) as [c ->]; [apply Hin; now left|]; simpl.
  assert (Hrest : forall j, In j rest -> 0 <= j < len v)
    by (intros; apply Hin; now right).
  destruct (chr_eqb c c_lbracket); [now apply IH|].
  destruct (chr_eqb c c_rbracket); [now apply IH|].
  destruct (chr_eqb c c_comma && (counter =? 0)); now apply IH.
Qed.

Lemma _parse_args_ok (set_order : pyset -> list str) (v : str) :
  exists args, DotClassMethod._parse_args set_order v = Ok args.
Proof.
  unfold DotClassMethod._parse_args.
  destruct (str_eqb v []); [eauto|].
  destruct (parse_args_loop_ok v (range 0 (len v))) with
    (parts := @nil str) (bix := 0) (counter := 0) as [[parts bix] ->].
  - intros i Hi; now apply In_range in Hi.
  - simpl; apply mapM_ok; intros x.
    destruct (attribute_parse_ok set_order x) as (a & -> & _); eauto.
Qed.

Lemma method_parse_ok (set_order : pyset -> list str) (v : str) :
  exists m, DotClassMethod.parse set_order v = Ok m
            /\ DotClassMethod.description m = v
            /\ exists r, DotClassMethod.return_args m = Some r.
Proof.
  unfold DotClassMethod.parse.
  match goal with
  | |- context [DotClassMethod._parse_args set_order ?t] =>
      destruct (_parse_args_ok set_order t) as [args ->]
  end.
  cbn [bind]; eexists; split; [reflexivity|]; split; [reflexivity|].
  cbn; eauto.
Qed.

(** C1: for every input string, [DotClassAttribute.parse] and
    [DotClassMethod.parse] return a descriptor and never raise (no index
    of their scanning loops is out of range); the name, type and default
    fields of the descriptors are strings by their type, and the method
    descriptor always carries a return descriptor. *)
Theorem descriptor_parsers_total :
  forall (set_order : pyset -> list str) (v : str),
    (exists a, DotClassAttribute.parse set_order v = Ok a)
    /\ (exists m r, DotClassMethod.parse set_order v = Ok m
                    /\ DotClassMethod.return_args m = Some r).
Proof.
  intros set_order v; split.
  - destruct (attribute_parse_ok set_order v) as (a & H & _); eauto.
  - destruct (method_parse_ok set_order v) as (m & H & _ & r & Hr); eauto.
Qed.

(** C9: for every input string, the descriptors returned by
    [DotClassAttribute.parse], [DotClassMethod.parse] and [DotReturn.parse]
    keep the unmodified input in their [description] field. *)
Theorem description_is_input :
  forall (set_order : pyset -> list str) (v : str),
    (exists a, DotClassAttribute.parse set_order v = Ok a
               /\ DotClassAttribute.description a = v)
    /\ (exists m, DotClassMethod.parse set_order v = Ok m
                  /\ DotClassMethod.description m = v)
    /\ DotReturn.description (DotReturn.parse set_order v) = v.
Proof.
  intros set_order v; repeat split.
  - apply attribute_parse_ok.
  - destruct (method_parse_ok set_order v) as (m & H & Hd & _); eauto.
  - unfold DotReturn.parse; destruct (str_eqb v []); reflexivity.
Qed.

(** ** Enumeration orders of small sets *)

Lemma set_order_nil (set_order : pyset -> list str) :
  set_order_ok set_order -> set_order [] = [].
Proof. intros H; apply Permutation_nil, Permutation_sym, H. Qed.

Lemma set_order_one (set_order : pyset -> list str) (x : str) :
  set_order_ok set_order -> set_order [x] = [x].
Proof. intros H; apply Permutation_length_1_inv, Permutation_sym, H. Qed.

Lemma insertion_order_ok : set_order_ok insertion_order.
Proof. intros s; apply Permutation_refl. Qed.

(** Evaluates a parser equation [H] in which the enumeration order is a
    variable: the sets it is applied to are empty or singletons. *)
Ltac eval_parse H H0 H1 :=
  vm_compute in H;
  repeat (progress (rewrite ?H0, ?H1 in H); vm_compute in H).

(** C7: on [f(a: int, b: List[int]) : Dict[str, Foo]] the method parser
    yields exactly the two parameters [a: int] and [b: List[int]] (the
    comma inside the brackets is no split point), a return descriptor
    whose compositions are [Foo], and the aggregations [Foo]. *)
Theorem method_parse_example :
  forall set_order : pyset -> list str,
    set_order_ok set_order ->
    exists m r,
      DotClassMethod.parse set_order
        (py "f(a: int, b: List[int]) : Dict[str, Foo]") = Ok m
      /\ List.length (DotClassMethod.args m) = 2%nat
      /\ map DotClassAttribute.name (DotClassMethod.args m) = [py "a"; py "b"]
      /\ map DotClassAttribute.type_ (DotClassMethod.args m)
         = [py "int"; py "List[int]"]
      /\ DotClassMethod.return_args m = Some r
      /\ DotReturn.compositions r = [py "Foo"]
      /\ DotClassMethod.aggregations m = [py "Foo"].
Proof.
  intros so H.
  pose proof (set_order_nil so H) as H0.
  pose proof (set_order_one so (py "Foo") H) as H1; vm_compute in H1.
  destruct (method_parse_ok so
              (py "f(a: int, b: List[int]) : Dict[str, Foo]"))
    as (m & Hm & _ & r & Hr).
  exists m, r; split; [exact Hm|].
  eval_parse Hm H0 H1; injection Hm as Hm; subst m.
  vm_compute in Hr; injection Hr as <-.
  vm_compute; repeat split.
Qed.

Lemma method_parse_example_witness :
  exists m r,
    DotClassMethod.parse insertion_order
      (py "f(a: int, b: List[int]) : Dict[str, Foo]") = Ok m
    /\ List.length (DotClassMethod.args m) = 2%nat
    /\ map DotClassAttribute.name (DotClassMethod.args m) = [py "a"; py "b"]
    /\ map DotClassAttribute.type_ (DotClassMethod.args m)
       = [py "int"; py "List[int]"]
    /\ DotClassMethod.return_args m = Some r
    /\ DotReturn.compositions r = [py "Foo"]
    /\ DotClassMethod.aggregations m = [py "Foo"].
Proof.
  apply (method_parse_example insertion_order).
  intros s; apply Permutation_refl.
Defined.

(** C8: on [mode: Literal['a','b']] the attribute parser yields no
    compositions, and the stored type keeps the whole literal form with
    its quoted values. *)
Theorem attribute_literal_example :
  forall set_order : pyset -> list str,
    set_order_ok set_order ->
    exists a,
      DotClassAttribute.parse set_order (py "mode: Literal['a','b']") = Ok a
      /\ DotClassAttribute.compositions a = []
      /\ DotClassAttribute.type_ a = py "Literal['a','b']"
      /\ DotClassAttribute._split_literal (py "Literal['a','b']")
         = Ok ([], py "Literal['a','b']", []).
Proof.
  intros so H.
  pose proof (set_order_nil so H) as H0.
  destruct (attribute_parse_ok so (py "mode: Literal['a','b']"))
    as (a & Ha & _).
  exists a; split; [exact Ha|].
  eval_parse Ha H0 H0; injection Ha as Ha; subst a.
  vm_compute; repeat split.
Qed.

Lemma attribute_literal_example_witness :
  exists a,
    DotClassAttribute.parse insertion_order (py "mode: Literal['a','b']")
    = Ok a
    /\ DotClassAttribute.compositions a = []
    /\ DotClassAttribute.type_ a = py "Literal['a','b']"
    /\ DotClassAttribute._split_literal (py "Literal['a','b']")
       = Ok ([], py "Literal['a','b']", []).
Proof.
  apply (attribute_literal_example insertion_order).
  intros s; apply Permutation_refl.
Defined.

(** C3: [DotClassMethod] has no sorting validator, so the aggregations
    come in the enumeration order of the set.  On [f(a: Foo, b: Bar)],
    under the enumeration order that follows insertion, they are
    [Foo; Bar], which is not sorted. *)
Theorem method_aggregations_unsorted :
  exists set_order : pyset -> list str,
    set_order_ok set_order
    /\ exists m,
         DotClassMethod.parse set_order (py "f(a: Foo, b: Bar)") = Ok m
         /\ DotClassMethod.aggregations m = [py "Foo"; py "Bar"]
         /\ sort (DotClassMethod.aggregations m) = [py "Bar"; py "Foo"]
         /\ sort (DotClassMethod.aggregations m)
            <> DotClassMethod.aggregations m.
Proof.
  exists insertion_order; split; [exact insertion_order_ok|].
  eexists; split; [vm_compute; reflexivity|].
  vm_compute; repeat split; discriminate.
Qed.

(** C10: a line that [_split_class_line] recognises as a class line but
    whose label has a single section makes [_parse_classes] raise
    [ValueError] instead of skipping the line; and whatever the label,
    it has exactly three sections or the class is not built. *)
Theorem parse_classes_raises_on_short_label :
  (exists line : str,
     Ingest._split_class_line line = Some (py "pkg.A", py "A")
     /\ List.length (Ingest.split_sections (py "A")) <> 3%nat
     /\ forall set_order : pyset -> list str,
          Ingest._parse_classes set_order (Some line) = Raise ValueError)
  /\ forall (set_order : pyset -> list str) (package_name info : str),
       List.length (Ingest.split_sections info) = 3%nat
       \/ Ingest.parse_class set_order package_name info = Raise ValueError.
Proof.
  split.
  - exists ((c_dquote :: py "pkg.A")
              ++ c_dquote
                 :: py " [color=black, label=<{A}>, shape=record];").
    split; [vm_compute; reflexivity|].
    split; [vm_compute; discriminate|].
    intros so; vm_compute; reflexivity.
  - intros so package_name info; unfold Ingest.parse_class.
    destruct (Ingest.split_sections info) as [|a [|b [|c [|d l]]]];
      auto.
Qed.

(** ** Compositions and aggregations of a class node *)

Lemma mem_In (x : str) (l : list str) : mem x l = true <-> In x l.
Proof.
  unfold mem; destruct (in_dec str_eq_dec x l); split; intros; auto;
    discriminate.
Qed.

Lemma add_aggregations_In (compositions new lst : list str) (x : str) :
  In x (Ingest.add_aggregations compositions lst new) ->
  In x lst \/ (In x new /\ ~ In x compositions).
Proof.
  unfold Ingest.add_aggregations; revert lst.
  induction new as [|i new IH]; intros lst H; cbn [fold_left] in H;
    [now left|].
  apply IH in H as [H|[H1 H2]]; [|right; split; [now right|assumption]].
  destruct (mem i compositions) eqn:Ec; cbn [orb] in H; [now left|].
  destruct (mem i lst); [now left|].
  apply in_app_or in H as [H|[<-|[]]]; [now left|right].
  split; [now left|].
  intros Hin; apply mem_In in Hin; congruence.
Qed.

Lemma add_compositions_incl (new lst : list str) :
  incl lst (Ingest.add_compositions lst new)
  /\ incl new (Ingest.add_compositions lst new).
Proof.
  unfold Ingest.add_compositions; revert lst.
  induction new as [|i new IH]; intros lst; cbn [fold_left].
  - split; [apply incl_refl | intros x []].
  - destruct (IH (if mem i lst then lst else lst ++ [i])) as [H1 H2].
    split.
    + intros x Hx; apply H1.
      destruct (mem i lst); [assumption | apply in_or_app; now left].
    + intros x [Hx|Hx]; [subst x|now apply H2].
      apply H1; destruct (mem i lst) eqn:E;
        [now apply mem_In | apply in_or_app; right; now left].
Qed.

Lemma dict_set_In {V} (d : dict V) (k : str) (v : V) (kv : str * V) :
  In kv (dict_set d k v) -> snd kv = v \/ In kv d.
Proof.
  induction d as [|[k' v'] d IH]; cbn [dict_set]; intros H.
  - destruct H as [<-|[]]; now left.
  - destruct (str_eqb k k').
    + destruct H as [<-|H]; [now left | right; now right].
    + destruct H as [<-|H]; [right; now left|].
      apply IH in H as [H|H]; [now left | right; now right].
Qed.

Lemma parse_members_ok (set_order : pyset -> list str) (ms : list str) :
  forall c c',
    Ingest.parse_members set_order ms c = Ok c' ->
    ci_aggregations c = [] -> class_ok c ->
    ci_aggregations c' = [] /\ class_ok c'.
Proof.
  induction ms as [|m ms IH]; intros c c' H Hagg Hok;
    cbn [Ingest.parse_members] in H.
  - injection H as <-; now split.
  - destruct (str_eqb m []); [now apply (IH c)|].
    destruct (DotClassAttribute.parse set_order m) as [attr|e];
      cbn [bind] in H; [|discriminate].
    apply IH in H; [assumption | assumption |].
    cbn [ci_aggregations ci_compositions attributes].
    destruct (add_compositions_incl (DotClassAttribute.compositions attr)
                (ci_compositions c)) as [H1 H2].
    split.
    + rewrite Hagg; intros x [].
    + intros kv x Hkv Hx; apply dict_set_In in Hkv as [Hkv|Hkv].
      * rewrite Hkv in Hx; now apply H2.
      * apply H1; destruct Hok as [_ Hok]; now apply (Hok kv).
Qed.

Lemma parse_functions_ok (set_order : pyset -> list str) (fs : list str) :
  forall c c',
    Ingest.parse_functions set_order fs c = Ok c' ->
    class_ok c -> class_ok c'.
Proof.
  induction fs as [|f fs IH]; intros c c' H Hok;
    cbn [Ingest.parse_functions] in H.
  - now injection H as <-.
  - destruct (str_eqb f []); [now apply (IH c)|].
    destruct (DotClassMethod.parse set_order f) as [method|e];
      cbn [bind] in H; [|discriminate].
    apply IH in H; [assumption|].
    destruct Hok as [Ha Hc]; split;
      cbn [ci_aggregations ci_compositions attributes].
    + intros x Hx; apply add_aggregations_In in Hx as [Hx|[_ Hx]];
        [now apply Ha | assumption].
    + exact Hc.
Qed.

Lemma parse_class_ok (set_order : pyset -> list str)
    (package_name info : str) (c : DotClassInfo) :
  Ingest.parse_class set_order package_name info = Ok c -> class_ok c.
Proof.
  unfold Ingest.parse_class.
  destruct (Ingest.split_sections info)
    as [|class_name [|members [|functions [|]]]]; try discriminate.
  cbn [ci_name attributes methods ci_compositions ci_aggregations].
  destruct (Ingest.parse_members _ _ _) as [c1|e] eqn:E1; cbn [bind];
    [|discriminate].
  intros H; apply parse_members_ok in E1 as [_ Hok1].
  - now apply parse_functions_ok in H.
  - reflexivity.
  - split; [intros x [] | intros kv x []].
Qed.

Lemma parse_class_lines_ok (set_order : pyset -> list str)
    (lines : list str) :
  forall acc views,
    Ingest.parse_class_lines set_order lines acc = Ok views ->
    Forall class_ok acc -> Forall class_ok views.
Proof.
  induction lines as [|line lines IH]; intros acc views H Hacc;
    cbn [Ingest.parse_class_lines] in H.
  - now injection H as <-.
  - destruct (Ingest._split_class_line line) as [[package_name info]|];
      [|now apply (IH acc)].
    destruct (str_eqb package_name []); [now apply (IH acc)|].
    destruct (Ingest.parse_class set_order package_name info) as [c|e] eqn:E;
      cbn [bind] in H; [|discriminate].
    apply IH in H; [assumption|].
    apply Forall_app; split; [assumption|].
    constructor; [now apply parse_class_ok in E | constructor].
Qed.

(** C4: in every class node that [_parse_classes] produces, the
    compositions and the aggregations are disjoint, and no type name in
    the compositions of an attribute of the class is among its
    aggregations. *)
Theorem parse_classes_disjoint :
  forall (set_order : pyset -> list str) (data : option str)
         (views : list DotClassInfo) (c : DotClassInfo),
    Ingest._parse_classes set_order data = Ok views ->
    In c views ->
    (forall x, In x (ci_compositions c) -> ~ In x (ci_aggregations c))
    /\ (forall name attr x,
          In (name, attr) (attributes c) ->
          In x (DotClassAttribute.compositions attr) ->
          ~ In x (ci_aggregations c)).
Proof.
  intros so data views c H Hin.
  assert (Hok : Forall class_ok views).
  { destruct data as [data|]; cbn [Ingest._parse_classes] in H.
    - now apply parse_class_lines_ok in H.
    - injection H as <-; constructor. }
  rewrite Forall_forall in Hok; destruct (Hok c Hin) as [Ha Hc].
  split.
  - intros x Hx Hagg; now apply (Ha x).
  - intros name attr x Hkv Hx Hagg.
    apply (Ha x Hagg), (Hc (name, attr) x Hkv Hx).
Qed.

Lemma parse_classes_disjoint_witness :
  Ingest._parse_classes insertion_order (Some sample_class_line)
  = Ok [sample_class]
  /\ ci_compositions sample_class = [py "Foo"]
  /\ ci_aggregations sample_class = [py "Bar"; py "Baz"]
  /\ (forall x, In x (ci_compositions sample_class) ->
                ~ In x (ci_aggregations sample_class))
  /\ (forall name attr x,
        In (name, attr) (attributes sample_class) ->
        In x (DotClassAttribute.compositions attr) ->
        ~ In x (ci_aggregations sample_class)).
Proof.
  split; [vm_compute; reflexivity|].
  split; [vm_compute; reflexivity|].
  split; [vm_compute; reflexivity|].
  apply (parse_classes_disjoint insertion_order (Some sample_class_line)
           [sample_class] sample_class).
  - vm_compute; reflexivity.
  - now left.
Defined.

(** ** Symbol extraction: when it raises *)

Lemma node_to_str_raises (node : stmt) :
  raises node = true ->
  exists w, RepoParser.node_to_str node = (Raise NotImplementedError, w).
Proof.
  destruct node as [l e n]; unfold raises, RepoParser.node_to_str;
    cbn [node_of].
  destruct n as [| | |target| | | | |v| |]; try discriminate.
  - destruct (RepoParser._parse_variable target) as [val w]; cbn [fst].
    destruct val; try discriminate; eauto.
  - destruct v; try discriminate; cbn; eauto.
Qed.

Lemma node_to_str_returns (node : stmt) :
  raises node = false ->
  exists info w, RepoParser.node_to_str node = (Ok info, w).
Proof.
  destruct node as [l e n]; unfold raises, RepoParser.node_to_str;
    cbn [node_of].
  destruct n as [| |targets|target| | | |test|v| |]; eauto.
  - destruct (RepoParser._parse_assign targets); eauto.
  - destruct (RepoParser._parse_variable target) as [val w]; cbn [fst].
    destruct val; try discriminate; eauto.
  - destruct (RepoParser._parse_if test); eauto.
  - destruct v; try discriminate; intros _;
      unfold RepoParser._parse_expr;
      match goal with
      | |- context [RepoParser._parse_variable ?x] =>
          destruct (RepoParser._parse_variable x)
      end; eauto.
Qed.

Lemma extract_loop_outcome (tree : list stmt) :
  forall file_info,
    if existsb raises tree
    then exists w,
           RepoParser.extract_loop tree file_info
           = (Raise NotImplementedError, w)
    else exists fi w, RepoParser.extract_loop tree file_info = (Ok fi, w).
Proof.
  induction tree as [|node tree IH]; intros file_info;
    cbn [existsb RepoParser.extract_loop]; [eauto|].
  unfold RepoParser.extract_step.
  destruct (raises node) eqn:E; cbn [orb].
  - destruct (node_to_str_raises node E) as [w ->]; eauto.
  - destruct (node_to_str_returns node E) as (info & w & ->).
    match goal with
    | |- context [RepoParser.extract_loop tree ?fi] =>
        specialize (IH fi); destruct (RepoParser.extract_loop tree fi)
          as [r w']
    end.
    destruct (existsb raises tree).
    + destruct IH as [w0 IH]; injection IH as -> ->; eauto.
    + destruct IH as (fi & w0 & IH); injection IH as -> ->; eauto.
Qed.

(** C2, as the code has it: on every top-level statement [node_to_str]
    returns a block, or returns nothing (silently on a [Try], with an
    [Unsupported code block] warning on a statement kind it has no
    handler for), or raises [NotImplementedError]; it raises exactly on
    an expression statement whose value is neither a constant nor a
    call and on an annotated assignment whose target does not resolve to
    a string, and the extraction of a file raises exactly when one of
    its statements does. *)
Theorem node_to_str_outcome :
  forall node : stmt,
    (match node_of node with
     | Try => RepoParser.node_to_str node = (Ok None, [])
     | OtherStmt _ =>
         RepoParser.node_to_str node
         = (Ok None,
            [UnsupportedCodeBlock (lineno node) (end_lineno node)
               (any_to_str node)])
     | _ =>
         if raises node
         then exists w,
                RepoParser.node_to_str node = (Raise NotImplementedError, w)
         else exists block w,
                RepoParser.node_to_str node = (Ok (Some block), w)
     end)
    /\ forall (tree : list stmt) (file_info : RepoFileInfo),
         if existsb raises tree
         then exists w,
                RepoParser.extract_loop tree file_info
                = (Raise NotImplementedError, w)
         else exists fi w,
                RepoParser.extract_loop tree file_info = (Ok fi, w).
Proof.
  intros node; split; [|intros tree fi; apply extract_loop_outcome].
  destruct (raises node) eqn:E.
  - destruct (node_to_str_raises node E) as [w Hw].
    destruct node as [l e n]; cbn [node_of] in *.
    destruct n; try discriminate; eauto.
  - destruct node as [l e n]; unfold raises in E; cbn [node_of] in *.
    unfold RepoParser.node_to_str; cbn [node_of].
    destruct n as [| |targets|target| | | |test|v| |]; eauto.
    + destruct (RepoParser._parse_assign targets); eauto.
    + destruct (RepoParser._parse_variable target) as [val w];
        cbn [fst] in E.
      destruct val; try discriminate; eauto.
    + destruct (RepoParser._parse_if test); eauto.
    + destruct v; try discriminate;
        unfold RepoParser._parse_expr;
        match goal with
        | |- context [RepoParser._parse_variable ?x] =>
            destruct (RepoParser._parse_variable x)
        end; eauto.
Qed.

(** C2, as stated, fails: the expression statement [x] is a statement
    whose expression shape [_parse_expr] does not recognise, and both
    [node_to_str] and the extraction loop raise on it. *)
Lemma node_to_str_raises_on_name :
  RepoParser.node_to_str (Stmt 1 1 (Expr (Name (py "x"))))
  = (Raise NotImplementedError, [])
  /\ RepoParser.extract_loop [Stmt 1 1 (Expr (Name (py "x")))]
       (mk_RepoFileInfo (py "a.py") [] [] [] [])
     = (Raise NotImplementedError, []).
Proof. split; reflexivity. Qed.

(** ** One unparsable file in a run *)

Section BadFile.

Variable path : Type.
Variable relative_to_base : path -> str.
Variable read_text : path -> result str.
Variable ast_parse : str -> result (list stmt).

Let parse_file := RepoParser._parse_file path read_text ast_parse.
Let extract := RepoParser.extract_class_and_function_info path relative_to_base.
Let symbols_of :=
  RepoParser.symbols_of path relative_to_base read_text ast_parse.
Let empty_info := RepoParser.empty_info path relative_to_base.

Lemma symbols_of_cons (p : path) (rest : list path)
    (acc : list RepoFileInfo) :
  fst (symbols_of (p :: rest) acc)
  = match fst (extract (fst (parse_file p)) p) with
    | Ok file_info => fst (symbols_of rest (acc ++ [file_info]))
    | Raise e => Raise e
    end.
Proof.
  unfold symbols_of, extract, parse_file; cbn [RepoParser.symbols_of].
  destruct (RepoParser._parse_file path read_text ast_parse p) as [tree w0].
  cbn [fst].
  destruct (RepoParser.extract_class_and_function_info _ _ tree p)
    as [[fi|e] w]; cbn [fst]; [|reflexivity].
  now destruct (RepoParser.symbols_of _ _ _ _ rest (acc ++ [fi])).
Qed.

Lemma symbols_of_acc (files : list path) :
  forall acc,
    fst (symbols_of files acc)
    = match fst (symbols_of files []) with
      | Ok infos => Ok (acc ++ infos)
      | Raise e => Raise e
      end.
Proof.
  induction files as [|p rest IH]; intros acc.
  - cbn; now rewrite app_nil_r.
  - rewrite !symbols_of_cons.
    destruct (fst (extract (fst (parse_file p)) p)) as [fi|e]; [|reflexivity].
    rewrite (IH (acc ++ [fi])), (IH ([] ++ [fi])).
    destruct (fst (symbols_of rest [])); [|reflexivity].
    now rewrite <- app_assoc.
Qed.

Lemma symbols_of_app (before after : list path) :
  fst (symbols_of (before ++ after) [])
  = match fst (symbols_of before []) with
    | Ok infos1 =>
        match fst (symbols_of after []) with
        | Ok infos2 => Ok (infos1 ++ infos2)
        | Raise e => Raise e
        end
    | Raise e => Raise e
    end.
Proof.
  induction before as [|p rest IH]; cbn [app].
  - cbn; now destruct (fst (symbols_of after [])).
  - rewrite !symbols_of_cons.
    destruct (fst (extract (fst (parse_file p)) p)) as [fi|e]; [|reflexivity].
    rewrite (symbols_of_acc (rest ++ after)), (symbols_of_acc rest), IH.
    destruct (fst (symbols_of rest [])); [|reflexivity].
    destruct (fst (symbols_of after [])); [|reflexivity].
    now rewrite app_assoc.
Qed.

Lemma symbols_of_length (files : list path) :
  forall infos,
    fst (symbols_of files []) = Ok infos ->
    List.length infos = List.length files.
Proof.
  induction files as [|p rest IH]; intros infos H.
  - cbn in H; now injection H as <-.
  - rewrite symbols_of_cons in H.
    destruct (fst (extract (fst (parse_file p)) p)) as [fi|e];
      [|discriminate].
    rewrite symbols_of_acc in H.
    destruct (fst (symbols_of rest [])) as [infos'|]; [|discriminate].
    injection H as <-; cbn; now rewrite (IH infos').
Qed.

Lemma parse_file_bad (bad : path) (e : exn) :
  (text <- read_text bad ;; ast_parse text) = Raise e ->
  fst (parse_file bad) = []
  /\ fst (extract (fst (parse_file bad)) bad) = Ok (empty_info bad).
Proof.
  intros H; unfold parse_file, RepoParser._parse_file.
  rewrite H; split; reflexivity.
Qed.

Variable rglob : str -> list path.
Variable rglob_without : str -> list path.

(** C6: a file whose text cannot be parsed gets an empty statement list
    from [_parse_file] and so an empty record with its path alone; the
    run over the files with it yields, for every other file, the record
    that the run over the files without it yields (and raises when that
    one does). *)
Theorem bad_file_is_contained :
  forall (bad : path) (before after : list path) (e : exn),
    (text <- read_text bad ;; ast_parse text) = Raise e ->
    flat_map rglob [py "*.py"; py "*.js"] = before ++ bad :: after ->
    flat_map rglob_without [py "*.py"; py "*.js"] = before ++ after ->
    fst (RepoParser._parse_file path read_text ast_parse bad) = []
    /\ fst (RepoParser.extract_class_and_function_info path relative_to_base
              (fst (RepoParser._parse_file path read_text ast_parse bad))
              bad)
       = Ok (empty_info bad)
    /\ match
         fst (RepoParser.generate_symbols path rglob_without
                relative_to_base read_text ast_parse)
       with
       | Ok infos =>
           exists infos1 infos2,
             infos = infos1 ++ infos2
             /\ List.length infos1 = List.length before
             /\ fst (RepoParser.generate_symbols path rglob
                       relative_to_base read_text ast_parse)
                = Ok (infos1 ++ empty_info bad :: infos2)
       | Raise e' =>
           fst (RepoParser.generate_symbols path rglob relative_to_base
                  read_text ast_parse)
           = Raise e'
       end.
Proof.
  intros bad before after e Hbad Hwith Hwithout.
  destruct (parse_file_bad bad e Hbad) as [H1 H2].
  split; [exact H1|]; split; [exact H2|].
  unfold RepoParser.generate_symbols; rewrite Hwith, Hwithout.
  fold symbols_of; rewrite !symbols_of_app, symbols_of_cons, H2.
  rewrite (symbols_of_acc after ([] ++ [empty_info bad])).
  destruct (fst (symbols_of before [])) as [infos1|e1] eqn:E1;
    [|reflexivity].
  destruct (fst (symbols_of after [])) as [infos2|e2]; [|reflexivity].
  exists infos1, infos2; split; [reflexivity|].
  split; [now apply symbols_of_length | reflexivity].
Qed.

End BadFile.

Lemma bad_file_is_contained_witness :
  (text <- sample_read_text (py "bad.py") ;; sample_ast_parse text)
  = Raise SyntaxError
  /\ fst (RepoParser._parse_file str sample_read_text sample_ast_parse
            (py "bad.py")) = []
  /\ fst (RepoParser.extract_class_and_function_info str (fun p => p)
            (fst (RepoParser._parse_file str sample_read_text
                    sample_ast_parse (py "bad.py")))
            (py "bad.py"))
     = Ok (RepoParser.empty_info str (fun p => p) (py "bad.py"))
  /\ match
       fst (RepoParser.generate_symbols str sample_rglob_without
              (fun p => p) sample_read_text sample_ast_parse)
     with
     | Ok infos =>
         exists infos1 infos2,
           infos = infos1 ++ infos2
           /\ List.length infos1 = List.length [py "a.py"]
           /\ fst (RepoParser.generate_symbols str sample_rglob
                     (fun p => p) sample_read_text sample_ast_parse)
              = Ok (infos1
                      ++ RepoParser.empty_info str (fun p => p) (py "bad.py")
                         :: infos2)
     | Raise e' =>
         fst (RepoParser.generate_symbols str sample_rglob (fun p => p)
                sample_read_text sample_ast_parse)
         = Raise e'
     end.
Proof.
  split; [reflexivity|].
  apply (bad_file_is_contained str (fun p => p) sample_read_text
           sample_ast_parse sample_rglob sample_rglob_without (py "bad.py")
           [py "a.py"] [py "b.py"] SyntaxError);
    reflexivity.
Defined.

(** ** Namespace reconciliation *)

Lemma startswith_nil (s : str) : startswith s [] = true.
Proof. now destruct s. Qed.

Lemma rfind_from_chr (c : ascii) (s : str) :
  forall k, 0 <= k ->
    rfind_from [c] s k = -1
    \/ (k <= rfind_from [c] s k < k + len s
        /\ nth_error s (Z.to_nat (rfind_from [c] s k - k)) = Some c).
Proof.
  induction s as [|x s IH]; intros k Hk; cbn [rfind_from]; [now left|].
  destruct (IH (k + 1) ltac:(lia)) as [H|[H1 H2]].
  - rewrite H; cbn [Z.leb Z.compare startswith].
    unfold chr_eqb; destruct (Ascii.eqb c x) eqn:E; cbn [andb]; [|now left].
    apply Ascii.eqb_eq in E; subst x; right.
    rewrite startswith_nil, Z.sub_diag; unfold len; cbn [List.length].
    split; [lia|].
    reflexivity.
  - destruct (0 <=? rfind_from [c] s (k + 1)) eqn:E;
      [|apply Z.leb_gt in E; lia].
    right; unfold len in *; cbn [List.length]; split; [lia|].
    replace (Z.to_nat (rfind_from [c] s (k + 1) - k))
      with (S (Z.to_nat (rfind_from [c] s (k + 1) - (k + 1)))) by lia.
    exact H2.
Qed.

Lemma rfind_chr (c : ascii) (s : str) :
  rfind s [c] = -1
  \/ (0 <= rfind s [c] < len s
      /\ nth_error s (Z.to_nat (rfind s [c])) = Some c).
Proof.
  unfold rfind; destruct (rfind_from_chr c s 0 ltac:(lia)) as [H|[H1 H2]];
    [now left|right].
  rewrite Z.sub_0_r in H2; split; [lia | assumption].
Qed.

Lemma slice_0 (s : str) (hi : Z) :
  slice s 0 hi = firstn (Z.to_nat (clamp (len s) hi)) s.
Proof.
  unfold slice; assert (H : clamp (len s) 0 = 0).
  { unfold clamp, len; cbn [Z.ltb Z.compare]; lia. }
  rewrite H, Z.sub_0_r; reflexivity.
Qed.

Lemma nth_error_firstn_Some {A} (l : list A) (k i : nat) (x : A) :
  nth_error (firstn k l) i = Some x -> nth_error l i = Some x.
Proof.
  revert k i; induction l as [|y l IH]; intros [|k] [|i]; cbn;
    try discriminate; auto.
  apply IH.
Qed.

(** The slice that the loop of [_repair_ns] keeps is strictly shorter. *)
Lemma repair_step_shorter (file_ns : str) :
  file_ns <> [] ->
  (List.length (slice file_ns 0 (rfind file_ns [c_dot]))
   < List.length file_ns)%nat.
Proof.
  intros Hne; rewrite slice_0, length_firstn.
  assert (0 < len file_ns)
    by (destruct file_ns; [congruence | unfold len; cbn [List.length]; lia]).
  unfold clamp; destruct (rfind_chr c_dot file_ns) as [H0|[H0 _]].
  - rewrite H0; cbn [Z.ltb Z.compare]; unfold len in *; lia.
  - destruct (rfind file_ns [c_dot] <? 0) eqn:E;
      [apply Z.ltb_lt in E; lia|].
    unfold len in *; lia.
Qed.

Lemma str_eqb_false (a b : str) : str_eqb a b = false -> a <> b.
Proof. unfold str_eqb; destruct (str_eq_dec a b); [discriminate|auto]. Qed.

(** The loop of [_repair_ns] ends before its fuel does. *)
Lemma repair_ns_loop_terminates (mappings : dict str) (fuel : nat) :
  forall file_ns ix,
    (List.length file_ns < fuel)%nat ->
    exists r, Reconcile.repair_ns_loop fuel file_ns ix mappings = Ok r.
Proof.
  induction fuel as [|fuel IH]; intros file_ns ix Hlt; [lia|].
  cbn [Reconcile.repair_ns_loop].
  destruct (str_eqb file_ns []) eqn:E; [eauto|].
  destruct (negb (dict_mem file_ns mappings)); [|eauto].
  apply IH; apply str_eqb_false in E.
  pose proof (repair_step_shorter file_ns E); lia.
Qed.

Lemma repair_ns_loop_ix (p : str) (mappings : dict str) (fuel : nat) :
  forall file_ns ix r,
    Reconcile.repair_ns_loop fuel file_ns ix mappings = Ok r ->
    (exists k, file_ns = firstn k p) -> ix_ok p ix -> ix_ok p (snd r).
Proof.
  induction fuel as [|fuel IH]; intros file_ns ix r H [k Hk] Hix;
    cbn [Reconcile.repair_ns_loop] in H; [discriminate|].
  destruct (str_eqb file_ns []); [now injection H as <-|].
  destruct (negb (dict_mem file_ns mappings)); [|now injection H as <-].
  apply IH in H; [assumption| |].
  - rewrite slice_0, Hk, firstn_firstn; eauto.
  - cbn [ix_ok]; destruct (rfind_chr c_dot file_ns) as [H0|[H0 H1]];
      [now left|right].
    split; [lia|]; subst file_ns; now apply nth_error_firstn_Some in H1.
Qed.

Lemma app_eq_tail {A} (a c b d : list A) :
  a ++ b = c ++ d -> List.length b = List.length d -> b = d.
Proof.
  revert c; induction a as [|x a IH]; intros [|y c] H Hlen; cbn in H.
  - assumption.
  - apply (f_equal (@List.length A)) in H; cbn in H.
    rewrite length_app in H; lia.
  - apply (f_equal (@List.length A)) in H; cbn in H.
    rewrite length_app in H; lia.
  - injection H as _ H; now apply (IH c).
Qed.

Lemma skipn_after {A} (l1 l2 : list A) (x : A) :
  skipn (S (List.length l1)) (l1 ++ x :: l2) = l2.
Proof. induction l1 as [|y l1 IH]; [reflexivity | exact IH]. Qed.

(** [_repair_ns] never returns the package it was given: its result
    puts a colon where the package has a dot, or is longer. *)
Lemma repair_ns_changes (p : str) (mappings : dict str) (ns : str) :
  Reconcile._repair_ns (Some p) mappings = Ok ns -> ns <> p.
Proof.
  unfold Reconcile._repair_ns.
  destruct (Reconcile.repair_ns_loop _ p None mappings) as [[f ix]|e] eqn:E;
    cbn [bind]; [|discriminate].
  apply (repair_ns_loop_ix p) in E;
    [|exists (List.length p); now rewrite firstn_all | exact I].
  cbn [snd] in E; destruct ix as [i|]; [|discriminate].
  destruct (dict_get mappings f) as [fp|]; [|discriminate].
  intros H; injection H as <-; intros Heq.
  destruct E as [->|[Hi Hnth]].
  - apply (f_equal (@List.length ascii)) in Heq.
    unfold slice_from, clamp, replace_chr in Heq; cbn in Heq.
    replace (Z.to_nat (Z.min 0 (len p))) with 0%nat in Heq
      by (unfold len; lia).
    cbn [skipn] in Heq.
    rewrite !length_app, length_map in Heq; cbn in Heq; lia.
  - assert (Hlt : (Z.to_nat i < List.length p)%nat)
      by (apply nth_error_Some; congruence).
    apply nth_error_split in Hnth as (l1 & l2 & Hp & Hl1).
    assert (Hint : slice_from p (i + 1) = l2).
    { unfold slice_from, clamp, len.
      destruct (i + 1 <? 0) eqn:E1; [apply Z.ltb_lt in E1; lia|].
      replace (Z.to_nat (Z.min (i + 1) (Z.of_nat (List.length p))))
        with (S (List.length l1)) by lia.
      rewrite Hp; apply skipn_after. }
    rewrite Hint, <- app_assoc in Heq; rewrite Hp in Heq.
    apply app_eq_tail in Heq.
    + cbn in Heq; discriminate.
    + unfold replace_chr; cbn; now rewrite length_map.
Qed.

Lemma mapM_Forall2 {A B} (f : A -> result B) (R : A -> B -> Prop)
    (l : list A) :
  (forall x y, f x = Ok y -> R x y) ->
  forall l', mapM f l = Ok l' -> Forall2 R l l'.
Proof.
  intros Hf; induction l as [|x l IH]; intros l' H;
    cbn [mapM] in H.
  - injection H as <-; constructor.
  - destruct (f x) as [y|] eqn:E; cbn [bind] in H; [|discriminate].
    destruct (mapM f l) as [ys|]; cbn [bind] in H;
      [|discriminate].
    injection H as <-; constructor; auto.
Qed.

Lemma repair_class_changes (mappings : dict str) (c c' : DotClassInfo) :
  Reconcile.repair_class mappings c = Ok c' -> package c' <> package c.
Proof.
  unfold Reconcile.repair_class.
  destruct (Reconcile._repair_ns (package c) mappings) as [ns|] eqn:E;
    cbn [bind]; [|discriminate].
  intros H; injection H as <-; cbn [package].
  destruct (package c) as [p|]; [|discriminate].
  apply repair_ns_changes in E; congruence.
Qed.

Lemma repair_relationship_changes (mappings : dict str)
    (v v' : DotClassRelationship) :
  Reconcile.repair_relationship mappings v = Ok v' ->
  src v' <> src v /\ dest v' <> dest v.
Proof.
  unfold Reconcile.repair_relationship.
  destruct (Reconcile._repair_ns (Some (src v)) mappings) as [s|] eqn:Es;
    cbn [bind]; [|discriminate].
  destruct (Reconcile._repair_ns (Some (dest v)) mappings) as [d|] eqn:Ed;
    cbn [bind]; [|discriminate].
  intros H; injection H as <-; cbn [src dest].
  split; [now apply repair_ns_changes in Es|].
  now apply repair_ns_changes in Ed.
Qed.

(** One reconciliation that succeeds on a graph with a class changes
    every package and every edge endpoint. *)
Lemma repair_namespaces_changes (cs : list DotClassInfo)
    (rs : list DotClassRelationship) (root : entry) cs' rs' rp :
  cs <> [] ->
  Reconcile._repair_namespaces cs rs root = Ok (cs', rs', rp) ->
  Forall2 (fun c c' => package c' <> package c) cs cs'
  /\ Forall2 (fun v v' => src v' <> src v /\ dest v' <> dest v) rs rs'.
Proof.
  intros Hne; unfold Reconcile._repair_namespaces.
  destruct cs as [|c0 cs0]; [congruence|].
  destruct (Reconcile._find_root _ (package c0)) as [root_ns|];
    cbn [bind]; [|discriminate].
  match goal with
  | |- context [mapM (Reconcile.repair_class ?m)] =>
      set (new_mappings := m)
  end.
  destruct (mapM (Reconcile.repair_class new_mappings)
              (c0 :: cs0)) as [cs1|] eqn:Ec; cbn [bind]; [|discriminate].
  destruct (mapM (Reconcile.repair_relationship new_mappings)
              rs) as [rs1|] eqn:Er; cbn [bind]; [|discriminate].
  intros H; injection H as <- <- _; split.
  - apply (mapM_Forall2 _ _ _ (repair_class_changes new_mappings) _ Ec).
  - apply (mapM_Forall2 _ _ _ (repair_relationship_changes new_mappings)
             _ Er).
Qed.

(** The loop of [_find_root] ends before its fuel does. *)
Lemma find_root_loop_terminates (package_ : str) (fuel : nat) :
  forall left_,
    (List.length left_ < fuel)%nat ->
    exists r, Reconcile.find_root_loop fuel left_ package_ = Ok r.
Proof.
  induction fuel as [|fuel IH]; intros left_ Hlt; [lia|].
  cbn [Reconcile.find_root_loop].
  destruct (str_eqb left_ []) eqn:E; [eauto|].
  destruct (contains package_ left_); [eauto|].
  destruct (contains left_ [c_dot]) eqn:Ec; cbn [negb]; [|eauto].
  apply IH; apply str_eqb_false in E.
  unfold contains in Ec; apply Z.leb_le in Ec.
  unfold slice_from, clamp.
  destruct (find left_ [c_dot] + 1 <? 0) eqn:E1;
    [apply Z.ltb_lt in E1; lia|].
  rewrite length_skipn.
  assert (0 < len left_)
    by (destruct left_; [congruence | unfold len; cbn [List.length]; lia]).
  unfold len in *; lia.
Qed.

(** The reconciler never runs out of fuel: its loops are total. *)
Lemma reconciler_loops_total :
  (forall full_key package_,
     Reconcile._find_root full_key package_ <> Raise OutOfFuel)
  /\ (forall package_ mappings,
        Reconcile._repair_ns package_ mappings <> Raise OutOfFuel).
Proof.
  split.
  - intros full_key [p|]; unfold Reconcile._find_root.
    + destruct (find_root_loop_terminates p (S (List.length full_key))
                  full_key ltac:(lia)) as [r ->]; discriminate.
    + destruct (str_eqb full_key []); discriminate.
  - intros [p|] mappings; unfold Reconcile._repair_ns; [|discriminate].
    destruct (repair_ns_loop_terminates mappings (S (List.length p)) p None
                ltac:(lia)) as [[f ix] ->]; cbn [bind].
    destruct ix; [|discriminate].
    destruct (dict_get mappings f); discriminate.
Qed.

(** C5, as the code has it: reconciling its own output again is a no-op
    only for a graph without class nodes (the output is then empty);
    when the graph has a class node, a second reconciliation that
    succeeds changes every class package and every edge endpoint. *)
Theorem reconciliation_twice :
  forall (cs : list DotClassInfo) (rs : list DotClassRelationship)
         (root : entry) cs1 rs1 rp1 cs2 rs2 rp2,
    Reconcile._repair_namespaces cs rs root = Ok (cs1, rs1, rp1) ->
    Reconcile._repair_namespaces cs1 rs1 root = Ok (cs2, rs2, rp2) ->
    (cs = [] /\ cs1 = [] /\ rs1 = [] /\ (cs2, rs2, rp2) = (cs1, rs1, rp1))
    \/ (cs <> []
        /\ Forall2 (fun c1 c2 => package c2 <> package c1) cs1 cs2
        /\ Forall2 (fun v1 v2 => src v2 <> src v1 /\ dest v2 <> dest v1)
             rs1 rs2).
Proof.
  intros cs rs root cs1 rs1 rp1 cs2 rs2 rp2 H1 H2.
  destruct cs as [|c cs].
  - left; cbn in H1; injection H1 as <- <- <-.
    cbn in H2; now injection H2 as <- <- <-.
  - right; split; [discriminate|].
    apply repair_namespaces_changes in H1 as [Hc _]; [|discriminate].
    apply (repair_namespaces_changes cs1 rs1 root cs2 rs2 rp2); [|exact H2].
    inversion Hc; discriminate.
Qed.

Lemma reconciliation_twice_witness :
  Reconcile._repair_namespaces sample_views sample_edges sample_tree
  = Ok (sample_views_once, sample_edges_once, sample_root_path)
  /\ Reconcile._repair_namespaces sample_views_once sample_edges_once
       sample_tree
     = Ok (sample_views_twice, sample_edges_twice, sample_root_path)
  /\ ((sample_views = [] /\ sample_views_once = [] /\ sample_edges_once = []
       /\ (sample_views_twice, sample_edges_twice, sample_root_path)
          = (sample_views_once, sample_edges_once, sample_root_path))
      \/ (sample_views <> []
          /\ Forall2 (fun c1 c2 => package c2 <> package c1)
               sample_views_once sample_views_twice
          /\ Forall2 (fun v1 v2 => src v2 <> src v1 /\ dest v2 <> dest v1)
               sample_edges_once sample_edges_twice)).
Proof.
  split; [vm_compute; reflexivity|].
  split; [vm_compute; reflexivity|].
  apply (reconciliation_twice sample_views sample_edges sample_tree
           sample_views_once sample_edges_once sample_root_path
           sample_views_twice sample_edges_twice sample_root_path);
    vm_compute; reflexivity.
Defined.

(** C5, as stated, fails: reconciling the class [metagpt.foo.Bar] under
    [/root/proj/metagpt] gives the package [metagpt/foo.py:Bar], and
    reconciling that output with the same root gives
    [metagpt:metagpt/foo:py:Bar]. *)
Lemma reconciliation_not_idempotent :
  Reconcile._repair_namespaces sample_views sample_edges sample_tree
  = Ok (sample_views_once, sample_edges_once, sample_root_path)
  /\ Reconcile._repair_namespaces sample_views_once sample_edges_once
       sample_tree
     = Ok (sample_views_twice, sample_edges_twice, sample_root_path)
  /\ map package sample_views_once = [Some (py "metagpt/foo.py:Bar")]
  /\ map package sample_views_twice
     = [Some (py "metagpt:metagpt/foo:py:Bar")]
  /\ sample_views_twice <> sample_views_once
  /\ sample_edges_twice <> sample_edges_once.
Proof.
  split; [vm_compute; reflexivity|].
  split; [vm_compute; reflexivity|].
  split; [reflexivity|].
  split; [reflexivity|].
  split; vm_compute; discriminate.
Qed.

(** ** The aggregations of a method as a set

    Apart from their order (C3), the aggregations are what the claim
    says: each referenced type once, those of the parameters and those
    of the return descriptor. *)

Lemma set_add_In (x y : str) (s : pyset) :
  In x (set_add y s) <-> x = y \/ In x s.
Proof.
  unfold set_add; destruct (in_dec str_eq_dec y s) as [Hy|Hy].
  - split; [now right | intros [->|H]; assumption].
  - rewrite in_app_iff; cbn; intuition (subst; auto).
Qed.

Lemma set_add_NoDup (y : str) (s : pyset) : NoDup s -> NoDup (set_add y s).
Proof.
  intros H; unfold set_add; destruct (in_dec str_eq_dec y s) as [Hy|Hy];
    [assumption|].
  apply NoDup_app; [assumption | repeat constructor; intros [] |].
  intros x Hx [<-|[]]; contradiction.
Qed.

Lemma set_update_spec (xs : list str) :
  forall s, NoDup s ->
    NoDup (set_update xs s)
    /\ forall x, In x (set_update xs s) <-> In x xs \/ In x s.
Proof.
  unfold set_update; induction xs as [|y xs IH]; intros s Hs;
    cbn [fold_left].
  - split; [assumption | intros x; split; [now right | now intros [[]|H]]].
  - destruct (IH (set_add y s) (set_add_NoDup y s Hs)) as [H1 H2].
    split; [assumption|]; intros x; rewrite H2, set_add_In; cbn.
    split; [intros [H|[->|H]] | intros [[->|H]|H]]; auto.
Qed.

Lemma update_with_set_spec (set_order : pyset -> list str)
    (other : list str) :
  set_order_ok set_order ->
  forall s, NoDup s ->
    NoDup (DotClassMethod.update_with_set set_order
             (DotClassMethod.set_of_list other) s)
    /\ forall x,
         In x (DotClassMethod.update_with_set set_order
                 (DotClassMethod.set_of_list other) s)
         <-> In x other \/ In x s.
Proof.
  intros Hok s Hs; unfold DotClassMethod.update_with_set.
  destruct (set_update_spec
              (set_order (DotClassMethod.set_of_list other)) s Hs)
    as [H1 H2].
  split; [assumption|]; intros x; rewrite H2.
  assert (Hin : In x (set_order (DotClassMethod.set_of_list other))
                <-> In x other).
  { destruct (set_update_spec other [] (NoDup_nil _)) as [_ H3].
    unfold DotClassMethod.set_of_list; split; intros H.
    - apply (Permutation_in _ (Hok _)) in H; apply H3 in H as [H|[]];
        assumption.
    - apply (Permutation_in _ (Permutation_sym (Hok _))), H3; now left. }
  now rewrite Hin.
Qed.

Lemma method_aggregations_union (set_order : pyset -> list str) (v : str)
    (m : DotClassMethod.t) :
  set_order_ok set_order ->
  DotClassMethod.parse set_order v = Ok m ->
  NoDup (DotClassMethod.aggregations m)
  /\ forall x,
       In x (DotClassMethod.aggregations m)
       <-> (exists a, In a (DotClassMethod.args m)
                      /\ In x (DotClassAttribute.compositions a))
           \/ (exists r, DotClassMethod.return_args m = Some r
                         /\ In x (DotReturn.compositions r)).
Proof.
  intros Hok; unfold DotClassMethod.parse.
  destruct (DotClassMethod._parse_args set_order _) as [args|];
    cbn [bind]; [|discriminate].
  intros H; injection H as <-;
    cbn [DotClassMethod.aggregations DotClassMethod.args
         DotClassMethod.return_args].
  match goal with
  | |- context [DotReturn.parse set_order ?t] =>
      set (ret := DotReturn.parse set_order t)
  end.
  assert (Hfold : forall l acc, NoDup acc ->
            NoDup (fold_left
                     (fun acc i =>
                        DotClassMethod.update_with_set set_order
                          (DotClassMethod.set_of_list
                             (DotClassAttribute.compositions i)) acc) l acc)
            /\ forall x,
                 In x (fold_left
                         (fun acc i =>
                            DotClassMethod.update_with_set set_order
                              (DotClassMethod.set_of_list
                                 (DotClassAttribute.compositions i)) acc)
                         l acc)
                 <-> (exists a, In a l
                                /\ In x (DotClassAttribute.compositions a))
                     \/ In x acc).
  { induction l as [|a l IH]; intros acc Hacc; cbn [fold_left].
    - split; [assumption|]; intros x; split; [now right|].
      now intros [(a & [] & _)|H].
    - destruct (update_with_set_spec set_order
                  (DotClassAttribute.compositions a) Hok acc Hacc)
        as [H1 H2].
      destruct (IH _ H1) as [H3 H4]; split; [assumption|].
      intros x; rewrite H4, H2; split.
      + intros [(b & Hb & Hx)|[Hx|Hx]]; eauto.
        * left; exists b; split; [now right | assumption].
        * left; exists a; split; [now left | assumption].
      + intros [(b & [<-|Hb] & Hx)|Hx]; eauto. }
  destruct (Hfold args [] (NoDup_nil _)) as [H1 H2].
  destruct (update_with_set_spec set_order (DotReturn.compositions ret) Hok
              _ H1) as [H3 H4].
  split.
  - apply (Permutation_NoDup (Permutation_sym (Hok _))), H3.
  - intros x; split.
    + intros H; apply (Permutation_in _ (Hok _)), H4 in H as [H|H].
      * right; eauto.
      * apply H2 in H as [H|[]]; now left.
    + intros H; apply (Permutation_in _ (Permutation_sym (Hok _))), H4.
      destruct H as [H|(r & Hr & Hx)].
      * right; apply H2; now left.
      * left; now injection Hr as <-.
Qed.

(** * Further properties of the parsers *)

(** ** White space *)

Lemma remove_white_spaces_eq (v : str) :
  DotClassAttribute.remove_white_spaces v
  = filter (fun c => negb (is_space c)) v.
Proof.
  unfold DotClassAttribute.remove_white_spaces; generalize (@None ascii).
  induction v as [|c v IH]; intros prev; [reflexivity|].
  cbn [DotClassAttribute.remove_white_spaces_from filter].
  rewrite !IH.
  destruct (match prev with Some p => is_quote p | None => false end);
    destruct (is_space c); reflexivity.
Qed.

(** X1: [remove_white_spaces] removes every white-space character, those
    that follow a quote included, and nothing else. *)
Theorem remove_white_spaces_filter :
  forall v : str,
    DotClassAttribute.remove_white_spaces v
    = filter (fun c => negb (is_space c)) v
    /\ forall c, In c (DotClassAttribute.remove_white_spaces v) ->
                 is_space c = false.
Proof.
  intros v; rewrite remove_white_spaces_eq; split; [reflexivity|].
  intros c Hc; apply filter_In in Hc as [_ Hc].
  now destruct (is_space c).
Qed.

(** ** Sorting *)

Lemma str_leb_total (a b : str) : str_leb a b = false -> str_leb b a = true.
Proof.
  revert b; induction a as [|x a IH]; intros [|y b]; cbn [str_leb];
    try discriminate; auto.
  destruct (nat_of_ascii x <? nat_of_ascii y)%nat eqn:E1; [discriminate|].
  destruct (nat_of_ascii y <? nat_of_ascii x)%nat eqn:E2; [reflexivity|].
  apply IH.
Qed.

Lemma str_leb_antisym (a b : str) :
  str_leb a b = true -> str_leb b a = true -> a = b.
Proof.
  revert b; induction a as [|x a IH]; intros [|y b]; cbn [str_leb];
    try discriminate; auto.
  destruct (nat_of_ascii x <? nat_of_ascii y)%nat eqn:E1;
    destruct (nat_of_ascii y <? nat_of_ascii x)%nat eqn:E2;
    try discriminate.
  - apply Nat.ltb_lt in E1, E2; lia.
  - intros H1 H2; apply Nat.ltb_ge in E1, E2.
    assert (Hxy : x = y).
    { rewrite <- (ascii_nat_embedding x), <- (ascii_nat_embedding y).
      f_equal; lia. }
    now rewrite Hxy, (IH b H1 H2).
Qed.

Lemma str_leb_trans (a b c : str) :
  str_leb a b = true -> str_leb b c = true -> str_leb a c = true.
Proof.
  revert b c; induction a as [|x a IH]; intros [|y b] [|z c];
    cbn [str_leb]; try discriminate; auto.
  destruct (Nat.ltb_spec (nat_of_ascii x) (nat_of_ascii y));
    destruct (Nat.ltb_spec (nat_of_ascii y) (nat_of_ascii x));
    destruct (Nat.ltb_spec (nat_of_ascii y) (nat_of_ascii z));
    destruct (Nat.ltb_spec (nat_of_ascii z) (nat_of_ascii y));
    destruct (Nat.ltb_spec (nat_of_ascii x) (nat_of_ascii z));
    destruct (Nat.ltb_spec (nat_of_ascii z) (nat_of_ascii x));
    try discriminate; auto; try (exfalso; lia).
  apply IH.
Qed.

Lemma insert_sorted_perm (x : str) (l : list str) :
  Permutation (insert_sorted x l) (x :: l).
Proof.
  induction l as [|y l IH]; cbn [insert_sorted]; [apply Permutation_refl|].
  destruct (str_leb x y); [apply Permutation_refl|].
  apply perm_trans with (y :: x :: l); [now apply perm_skip | apply perm_swap].
Qed.

Lemma sort_perm (l : list str) : Permutation (sort l) l.
Proof.
  induction l as [|x l IH]; cbn; [constructor|].
  apply perm_trans with (x :: sort l);
    [apply insert_sorted_perm | now apply perm_skip].
Qed.

Lemma insert_sorted_sorted (x : str) (l : list str) :
  StronglySorted str_le l -> StronglySorted str_le (insert_sorted x l).
Proof.
  induction 1 as [|y l Hs IH Hy]; cbn [insert_sorted].
  - repeat constructor.
  - destruct (str_leb x y) eqn:E.
    + constructor; [now constructor|].
      constructor; [exact E|].
      rewrite Forall_forall in *; intros z Hz.
      apply (str_leb_trans x y z E), Hy, Hz.
    + constructor; [exact IH|].
      rewrite Forall_forall in *; intros z Hz.
      apply (Permutation_in _ (insert_sorted_perm x l)) in Hz as [<-|Hz];
        [now apply str_leb_total | now apply Hy].
Qed.

Lemma sort_sorted (l : list str) : StronglySorted str_le (sort l).
Proof.
  induction l as [|x l IH]; cbn; [constructor|].
  now apply insert_sorted_sorted.
Qed.

Lemma sorted_perm_eq (l1 l2 : list str) :
  StronglySorted str_le l1 -> StronglySorted str_le l2 ->
  Permutation l1 l2 -> l1 = l2.
Proof.
  intros H1; revert l2; induction H1 as [|x l1 Hs IH Hx]; intros l2 H2 Hp.
  - now apply Permutation_nil in Hp.
  - destruct H2 as [|y l2 Hs2 Hy].
    + apply Permutation_sym, Permutation_nil in Hp; discriminate.
    + assert (Hxy : x = y).
      { rewrite Forall_forall in Hx, Hy.
        assert (In x (y :: l2))
          by (apply (Permutation_in _ Hp); now left).
        assert (In y (x :: l1))
          by (apply (Permutation_in _ (Permutation_sym Hp)); now left).
        destruct H as [->|Hin1]; [reflexivity|].
        destruct H0 as [->|Hin2]; [reflexivity|].
        apply str_leb_antisym; [now apply Hx | now apply Hy]. }
      subst y; f_equal; apply IH; [assumption|].
      now apply Permutation_cons_inv in Hp.
Qed.

(** [lst.sort()] does not depend on the order the list came in. *)
Lemma sort_order_irrelevant (set_order : pyset -> list str) (s : pyset) :
  set_order_ok set_order -> sort (set_order s) = sort s.
Proof.
  intros Hok; apply sorted_perm_eq; try apply sort_sorted.
  apply perm_trans with (set_order s); [apply sort_perm|].
  apply perm_trans with s; [apply Hok | apply Permutation_sym, sort_perm].
Qed.

(** ** Compositions of attributes and return values *)

Lemma collect_types_spec (types : list str) :
  NoDup (DotClassAttribute.collect_types types)
  /\ forall t, In t (DotClassAttribute.collect_types types) ->
               t <> [] /\ ~ In t DotClassAttribute.filters.
Proof.
  unfold DotClassAttribute.collect_types.
  assert (H : forall acc : pyset,
            NoDup acc ->
            (forall t, In t acc -> t <> [] /\ ~ In t DotClassAttribute.filters) ->
            let r := fold_left
              (fun result t =>
                 let t := remove_quotes (strip t) in
                 if negb (str_eqb t []) && negb (mem t DotClassAttribute.filters)
                 then set_add t result else result) types acc in
            NoDup r
            /\ forall t, In t r -> t <> [] /\ ~ In t DotClassAttribute.filters).
  { induction types as [|x types IH]; intros acc Hn Hacc; cbn [fold_left].
    - now split.
    - apply IH.
      + destruct (negb (str_eqb _ []) && negb (mem _ _));
          [now apply set_add_NoDup | assumption].
      + intros t Ht.
        destruct (str_eqb (remove_quotes (strip x)) []) eqn:E1;
          cbn [negb andb] in Ht; [now apply Hacc|].
        destruct (mem (remove_quotes (strip x)) DotClassAttribute.filters)
          eqn:E2; cbn [negb] in Ht; [now apply Hacc|].
        apply set_add_In in Ht as [->|Ht]; [|now apply Hacc].
        split; [now apply str_eqb_false|].
        intros Hin; apply mem_In in Hin; congruence. }
  apply (H []); [constructor | intros t []].
Qed.

Lemma parse_compositions_spec (set_order : pyset -> list str) (cv : str) :
  set_order_ok set_order ->
  let l := sort (DotClassAttribute.parse_compositions set_order cv) in
  StronglySorted str_le l /\ NoDup l
  /\ forall t, In t l -> t <> [] /\ ~ In t DotClassAttribute.filters.
Proof.
  intros Hok l; subst l; split; [apply sort_sorted|].
  unfold DotClassAttribute.parse_compositions.
  destruct (str_eqb cv []); [cbn; split; [constructor | intros t []]|].
  destruct (collect_types_spec
              (split c_pipe
                 (map (fun c => if chr_eqb c c_lbracket || chr_eqb c c_rbracket
                                   || chr_eqb c c_comma then c_pipe else c)
                    cv))) as [Hn Hf].
  assert (Hp : Permutation
                 (sort (set_order (DotClassAttribute.composition_set cv)))
                 (DotClassAttribute.composition_set cv)).
  { eapply perm_trans; [apply sort_perm | apply Hok]. }
  split.
  - eapply Permutation_NoDup; [apply Permutation_sym, Hp | exact Hn].
  - intros t Ht; apply Hf, (Permutation_in _ Hp), Ht.
Qed.

Lemma attribute_parse_compositions (set_order : pyset -> list str)
    (v : str) (a : DotClassAttribute.t) :
  DotClassAttribute.parse set_order v = Ok a ->
  exists cv, DotClassAttribute.compositions a
             = sort (DotClassAttribute.parse_compositions set_order cv).
Proof.
  unfold DotClassAttribute.parse.
  destruct (fold_left DotClassAttribute.scan_step v ([], false, false))
    as [[val mc] me].
  match goal with
  | |- context [contains ?t (py "Literal[")] =>
      destruct (contains t (py "Literal["));
        [destruct (DotClassAttribute._split_literal t) as [[[p l] q]|e]|]
  end; cbn [bind]; intros H; try discriminate;
    injection H as <-; cbn [DotClassAttribute.compositions]; eauto.
Qed.

(** X2: the compositions of a parsed attribute are in ascending order and
    free of duplicates; none of them is empty or one of the filtered
    built-in type names. *)
Theorem attribute_compositions_sorted (set_order : pyset -> list str)
    (v : str) (a : DotClassAttribute.t) :
  set_order_ok set_order ->
  DotClassAttribute.parse set_order v = Ok a ->
  StronglySorted str_le (DotClassAttribute.compositions a)
  /\ NoDup (DotClassAttribute.compositions a)
  /\ forall t, In t (DotClassAttribute.compositions a) ->
               t <> [] /\ ~ In t DotClassAttribute.filters.
Proof.
  intros Hok H; apply attribute_parse_compositions in H as [cv ->].
  now apply parse_compositions_spec.
Qed.

Lemma attribute_compositions_sorted_witness :
  exists a,
    DotClassAttribute.parse insertion_order (py "m: Dict[Zoo, Bar]") = Ok a
    /\ DotClassAttribute.compositions a = [py "Bar"; py "Zoo"]
    /\ StronglySorted str_le (DotClassAttribute.compositions a)
    /\ NoDup (DotClassAttribute.compositions a)
    /\ forall t, In t (DotClassAttribute.compositions a) ->
                 t <> [] /\ ~ In t DotClassAttribute.filters.
Proof.
  eexists; split; [vm_compute; reflexivity|].
  split; [reflexivity|].
  apply (attribute_compositions_sorted insertion_order
           (py "m: Dict[Zoo, Bar]") _ insertion_order_ok).
  vm_compute; reflexivity.
Defined.

Lemma sort_parse_compositions (set_order : pyset -> list str) (cv : str) :
  set_order_ok set_order ->
  sort (DotClassAttribute.parse_compositions set_order cv)
  = sort (DotClassAttribute.parse_compositions insertion_order cv).
Proof.
  intros Hok; unfold DotClassAttribute.parse_compositions.
  destruct (str_eqb cv []); [reflexivity|].
  now apply sort_order_irrelevant.
Qed.

(** X3: what [DotClassAttribute.parse] and [DotReturn.parse] return does
    not depend on the order in which the set of compositions is
    enumerated: every enumeration order gives the result of the insertion
    order. *)
Theorem attribute_parse_order_independent (set_order : pyset -> list str)
    (v : str) :
  set_order_ok set_order ->
  DotClassAttribute.parse set_order v
  = DotClassAttribute.parse insertion_order v
  /\ DotReturn.parse set_order v = DotReturn.parse insertion_order v.
Proof.
  intros Hok; split.
  - unfold DotClassAttribute.parse.
    destruct (fold_left DotClassAttribute.scan_step v ([], false, false))
      as [[val mc] me].
    match goal with
    | |- context [contains ?t (py "Literal[")] =>
        destruct (contains t (py "Literal["));
          [destruct (DotClassAttribute._split_literal t) as [[[p l] q]|e]|]
    end; cbn [bind]; try reflexivity;
      now rewrite (sort_parse_compositions set_order).
  - unfold DotReturn.parse; destruct (str_eqb v []); [reflexivity|].
    now rewrite (sort_parse_compositions set_order).
Qed.

Lemma rev_order_ok : set_order_ok (@rev str).
Proof. intros s; apply Permutation_sym, Permutation_rev. Qed.

Lemma attribute_parse_order_independent_witness :
  DotClassAttribute.parse (@rev str) (py "m: Dict[Zoo, Bar]")
  = DotClassAttribute.parse insertion_order (py "m: Dict[Zoo, Bar]")
  /\ DotReturn.parse (@rev str) (py "m: Dict[Zoo, Bar]")
     = DotReturn.parse insertion_order (py "m: Dict[Zoo, Bar]").
Proof.
  apply (attribute_parse_order_independent (@rev str)
           (py "m: Dict[Zoo, Bar]") rev_order_ok).
Defined.

(** ** Searching in strings *)

Lemma startswith_app (s sub : str) :
  startswith s sub = true -> exists post, s = sub ++ post.
Proof.
  revert s; induction sub as [|a sub IH]; intros s H.
  - exists s; reflexivity.
  - destruct s as [|b s]; [discriminate|].
    cbn [startswith] in H; apply andb_true_iff in H as [H1 H2].
    apply Ascii.eqb_eq in H1; subst b.
    destruct (IH s H2) as [post ->]; now exists post.
Qed.

Lemma startswith_refl_app (sub post : str) :
  startswith (sub ++ post) sub = true.
Proof.
  induction sub as [|a sub IH]; [destruct post; reflexivity|].
  cbn [app startswith]; unfold chr_eqb; now rewrite Ascii.eqb_refl, IH.
Qed.

(** [find] answers the place of an occurrence. *)
Lemma find_from_found (sub s : str) :
  forall i, 0 <= i -> 0 <= find_from sub s i ->
    exists pre post, s = pre ++ sub ++ post
                     /\ find_from sub s i = i + len pre.
Proof.
  induction s as [|c s IH]; intros i Hi H.
  - cbn [find_from] in *; destruct (startswith [] sub) eqn:E; [|lia].
    destruct (startswith_app _ _ E) as [post Hp].
    exists [], post; split; [exact Hp | unfold len; cbn; lia].
  - cbn [find_from] in *; destruct (startswith (c :: s) sub) eqn:E.
    + destruct (startswith_app _ _ E) as [post Hp].
      exists [], post; split; [exact Hp | unfold len; cbn; lia].
    + destruct (IH (i + 1) ltac:(lia) H) as (pre & post & -> & Hr).
      exists (c :: pre), post; split; [reflexivity|].
      rewrite Hr; unfold len; cbn [List.length]; lia.
Qed.

(** [find] of one character: it is absent, or the answer is the place of
    its first occurrence. *)
Lemma find_from_chr (c : ascii) (s : str) :
  forall i,
    (find_from [c] s i = -1 /\ ~ In c s)
    \/ (exists pre post, s = pre ++ c :: post /\ ~ In c pre
                         /\ find_from [c] s i = i + len pre).
Proof.
  induction s as [|x s IH]; intros i; cbn [find_from].
  - left; split; [reflexivity | intros []].
  - cbn [startswith]; rewrite startswith_nil, andb_true_r.
    unfold chr_eqb; destruct (Ascii.eqb c x) eqn:E.
    + apply Ascii.eqb_eq in E; subst x; right.
      exists [], s; split; [reflexivity|]; split; [intros []|].
      unfold len; cbn; lia.
    + apply Ascii.eqb_neq in E.
      destruct (IH (i + 1)) as [[H1 H2]|(pre & post & -> & H1 & H2)].
      * left; split; [exact H1 | intros [Hx|Hx]; congruence].
      * right; exists (x :: pre), post; split; [reflexivity|].
        split; [intros [Hx|Hx]; congruence|].
        rewrite H2; unfold len; cbn [List.length]; lia.
Qed.

Lemma In_firstn {A} (x : A) (n : nat) (l : list A) :
  In x (firstn n l) -> In x l.
Proof.
  revert l; induction n as [|n IH]; intros [|y l]; cbn; try tauto.
  intros [H|H]; [now left | right; now apply IH].
Qed.

Lemma In_skipn {A} (x : A) (n : nat) (l : list A) :
  In x (skipn n l) -> In x l.
Proof.
  revert l; induction n as [|n IH]; intros [|y l]; cbn; try tauto.
  intros H; right; now apply IH.
Qed.

Lemma In_slice (x : ascii) (s : str) (lo hi : Z) :
  In x (slice s lo hi) -> In x s.
Proof. unfold slice; intros H; eapply In_skipn, In_firstn, H. Qed.

Lemma In_slice_from (x : ascii) (s : str) (lo : Z) :
  In x (slice_from s lo) -> In x s.
Proof. unfold slice_from; apply In_skipn. Qed.

Lemma len_app (a b : str) : len (a ++ b) = len a + len b.
Proof. unfold len; rewrite length_app; lia. Qed.

Lemma len_nonneg (s : str) : 0 <= len s.
Proof. unfold len; lia. Qed.

(** A slice that starts behind [pre] and ends inside the rest. *)
Lemma slice_behind (pre rest : str) (k : Z) :
  0 <= k <= len rest ->
  slice (pre ++ rest) (len pre) (len pre + k) = firstn (Z.to_nat k) rest.
Proof.
  intros Hk; unfold slice, clamp; rewrite len_app.
  pose proof (len_nonneg pre) as Hp.
  destruct (len pre <? 0) eqn:E1; [apply Z.ltb_lt in E1; lia|].
  destruct (len pre + k <? 0) eqn:E2; [apply Z.ltb_lt in E2; lia|].
  rewrite !Z.min_l by lia.
  replace (len pre + k - len pre) with k by lia.
  unfold len; rewrite Nat2Z.id, skipn_app, skipn_all, Nat.sub_diag.
  reflexivity.
Qed.

Lemma In_slice_behind (x : ascii) (pre rest : str) (hi : Z) :
  In x (slice (pre ++ rest) (len pre) hi) -> In x rest.
Proof.
  unfold slice; intros H; apply In_firstn in H; revert H.
  assert (Hc : clamp (len (pre ++ rest)) (len pre) = len pre).
  { unfold clamp; rewrite len_app.
    pose proof (len_nonneg pre); pose proof (len_nonneg rest).
    destruct (len pre <? 0) eqn:E; [apply Z.ltb_lt in E; lia | lia]. }
  rewrite Hc; unfold len; rewrite Nat2Z.id, skipn_app, skipn_all, Nat.sub_diag.
  now cbn.
Qed.

(** ** Relationship lines *)

(** The label that [_get_label] cuts out ends before the next double
    quote. *)
Lemma get_label_no_quote (line : str) :
  ~ In c_dquote (Relationships._get_label line).
Proof.
  unfold Relationships._get_label.
  set (tag := py "label=" ++ [c_dquote]).
  destruct (contains line tag) eqn:E; cbn [negb]; [|intros []].
  unfold contains in E; apply Z.leb_le in E; unfold find in *.
  destruct (find_from_found tag line 0 ltac:(lia) E)
    as (pre & post & Hl & Hr).
  rewrite Hr; subst line; rewrite app_assoc.
  replace (0 + len pre + len tag) with (len (pre ++ tag))
    by (rewrite len_app; lia).
  unfold Relationships.find_at.
  pose proof (len_nonneg post) as Hpost.
  destruct (len ((pre ++ tag) ++ post) <? len (pre ++ tag)) eqn:E1;
    [apply Z.ltb_lt in E1; rewrite len_app in E1; lia|].
  unfold len at 2; rewrite Nat2Z.id, skipn_app, skipn_all, Nat.sub_diag.
  cbn [skipn app].
  destruct (find_from_chr c_dquote post (len (pre ++ tag)))
    as [[H1 H2]|(p1 & p2 & -> & Hn & H3)].
  - intros Hin; apply In_slice_behind in Hin; contradiction.
  - rewrite H3, slice_behind.
    + unfold len; rewrite Nat2Z.id, firstn_app, firstn_all, Nat.sub_diag.
      cbn [firstn]; now rewrite app_nil_r.
    + rewrite len_app; pose proof (len_nonneg p1).
      pose proof (len_nonneg (c_dquote :: p2)); lia.
Qed.

Lemma set_relationship_spec (G C A : str) (properties : str)
    (src_ dest_ : str) :
  let r := Relationships.set_relationship G
             [(Relationships.arrowhead "empty", G);
              (Relationships.arrowhead "diamond", C);
              (Relationships.arrowhead "odiamond", A)]
             properties (mk_DotClassRelationship src_ dest_ [] None) in
  src r = src_ /\ dest r = dest_
  /\ (relationship r = G -> label r = None)
  /\ forall l, label r = Some l ->
               ~ In c_dquote l /\ (relationship r = C \/ relationship r = A).
Proof.
  cbn [Relationships.set_relationship].
  destruct (contains properties (Relationships.arrowhead "empty")).
  { unfold str_eqb; destruct (str_eq_dec G G); [|contradiction].
    cbn; repeat split; auto; discriminate. }
  destruct (contains properties (Relationships.arrowhead "diamond")).
  { unfold str_eqb; destruct (str_eq_dec C G); cbn;
      repeat split; auto; try discriminate; try congruence;
      injection H as <-; apply get_label_no_quote. }
  destruct (contains properties (Relationships.arrowhead "odiamond")).
  { unfold str_eqb; destruct (str_eq_dec A G); cbn;
      repeat split; auto; try discriminate; try congruence;
      injection H as <-; apply get_label_no_quote. }
  cbn; repeat split; auto; discriminate.
Qed.

(** X4: every relationship that [_parse_class_relationships] returns
    comes from a line of the diagram; a generalization carries no label,
    and a label, when there is one, belongs to a composition or an
    aggregation and holds no double quote. *)
Theorem relationship_labels (G C A : str) (data : option str)
    (r : DotClassRelationship) :
  In r (Relationships._parse_class_relationships G C A data) ->
  (exists text line,
     data = Some text /\ In line (split c_newline text)
     /\ Relationships._split_relationship_line G C A line = Some r)
  /\ (relationship r = G -> label r = None)
  /\ forall l, label r = Some l ->
               ~ In c_dquote l /\ (relationship r = C \/ relationship r = A).
Proof.
  intros Hin.
  assert (Hline : exists text line,
             data = Some text /\ In line (split c_newline text)
             /\ Relationships._split_relationship_line G C A line = Some r).
  { destruct data as [text|]; [|destruct Hin].
    cbn [Relationships._parse_class_relationships] in Hin.
    assert (H : forall lines acc,
               In r (fold_left
                       (fun views line =>
                          match Relationships._split_relationship_line
                                  G C A line with
                          | None => views
                          | Some r => views ++ [r]
                          end) lines acc) ->
               In r acc
               \/ exists line,
                    In line lines
                    /\ Relationships._split_relationship_line G C A line
                       = Some r).
    { induction lines as [|x lines IH]; intros acc H; cbn [fold_left] in H;
        [now left|].
      apply IH in H as [H|(line & H1 & H2)].
      - destruct (Relationships._split_relationship_line G C A x) eqn:E;
          [|now left].
        apply in_app_iff in H as [H|[<-|[]]]; [now left|].
        right; exists x; split; [now left | exact E].
      - right; exists line; split; [now right | exact H2]. }
    apply H in Hin as [[]|(line & H1 & H2)].
    exists text, line; auto. }
  split; [exact Hline|].
  destruct Hline as (text & line & _ & _ & H).
  unfold Relationships._split_relationship_line in H.
  destruct (contains line (py " -> ")); cbn [negb] in H; [|discriminate].
  destruct (contains line (py " [")); cbn [negb] in H; [|discriminate].
  destruct (contains line (py "];")); cbn [negb] in H; [|discriminate].
  injection H as <-.
  exact (proj2 (proj2 (set_relationship_spec G C A _ _ _))).
Qed.

Lemma relationship_labels_witness :
  In sample_relationship
    (Relationships._parse_class_relationships
       (py "Generalize") (py "Composite") (py "Aggregate")
       (Some sample_relationship_line))
  /\ (relationship sample_relationship = py "Generalize" ->
      label sample_relationship = None)
  /\ forall l, label sample_relationship = Some l ->
               ~ In c_dquote l
               /\ (relationship sample_relationship = py "Composite"
                   \/ relationship sample_relationship = py "Aggregate").
Proof.
  assert (H : In sample_relationship
                (Relationships._parse_class_relationships
                   (py "Generalize") (py "Composite") (py "Aggregate")
                   (Some sample_relationship_line)))
    by (vm_compute; left; reflexivity).
  split; [exact H|].
  apply (relationship_labels (py "Generalize") (py "Composite")
           (py "Aggregate") (Some sample_relationship_line)
           sample_relationship H).
Defined.

(** ** Outcomes of [_repair_ns] *)

Lemma rfind_from_chr_none (c : ascii) (s : str) :
  forall k, 0 <= k -> rfind_from [c] s k = -1 -> ~ In c s.
Proof.
  induction s as [|x s IH]; intros k Hk H; [intros []|].
  cbn [rfind_from] in H.
  destruct (0 <=? rfind_from [c] s (k + 1)) eqn:E;
    [apply Z.leb_le in E; lia|].
  apply Z.leb_gt in E.
  cbn [startswith] in H; rewrite startswith_nil, andb_true_r in H.
  unfold chr_eqb in H; destruct (Ascii.eqb c x) eqn:E1; [lia|].
  apply Ascii.eqb_neq in E1.
  destruct (rfind_from_bounds [c] s (k + 1) ltac:(lia)) as [H1|H1]; [|lia].
  intros [Hx|Hx]; [congruence|].
  now apply (IH (k + 1) ltac:(lia) H1).
Qed.

Lemma repair_inv_prefix (p f : str) (ix : option Z) :
  repair_inv p f ix ->
  exists k, f = firstn k p /\ (List.length f <= List.length p)%nat.
Proof.
  destruct ix as [i|]; cbn [repair_inv].
  - intros [[_ H]|(_ & _ & k & H & Hk)].
    + exists (List.length f); split.
      * rewrite H, firstn_app, firstn_all, Nat.sub_diag.
        cbn [firstn]; now rewrite app_nil_r.
      * rewrite H, length_app; lia.
    + exists k; split; [exact H|]; subst f; rewrite length_firstn; lia.
  - intros ->; exists (List.length p); rewrite firstn_all; split; auto.
Qed.

Lemma repair_inv_step (p f : str) (ix : option Z) :
  repair_inv p f ix -> f <> [] ->
  repair_inv p (slice f 0 (rfind f [c_dot])) (Some (rfind f [c_dot])).
Proof.
  intros Hinv Hne; destruct (repair_inv_prefix p f ix Hinv) as (k & Hk & Hle).
  assert (Hlen : (0 < List.length f)%nat)
    by (destruct f; [congruence | cbn; lia]).
  rewrite slice_0; cbn [repair_inv].
  destruct (rfind_chr c_dot f) as [H0|[H0 H1]].
  - right; split; [exact H0|].
    pose proof (rfind_from_chr_none c_dot f 0 ltac:(lia) H0) as Hno.
    split; [intros Hin; apply In_firstn in Hin; contradiction|].
    rewrite H0; unfold clamp; cbn [Z.ltb Z.compare].
    exists (Nat.min (Z.to_nat (Z.max 0 (-1 + len f))) k).
    rewrite Hk at 2; rewrite firstn_firstn; split; [reflexivity|].
    unfold len; lia.
  - left; split; [lia|].
    set (i := rfind f [c_dot]) in *.
    assert (Hp : nth_error p (Z.to_nat i) = Some c_dot)
      by (rewrite Hk in H1; now apply nth_error_firstn_Some in H1).
    apply nth_error_split in Hp as (l1 & l2 & Hp & Hl1).
    assert (Hc : clamp (len f) i = i).
    { unfold clamp; destruct (i <? 0) eqn:E; [apply Z.ltb_lt in E; lia|lia]. }
    rewrite Hc.
    assert (Hf : firstn (Z.to_nat i) f = l1).
    { rewrite Hk, firstn_firstn.
      replace (Nat.min (Z.to_nat i) k) with (List.length l1).
      - rewrite Hp, firstn_app, firstn_all, Nat.sub_diag.
        cbn [firstn]; now rewrite app_nil_r.
      - assert (List.length f <= k)%nat
          by (rewrite Hk; rewrite length_firstn; lia).
        unfold len in H0; lia. }
    rewrite Hf.
    assert (Hs : slice_from p (i + 1) = l2).
    { unfold slice_from, clamp, len.
      destruct (i + 1 <? 0) eqn:E1; [apply Z.ltb_lt in E1; lia|].
      replace (Z.to_nat (Z.min (i + 1) (Z.of_nat (List.length p))))
        with (S (List.length l1)).
      - rewrite Hp; apply skipn_after.
      - unfold len in H0; lia. }
    now rewrite Hs.
Qed.

Lemma repair_ns_loop_inv (p : str) (mappings : dict str) (fuel : nat) :
  forall file_ns ix r,
    Reconcile.repair_ns_loop fuel file_ns ix mappings = Ok r ->
    repair_inv p file_ns ix ->
    repair_inv p (fst r) (snd r)
    /\ (fst r = [] \/ dict_mem (fst r) mappings = true).
Proof.
  induction fuel as [|fuel IH]; intros file_ns ix r H Hinv;
    cbn [Reconcile.repair_ns_loop] in H; [discriminate|].
  unfold str_eqb in H; destruct (str_eq_dec file_ns []) as [E|E].
  - injection H as <-; cbn [fst snd]; auto.
  - destruct (dict_mem file_ns mappings) eqn:Em; cbn [negb] in H.
    + injection H as <-; cbn [fst snd]; auto.
    + apply IH in H; [exact H|].
      now apply (repair_inv_step p file_ns ix).
Qed.

(** X5: [_repair_ns] on a package [p].  It raises [UnboundLocalError]
    exactly when [p] is empty or itself a key of the mapping; the only
    other exception is [KeyError], and then the empty string is no key.
    A result is the path mapped to a prefix [f] of [p], a colon, and the
    rest with its dots turned into colons: the rest is what follows the
    dot behind [f], or all of [p] when [f] has no dot. *)
Theorem repair_ns_outcome (p : str) (mappings : dict str) :
  (Reconcile._repair_ns (Some p) mappings = Raise UnboundLocalError
   <-> p = [] \/ dict_mem p mappings = true)
  /\ (forall e, Reconcile._repair_ns (Some p) mappings = Raise e ->
        e = UnboundLocalError
        \/ (e = KeyError /\ dict_get mappings [] = None))
  /\ (forall ns, Reconcile._repair_ns (Some p) mappings = Ok ns ->
        exists f file_path,
          dict_get mappings f = Some file_path
          /\ ((exists internal,
                 p = f ++ c_dot :: internal
                 /\ ns = (file_path ++ [c_colon])
                           ++ replace_chr c_dot c_colon internal)
              \/ (~ In c_dot f
                  /\ (exists k, f = firstn k p /\ (k < List.length p)%nat)
                  /\ ns = (file_path ++ [c_colon])
                            ++ replace_chr c_dot c_colon p))).
Proof.
  unfold Reconcile._repair_ns.
  destruct (repair_ns_loop_terminates mappings (S (List.length p)) p None
              ltac:(lia)) as [[f ix] E].
  rewrite E; cbn [bind].
  destruct (repair_ns_loop_inv p mappings _ _ _ _ E eq_refl) as [Hinv Hkey].
  cbn [fst snd] in Hinv, Hkey.
  destruct ix as [i|]; cbn [repair_inv] in Hinv.
  - assert (Hp : ~ (p = [] \/ dict_mem p mappings = true)).
    { cbn [Reconcile.repair_ns_loop] in E.
      unfold str_eqb in E; destruct (str_eq_dec p []) as [E0|E0];
        [discriminate|].
      destruct (dict_mem p mappings); cbn [negb] in E; [discriminate|].
      intros [H|H]; [contradiction | discriminate]. }
    destruct (dict_get mappings f) as [fp|] eqn:Eg.
    + split; [split; [discriminate | intros H; contradiction]|].
      split; [discriminate|].
      intros ns H; injection H as <-; exists f, fp; split; [exact Eg|].
      destruct Hinv as [[Hi Hinv]|(-> & Hno & Hk)].
      * left; exists (slice_from p (i + 1)); split; [exact Hinv|reflexivity].
      * right; split; [exact Hno|]; split; [exact Hk|].
        replace (slice_from p (-1 + 1)) with p; [reflexivity|].
        unfold slice_from, clamp; cbn [Z.add Z.ltb Z.compare Z.opp Z.pos_sub].
        replace (Z.to_nat (Z.min 0 (len p))) with 0%nat
          by (unfold len; lia).
        reflexivity.
    + split; [split; [discriminate | intros H; contradiction]|].
      split; [|discriminate].
      intros e H; injection H as <-; right; split; [reflexivity|].
      destruct Hkey as [->|Hm]; [exact Eg|].
      unfold dict_mem in Hm; rewrite Eg in Hm; discriminate.
  - subst f; split; [split; [intros _; exact Hkey | reflexivity]|].
    split; [|discriminate].
    intros e H; injection H as <-; now left.
Qed.

Lemma repair_ns_outcome_witness :
  Reconcile._repair_ns (Some (py "a.b.C"))
    [(py "a.b", py "src/a/b.py")]
  = Ok (py "src/a/b.py:C")
  /\ exists f file_path,
       dict_get [(py "a.b", py "src/a/b.py")] f = Some file_path
       /\ ((exists internal,
              py "a.b.C" = f ++ c_dot :: internal
              /\ py "src/a/b.py:C"
                 = (file_path ++ [c_colon])
                     ++ replace_chr c_dot c_colon internal)
           \/ (~ In c_dot f
               /\ (exists k, f = firstn k (py "a.b.C")
                             /\ (k < List.length (py "a.b.C"))%nat)
               /\ py "src/a/b.py:C"
                  = (file_path ++ [c_colon])
                      ++ replace_chr c_dot c_colon (py "a.b.C"))).
Proof.
  split; [reflexivity|].
  apply (proj2 (proj2 (repair_ns_outcome (py "a.b.C")
                         [(py "a.b", py "src/a/b.py")]))).
  reflexivity.
Defined.

(** ** The root found by [_find_root] *)

Lemma startswith_length (s sub : str) :
  startswith s sub = true -> (List.length sub <= List.length s)%nat.
Proof.
  intros H; destruct (startswith_app s sub H) as [post ->].
  rewrite length_app; lia.
Qed.

Lemma rfind_from_short (sub s : str) :
  forall k, (List.length s < List.length sub)%nat -> rfind_from sub s k = -1.
Proof.
  induction s as [|x s IH]; intros k Hlt; cbn [rfind_from].
  - destruct (startswith [] sub) eqn:E; [|reflexivity].
    apply startswith_length in E; lia.
  - rewrite (IH (k + 1)) by (cbn [List.length] in Hlt; lia).
    cbn [Z.leb Z.compare].
    destruct (startswith (x :: s) sub) eqn:E; [|reflexivity].
    apply startswith_length in E; lia.
Qed.

(** [rfind] of a suffix answers the place where the suffix starts. *)
Lemma rfind_from_suffix (pre sub : str) :
  forall k, 0 <= k -> rfind_from sub (pre ++ sub) k = k + len pre.
Proof.
  induction pre as [|x pre IH]; intros k Hk.
  - cbn [app]; unfold len; cbn [List.length]; rewrite Z.add_0_r.
    destruct sub as [|y t]; [reflexivity|].
    cbn [rfind_from].
    rewrite (rfind_from_short (y :: t) t (k + 1)) by (cbn; lia).
    cbn [Z.leb Z.compare].
    pose proof (startswith_refl_app (y :: t) []) as H.
    rewrite app_nil_r in H; now rewrite H.
  - cbn [app rfind_from]; rewrite (IH (k + 1)) by lia.
    pose proof (len_nonneg pre).
    destruct (0 <=? k + 1 + len pre) eqn:E; [|apply Z.leb_gt in E; lia].
    unfold len; cbn [List.length]; lia.
Qed.

Lemma find_root_loop_spec (package_ : str) (fuel : nat) :
  forall full_key left_ r,
    Reconcile.find_root_loop fuel left_ package_ = Ok r ->
    (exists pre, full_key = pre ++ left_) ->
    (exists pre, full_key = pre ++ r)
    /\ (r = [] \/ contains package_ r = true \/ ~ In c_dot r).
Proof.
  induction fuel as [|fuel IH]; intros full_key left_ r H Hsuf;
    cbn [Reconcile.find_root_loop] in H; [discriminate|].
  unfold str_eqb in H; destruct (str_eq_dec left_ []) as [E|E].
  { injection H as <-; auto. }
  destruct (contains package_ left_) eqn:E1.
  { injection H as <-; auto. }
  destruct (contains left_ [c_dot]) eqn:E2; cbn [negb] in H.
  - apply (IH full_key) in H; [exact H|].
    destruct Hsuf as [pre ->].
    exists (pre ++ firstn (Z.to_nat (clamp (len left_)
                                       (find left_ [c_dot] + 1))) left_).
    unfold slice_from; now rewrite <- app_assoc, firstn_skipn.
  - injection H as <-; split; [exact Hsuf|]; right; right.
    unfold contains, find in E2; apply Z.leb_gt in E2.
    destruct (find_from_chr c_dot left_ 0)
      as [[_ Hno]|(pre & post & _ & _ & Hr)]; [exact Hno|].
    pose proof (len_nonneg pre); lia.
Qed.

(** X6: for a package that is a string, [_find_root] returns; the dotted
    root path behind a leading dot is the result followed by the text
    [left] the loop stopped at, and [left] is empty, or occurs in the
    package, or has no dot. *)
Theorem find_root_splits_key (full_key package_ : str) :
  exists r left_,
    Reconcile._find_root full_key (Some package_) = Ok r
    /\ c_dot :: full_key = r ++ left_
    /\ (left_ = [] \/ contains package_ left_ = true \/ ~ In c_dot left_).
Proof.
  unfold Reconcile._find_root.
  destruct (find_root_loop_terminates package_ (S (List.length full_key))
              full_key ltac:(lia)) as [left_ E].
  rewrite E; cbn [bind].
  destruct (find_root_loop_spec package_ _ full_key full_key left_ E
              ltac:(now exists []))
    as [[pre Hpre] Hleft].
  exists (c_dot :: slice full_key 0 (rfind full_key left_)), left_.
  split; [reflexivity|]; split; [|exact Hleft].
  rewrite slice_0; unfold rfind.
  assert (Hr : rfind_from left_ full_key 0 = len pre)
    by (rewrite Hpre, (rfind_from_suffix pre left_ 0) by lia; lia).
  rewrite Hr.
  assert (Hc : clamp (len full_key) (len pre) = len pre).
  { rewrite Hpre, len_app; unfold clamp.
    pose proof (len_nonneg pre); pose proof (len_nonneg left_).
    destruct (len pre <? 0) eqn:E0; [apply Z.ltb_lt in E0; lia | lia]. }
  rewrite Hc; unfold len; rewrite Nat2Z.id.
  rewrite Hpre at 2; rewrite firstn_app, firstn_all, Nat.sub_diag.
  cbn [firstn app]; rewrite app_nil_r; now rewrite Hpre at 1.
Qed.

(** ** What a reconciliation keeps *)

Lemma replace_chr_absent (a b : ascii) (s : str) :
  a <> b -> ~ In a (replace_chr a b s).
Proof.
  intros Hab Hin; unfold replace_chr in Hin.
  apply in_map_iff in Hin as (c & Hc & _).
  unfold chr_eqb in Hc; destruct (Ascii.eqb c a) eqn:E; [congruence|].
  apply Ascii.eqb_neq in E; congruence.
Qed.

Lemma repair_ns_colon (package_ : option str) (mappings : dict str)
    (ns : str) :
  Reconcile._repair_ns package_ mappings = Ok ns -> In c_colon ns.
Proof.
  unfold Reconcile._repair_ns; destruct package_ as [p|]; [|discriminate].
  destruct (Reconcile.repair_ns_loop _ p None mappings) as [[f ix]|];
    cbn [bind]; [|discriminate].
  destruct ix as [i|]; [|discriminate].
  destruct (dict_get mappings f) as [fp|]; [|discriminate].
  intros H; injection H as <-.
  apply in_or_app; left; apply in_or_app; right; now left.
Qed.

Lemma repair_class_keeps (mappings : dict str) (c c' : DotClassInfo) :
  Reconcile.repair_class mappings c = Ok c' ->
  ci_name c' = ci_name c /\ attributes c' = attributes c
  /\ methods c' = methods c /\ ci_compositions c' = ci_compositions c
  /\ ci_aggregations c' = ci_aggregations c
  /\ exists ns, package c' = Some ns /\ In c_colon ns.
Proof.
  unfold Reconcile.repair_class.
  destruct (Reconcile._repair_ns (package c) mappings) as [ns|] eqn:E;
    cbn [bind]; [|discriminate].
  intros H; injection H as <-; cbn.
  repeat split; exists ns; split; [reflexivity|].
  now apply repair_ns_colon in E.
Qed.

Lemma repair_relationship_keeps (mappings : dict str)
    (v v' : DotClassRelationship) :
  Reconcile.repair_relationship mappings v = Ok v' ->
  relationship v' = relationship v /\ label v' = label v
  /\ In c_colon (src v') /\ In c_colon (dest v').
Proof.
  unfold Reconcile.repair_relationship.
  destruct (Reconcile._repair_ns (Some (src v)) mappings) as [s|] eqn:Es;
    cbn [bind]; [|discriminate].
  destruct (Reconcile._repair_ns (Some (dest v)) mappings) as [d|] eqn:Ed;
    cbn [bind]; [|discriminate].
  intros H; injection H as <-; cbn.
  repeat split; [now apply repair_ns_colon in Es|].
  now apply repair_ns_colon in Ed.
Qed.

(** X7: a reconciliation that succeeds on a graph with a class keeps the
    number and order of classes and relationships and changes nothing
    but identifiers: a class keeps its name, attributes, methods,
    compositions and aggregations, a relationship its kind and label;
    every new package and edge endpoint holds a colon; the root path
    returned starts with a slash and holds no dot. *)
Theorem repair_namespaces_keeps (cs : list DotClassInfo)
    (rs : list DotClassRelationship) (root : entry)
    (cs' : list DotClassInfo) (rs' : list DotClassRelationship)
    (rp : str) :
  cs <> [] ->
  Reconcile._repair_namespaces cs rs root = Ok (cs', rs', rp) ->
  Forall2
    (fun c c' =>
       ci_name c' = ci_name c /\ attributes c' = attributes c
       /\ methods c' = methods c /\ ci_compositions c' = ci_compositions c
       /\ ci_aggregations c' = ci_aggregations c
       /\ exists ns, package c' = Some ns /\ In c_colon ns) cs cs'
  /\ Forall2
       (fun v v' =>
          relationship v' = relationship v /\ label v' = label v
          /\ In c_colon (src v') /\ In c_colon (dest v')) rs rs'
  /\ (exists t, rp = c_slash :: t) /\ ~ In c_dot rp.
Proof.
  intros Hne; unfold Reconcile._repair_namespaces.
  destruct cs as [|c0 cs0]; [congruence|].
  destruct (Reconcile._find_root _ (package c0)) as [root_ns|] eqn:Ef;
    cbn [bind]; [|discriminate].
  match goal with
  | |- context [mapM (Reconcile.repair_class ?m)] =>
      set (new_mappings := m)
  end.
  destruct (mapM (Reconcile.repair_class new_mappings)
              (c0 :: cs0)) as [cs1|] eqn:Ec; cbn [bind]; [|discriminate].
  destruct (mapM (Reconcile.repair_relationship new_mappings)
              rs) as [rs1|] eqn:Er; cbn [bind]; [|discriminate].
  intros H; injection H as <- <- <-; split; [|split].
  - apply (mapM_Forall2 _ _ _ (repair_class_keeps new_mappings) _ Ec).
  - apply (mapM_Forall2 _ _ _ (repair_relationship_keeps new_mappings)
             _ Er).
  - split; [|apply replace_chr_absent; discriminate].
    unfold Reconcile._find_root in Ef.
    match type of Ef with
    | bind ?m _ = _ => destruct m as [l|]; cbn [bind] in Ef; [|discriminate]
    end.
    injection Ef as <-; cbn [replace_chr map].
    eexists; reflexivity.
Qed.

Lemma repair_namespaces_keeps_witness :
  Forall2
    (fun c c' =>
       ci_name c' = ci_name c /\ attributes c' = attributes c
       /\ methods c' = methods c /\ ci_compositions c' = ci_compositions c
       /\ ci_aggregations c' = ci_aggregations c
       /\ exists ns, package c' = Some ns /\ In c_colon ns)
    sample_views sample_views_once
  /\ Forall2
       (fun v v' =>
          relationship v' = relationship v /\ label v' = label v
          /\ In c_colon (src v') /\ In c_colon (dest v'))
       sample_edges sample_edges_once
  /\ (exists t, sample_root_path = c_slash :: t)
  /\ ~ In c_dot sample_root_path.
Proof.
  apply (repair_namespaces_keeps sample_views sample_edges sample_tree
           sample_views_once sample_edges_once sample_root_path).
  - discriminate.
  - vm_compute; reflexivity.
Defined.

(** ** What the extraction of a file holds *)

Lemma extract_loop_contents (tree : list stmt) :
  forall fi0 fi w,
    RepoParser.extract_loop tree fi0 = (Ok fi, w) ->
    file fi = file fi0
    /\ classes fi = classes fi0 ++ class_entries tree
    /\ functions fi = functions fi0 ++ RepoParser.func_names tree
    /\ globals fi = globals fi0 ++ global_names tree
    /\ page_info fi = page_info fi0 ++ blocks tree.
Proof.
  induction tree as [|node tree IH]; intros fi0 fi w H.
  - cbn in H; injection H as <- _; cbn; now rewrite !app_nil_r.
  - cbn [RepoParser.extract_loop] in H.
    unfold RepoParser.extract_step in H.
    unfold class_entries, RepoParser.func_names, global_names, blocks.
    cbn [flat_map].
    fold (class_entries tree) (RepoParser.func_names tree)
      (global_names tree) (blocks tree).
    destruct (RepoParser.node_to_str node) as [[info|e] w0];
      [|discriminate].
    match type of H with
    | context [RepoParser.extract_loop tree ?f] =>
        destruct (RepoParser.extract_loop tree f) as [r w'] eqn:E
    end.
    injection H as -> _.
    apply IH in E as (H1 & H2 & H3 & H4 & H5).
    rewrite H1, H2, H3, H4, H5; cbn [fst].
    destruct info as [b|]; destruct (node_of node); cbn;
      rewrite <- ?app_assoc, ?app_nil_r; cbn [app]; auto.
Qed.

(** X8: when the extraction of a file returns, its record holds the
    path of the file relative to the base directory and, in the order of
    the top-level statements, the classes with the names of their
    methods, the names of the functions, the names assigned at top
    level, and the blocks that [node_to_str] returns. *)
Theorem extract_contents (path : Type) (relative_to_base : path -> str)
    (tree : list stmt) (file_path : path) (fi : RepoFileInfo)
    (w : list warning) :
  RepoParser.extract_class_and_function_info path relative_to_base tree
    file_path = (Ok fi, w) ->
  file fi = relative_to_base file_path
  /\ classes fi = class_entries tree
  /\ functions fi = RepoParser.func_names tree
  /\ globals fi = global_names tree
  /\ page_info fi = blocks tree.
Proof.
  unfold RepoParser.extract_class_and_function_info; intros H.
  apply extract_loop_contents in H; exact H.
Qed.

Lemma extract_contents_witness :
  exists fi w,
    RepoParser.extract_class_and_function_info str (fun p => p)
      sample_module (py "m.py") = (Ok fi, w)
    /\ classes fi = [(py "A", [py "run"])]
    /\ functions fi = [py "main"]
    /\ globals fi = [py "x"]
    /\ List.length (page_info fi) = 4%nat
    /\ file fi = py "m.py"
    /\ classes fi = class_entries sample_module
    /\ functions fi = RepoParser.func_names sample_module
    /\ globals fi = global_names sample_module
    /\ page_info fi = blocks sample_module.
Proof.
  eexists; eexists; split; [vm_compute; reflexivity|].
  do 4 (split; [reflexivity|]).
  eapply (extract_contents str (fun p => p) sample_module (py "m.py")).
  vm_compute; reflexivity.
Defined.

Lemma symbols_of_per_file (path : Type) (relative_to_base : path -> str)
    (read_text : path -> result str) (ast_parse : str -> result (list stmt))
    (files : list path) :
  forall infos,
    fst (RepoParser.symbols_of path relative_to_base read_text ast_parse
           files []) = Ok infos ->
    Forall2
      (fun p fi =>
         fst (RepoParser.extract_class_and_function_info path
                relative_to_base
                (fst (RepoParser._parse_file path read_text ast_parse p)) p)
         = Ok fi
         /\ file fi = relative_to_base p) files infos.
Proof.
  induction files as [|p rest IH]; intros infos H.
  - cbn in H; injection H as <-; constructor.
  - rewrite symbols_of_cons in H.
    destruct (fst (RepoParser.extract_class_and_function_info path
                     relative_to_base
                     (fst (RepoParser._parse_file path read_text ast_parse p))
                     p)) as [fi|e] eqn:E; [|discriminate].
    rewrite symbols_of_acc in H.
    destruct (fst (RepoParser.symbols_of path relative_to_base read_text
                     ast_parse rest [])) as [infos'|] eqn:E';
      [|discriminate].
    injection H as <-; cbn [app]; constructor; [|now apply IH].
    split; [exact E|].
    destruct (RepoParser.extract_class_and_function_info path
                relative_to_base
                (fst (RepoParser._parse_file path read_text ast_parse p)) p)
      as [r w] eqn:E0.
    cbn [fst] in E; subst r.
    unfold RepoParser.extract_class_and_function_info in E0.
    apply extract_loop_contents in E0 as [E0 _]; exact E0.
Qed.

(** X9: when [generate_symbols] returns, its list has one record for
    every file that the walk yields, the [*.py] files first and the
    [*.js] files behind them, each in the order of the walk; the record
    of a file is the extraction of its statements and carries its
    relative path. *)
Theorem generate_symbols_per_file (path : Type) (rglob : str -> list path)
    (relative_to_base : path -> str) (read_text : path -> result str)
    (ast_parse : str -> result (list stmt)) (infos : list RepoFileInfo) :
  fst (RepoParser.generate_symbols path rglob relative_to_base read_text
         ast_parse) = Ok infos ->
  Forall2
    (fun p fi =>
       fst (RepoParser.extract_class_and_function_info path relative_to_base
              (fst (RepoParser._parse_file path read_text ast_parse p)) p)
       = Ok fi
       /\ file fi = relative_to_base p)
    (rglob (py "*.py") ++ rglob (py "*.js")) infos.
Proof.
  unfold RepoParser.generate_symbols; cbn [flat_map].
  rewrite app_nil_r; apply symbols_of_per_file.
Qed.

Lemma generate_symbols_per_file_witness :
  exists infos,
    fst (RepoParser.generate_symbols str sample_rglob (fun p => p)
           sample_read_text sample_ast_parse) = Ok infos
    /\ List.length infos = 3%nat
    /\ Forall2
         (fun p fi =>
            fst (RepoParser.extract_class_and_function_info str (fun p => p)
                   (fst (RepoParser._parse_file str sample_read_text
                           sample_ast_parse p)) p)
            = Ok fi
            /\ file fi = p)
         (sample_rglob (py "*.py") ++ sample_rglob (py "*.js")) infos.
Proof.
  eexists; split; [vm_compute; reflexivity|].
  split; [reflexivity|].
  apply (generate_symbols_per_file str sample_rglob (fun p => p)
           sample_read_text sample_ast_parse).
  vm_compute; reflexivity.
Defined.



(** ** The fields of an attribute *)

Lemma colon_first_snoc (v : str) (c : ascii) :
  colon_first v = true -> c <> c_equals \/ In c_colon v ->
  colon_first (v ++ [c]) = true.
Proof.
  induction v as [|x v IH]; intros H Hc; cbn [app colon_first] in *.
  - unfold chr_eqb; destruct (Ascii.eqb c c_colon); [reflexivity|].
    destruct (Ascii.eqb c c_equals) eqn:E; [|reflexivity].
    apply Ascii.eqb_eq in E; destruct Hc as [Hc|[]]; contradiction.
  - unfold chr_eqb in *; destruct (Ascii.eqb x c_colon) eqn:E1;
      [reflexivity|].
    destruct (Ascii.eqb x c_equals); [discriminate|].
    apply IH; [exact H|].
    destruct Hc as [Hc|[Hc|Hc]]; auto.
    apply Ascii.eqb_neq in E1; congruence.
Qed.

Lemma colon_first_prefix (pre post : str) :
  colon_first (pre ++ c_colon :: post) = true ->
  ~ In c_colon pre -> ~ In c_equals pre.
Proof.
  induction pre as [|x pre IH]; intros H Hno; [intros []|].
  cbn [app colon_first] in H; unfold chr_eqb in H.
  destruct (Ascii.eqb x c_colon) eqn:E1.
  { apply Ascii.eqb_eq in E1; exfalso; apply Hno; now left. }
  destruct (Ascii.eqb x c_equals) eqn:E2; [discriminate|].
  apply Ascii.eqb_neq in E2.
  intros [Hx|Hx]; [congruence|].
  apply IH in H; [contradiction|].
  intros Hin; apply Hno; now right.
Qed.

Lemma scan_inv (v : str) :
  forall val mc me val' mc' me',
    fold_left DotClassAttribute.scan_step v (val, mc, me) = (val', mc', me') ->
    colon_first val = true -> (mc = true <-> In c_colon val) ->
    colon_first val' = true /\ (mc' = true <-> In c_colon val').
Proof.
  induction v as [|c v IH]; intros val mc me val' mc' me' H Hc Hm;
    cbn [fold_left] in H; [injection H as <- <- _; now split|].
  revert H; unfold DotClassAttribute.scan_step at 2; unfold chr_eqb.
  destruct (Ascii.eqb c c_colon) eqn:E1.
  { apply Ascii.eqb_eq in E1; subst c; intros H; apply IH in H; [exact H| |].
    - apply colon_first_snoc; [exact Hc | left; discriminate].
    - split; [intros _; apply in_or_app; right; now left | reflexivity]. }
  apply Ascii.eqb_neq in E1.
  destruct (Ascii.eqb c c_equals) eqn:E2.
  { apply Ascii.eqb_eq in E2; subst c; destruct mc; intros H;
      apply IH in H; try exact H.
    - apply colon_first_snoc; [exact Hc | right; now apply Hm].
    - split; [intros _; apply in_or_app; left; now apply Hm | reflexivity].
    - apply colon_first_snoc;
        [apply colon_first_snoc; [exact Hc | left; discriminate]|].
      right; apply in_or_app; right; now left.
    - split; [intros _|reflexivity].
      apply in_or_app; left; apply in_or_app; right; now left. }
  apply Ascii.eqb_neq in E2; intros H; apply IH in H; [exact H| |].
  - apply colon_first_snoc; [exact Hc | now left].
  - rewrite in_app_iff; cbn [In]; rewrite Hm; intuition congruence.
Qed.

Lemma In_lstrip (x : ascii) (s : str) : In x (lstrip s) -> In x s.
Proof.
  induction s as [|c s IH]; cbn [lstrip]; [tauto|].
  destruct (is_space c); [intros H; right; now apply IH | tauto].
Qed.

Lemma In_strip (x : ascii) (s : str) : In x (strip s) -> In x s.
Proof.
  unfold strip, rstrip; intros H.
  apply In_lstrip; apply in_rev in H; apply In_lstrip in H.
  now apply in_rev in H.
Qed.

Lemma slice_prefix (pre rest : str) :
  slice (pre ++ rest) 0 (len pre) = pre.
Proof.
  rewrite slice_0.
  assert (Hc : clamp (len (pre ++ rest)) (len pre) = len pre).
  { rewrite len_app; unfold clamp.
    pose proof (len_nonneg pre); pose proof (len_nonneg rest).
    destruct (len pre <? 0) eqn:E0; [apply Z.ltb_lt in E0; lia | lia]. }
  rewrite Hc; unfold len; rewrite Nat2Z.id, firstn_app, firstn_all.
  rewrite Nat.sub_diag; cbn [firstn]; now rewrite app_nil_r.
Qed.

Lemma name_part_clean (val : str) :
  colon_first val = true -> In c_colon val ->
  let name := strip (slice val 0 (find val [c_colon])) in
  ~ In c_colon name /\ ~ In c_equals name.
Proof.
  intros Hc Hin; unfold find.
  destruct (find_from_chr c_colon val 0)
    as [[_ Hno]|(pre & post & -> & Hno & Hr)]; [contradiction|].
  rewrite Hr, Z.add_0_l, slice_prefix.
  split; intros H; apply In_strip in H; [contradiction|].
  now apply (colon_first_prefix pre post Hc Hno).
Qed.

(** [rfind] of one character answers the place of its last occurrence. *)
Lemma rfind_from_chr_last (c : ascii) (s : str) :
  forall k, 0 <= k -> 0 <= rfind_from [c] s k ->
    exists pre post, s = pre ++ c :: post /\ ~ In c post
                     /\ rfind_from [c] s k = k + len pre.
Proof.
  induction s as [|x s IH]; intros k Hk H; cbn [rfind_from] in *.
  - cbn in H; lia.
  - destruct (0 <=? rfind_from [c] s (k + 1)) eqn:E.
    + apply Z.leb_le in E.
      destruct (IH (k + 1) ltac:(lia) E) as (pre & post & -> & Hno & Hr).
      exists (x :: pre), post; split; [reflexivity|]; split; [exact Hno|].
      rewrite Hr; unfold len; cbn [List.length]; lia.
    + apply Z.leb_gt in E.
      cbn [startswith] in *; rewrite startswith_nil, andb_true_r in *.
      unfold chr_eqb in *; destruct (Ascii.eqb c x) eqn:E1; [|lia].
      apply Ascii.eqb_eq in E1; subst x.
      exists [], s; split; [reflexivity|]; split; [|unfold len; cbn; lia].
      destruct (rfind_from_bounds [c] s (k + 1) ltac:(lia)) as [H1|H1];
        [|lia].
      now apply (rfind_from_chr_none c s (k + 1) ltac:(lia)).
Qed.

Lemma default_part_clean (val : str) :
  ~ In c_equals (strip (slice_from val (rfind val [c_equals] + 1))).
Proof.
  intros H; apply In_strip in H; revert H; unfold rfind.
  destruct (rfind_from_bounds [c_equals] val 0 ltac:(lia)) as [H0|H0].
  - rewrite H0; intros H; apply In_slice_from in H.
    now apply (rfind_from_chr_none c_equals val 0 ltac:(lia) H0).
  - destruct (rfind_from_chr_last c_equals val 0 ltac:(lia) ltac:(lia))
      as (pre & post & -> & Hno & Hr).
    rewrite Hr, Z.add_0_l; unfold slice_from, clamp.
    pose proof (len_nonneg pre); pose proof (len_nonneg post).
    destruct (len pre + 1 <? 0) eqn:E; [apply Z.ltb_lt in E; lia|].
    replace (Z.to_nat (Z.min (len pre + 1)
                         (len (pre ++ c_equals :: post))))
      with (S (List.length pre)).
    + now rewrite skipn_after.
    + rewrite len_app; unfold len; cbn [List.length]; lia.
Qed.

Lemma split_literal_chars (t : str) (p l q : str) :
  DotClassAttribute._split_literal t = Ok (p, l, q) ->
  forall c, In c ((p ++ l) ++ q) -> In c t.
Proof.
  unfold DotClassAttribute._split_literal.
  destruct (DotClassAttribute.split_literal_loop _ _ _ _) as [eix|];
    cbn [bind]; [|discriminate].
  intros H; injection H as <- <- <-; intros c Hc.
  unfold remove_quotes in Hc.
  apply in_app_or in Hc as [Hc|Hc]; [apply in_app_or in Hc as [Hc|Hc]|].
  - apply filter_In in Hc as [Hc _]; now apply In_slice in Hc.
  - now apply In_slice in Hc.
  - apply filter_In in Hc as [Hc _]; now apply In_slice_from in Hc.
Qed.

(** X11: in an attribute that [DotClassAttribute.parse] returns, the
    name holds neither a colon nor an equals sign, the type holds no
    white space, and the default value holds no equals sign and is not
    the text [None]. *)
Theorem attribute_fields (set_order : pyset -> list str) (v : str)
    (a : DotClassAttribute.t) :
  DotClassAttribute.parse set_order v = Ok a ->
  ~ In c_colon (DotClassAttribute.name a)
  /\ ~ In c_equals (DotClassAttribute.name a)
  /\ (forall c, In c (DotClassAttribute.type_ a) -> is_space c = false)
  /\ ~ In c_equals (DotClassAttribute.default_ a)
  /\ DotClassAttribute.default_ a <> py "None".
Proof.
  unfold DotClassAttribute.parse.
  destruct (fold_left DotClassAttribute.scan_step v ([], false, false))
    as [[val mc] me] eqn:Ef.
  apply scan_inv in Ef as [Hc Hm];
    [|reflexivity | split; [discriminate | intros []]].
  set (val1 := if mc then val else val ++ [c_colon]).
  assert (H1 : colon_first val1 = true /\ In c_colon val1).
  { subst val1; destruct mc.
    - split; [exact Hc | now apply Hm].
    - split; [apply colon_first_snoc; [exact Hc | left; discriminate]|].
      apply in_or_app; right; now left. }
  set (val2 := if me then val1 else val1 ++ [c_equals]).
  assert (H2 : colon_first val2 = true /\ In c_colon val2).
  { subst val2; destruct me; [exact H1|]; destruct H1 as [H1 H1'].
    split; [apply colon_first_snoc; [exact H1 | now right]|].
    apply in_or_app; now left. }
  destruct (name_part_clean val2 (proj1 H2) (proj2 H2)) as [Hn1 Hn2].
  pose proof (default_part_clean val2) as Hd.
  set (t0 := DotClassAttribute.remove_white_spaces
               (slice val2 (find val2 [c_colon] + 1)
                  (rfind val2 [c_equals]))).
  set (t := if str_eqb t0 (py "NoneType") then [] else t0).
  assert (Ht : forall c, In c t -> is_space c = false).
  { intros c Hin; subst t; destruct (str_eqb t0 (py "NoneType"));
      [destruct Hin|].
    subst t0; rewrite remove_white_spaces_eq in Hin.
    apply filter_In in Hin as [_ Hin]; now destruct (is_space c). }
  set (d := strip (slice_from val2 (rfind val2 [c_equals] + 1))) in *.
  assert (Hdef : ~ In c_equals (if str_eqb d (py "None") then [] else d)
                 /\ (if str_eqb d (py "None") then [] else d) <> py "None").
  { unfold str_eqb; destruct (str_eq_dec d (py "None"));
      [split; [intros [] | discriminate] | split; assumption]. }
  destruct (contains t (py "Literal[")).
  - destruct (DotClassAttribute._split_literal t) as [[[p l] q]|e] eqn:El;
      cbn [bind]; [|discriminate].
    intros H; injection H as <-; cbn.
    repeat split; try tauto.
    intros c Hin; apply Ht; now apply (split_literal_chars t p l q El).
  - cbn [bind]; intros H; injection H as <-; cbn.
    repeat split; try tauto.
    intros c Hin; apply Ht; unfold remove_quotes in Hin.
    now apply filter_In in Hin as [Hin _].
Qed.

Lemma attribute_fields_witness :
  exists a,
    DotClassAttribute.parse insertion_order (py "x = 3: y") = Ok a
    /\ DotClassAttribute.name a = py "x"
    /\ DotClassAttribute.type_ a = []
    /\ DotClassAttribute.default_ a = py "3: y"
    /\ ~ In c_colon (DotClassAttribute.name a)
    /\ ~ In c_equals (DotClassAttribute.name a)
    /\ (forall c, In c (DotClassAttribute.type_ a) -> is_space c = false)
    /\ ~ In c_equals (DotClassAttribute.default_ a)
    /\ DotClassAttribute.default_ a <> py "None".
Proof.
  eexists; split; [vm_compute; reflexivity|].
  do 3 (split; [reflexivity|]).
  apply (attribute_fields insertion_order (py "x = 3: y")).
  vm_compute; reflexivity.
Defined.

(** ** The aggregations of a method *)

Lemma mapM_In {A B} (f : A -> result B) (l : list A) :
  forall ys y, mapM f l = Ok ys -> In y ys ->
    exists x, In x l /\ f x = Ok y.
Proof.
  induction l as [|x l IH]; intros ys y H Hy; cbn [mapM] in H.
  - injection H as <-; destruct Hy.
  - destruct (f x) as [y0|] eqn:E; cbn [bind] in H; [|discriminate].
    destruct (mapM f l) as [ys0|]; cbn [bind] in H; [|discriminate].
    injection H as <-; destruct Hy as [<-|Hy].
    + exists x; split; [now left | exact E].
    + destruct (IH ys0 y eq_refl Hy) as (x0 & H1 & H2).
      exists x0; split; [now right | exact H2].
Qed.

Lemma method_args_parsed (set_order : pyset -> list str) (v : str)
    (m : DotClassMethod.t) :
  DotClassMethod.parse set_order v = Ok m ->
  forall a, In a (DotClassMethod.args m) ->
    exists p, p <> [] /\ DotClassAttribute.parse set_order p = Ok a.
Proof.
  unfold DotClassMethod.parse.
  destruct (DotClassMethod._parse_args set_order _) as [args|] eqn:E;
    cbn [bind]; [|discriminate].
  intros H; injection H as <-; cbn [DotClassMethod.args]; intros a Ha.
  unfold DotClassMethod._parse_args in E.
  destruct (str_eqb _ []); [injection E as <-; destruct Ha|].
  destruct (DotClassMethod.parse_args_loop _ _ _ _ _) as [[parts bix]|];
    cbn [bind] in E; [|discriminate].
  destruct (mapM_In _ _ _ a E Ha) as (p & Hp & Hpa).
  apply filter_In in Hp as [_ Hp].
  exists p; split; [|exact Hpa].
  apply str_eqb_false; now destruct (str_eqb p []).
Qed.

Lemma method_return_parsed (set_order : pyset -> list str) (v : str)
    (m : DotClassMethod.t) (r : DotReturn.t) :
  DotClassMethod.parse set_order v = Ok m ->
  DotClassMethod.return_args m = Some r ->
  exists t, r = DotReturn.parse set_order t.
Proof.
  unfold DotClassMethod.parse.
  destruct (DotClassMethod._parse_args set_order _) as [args|];
    cbn [bind]; [|discriminate].
  intros H; injection H as <-; cbn [DotClassMethod.return_args].
  intros H; injection H as <-; eauto.
Qed.

(** X12: the aggregations of a parsed method are free of duplicates and
    are, as a set, the compositions of its arguments and of its return
    value; none of them is empty or one of the filtered built-in type
    names; and every argument descriptor comes from a part of the
    argument list that is not empty. *)
Theorem method_aggregations_set (set_order : pyset -> list str) (v : str)
    (m : DotClassMethod.t) :
  set_order_ok set_order ->
  DotClassMethod.parse set_order v = Ok m ->
  NoDup (DotClassMethod.aggregations m)
  /\ (forall x,
        In x (DotClassMethod.aggregations m)
        <-> (exists a, In a (DotClassMethod.args m)
                       /\ In x (DotClassAttribute.compositions a))
            \/ (exists r, DotClassMethod.return_args m = Some r
                          /\ In x (DotReturn.compositions r)))
  /\ (forall x, In x (DotClassMethod.aggregations m) ->
                x <> [] /\ ~ In x DotClassAttribute.filters)
  /\ (forall a, In a (DotClassMethod.args m) ->
                DotClassAttribute.description a <> []).
Proof.
  intros Hok H.
  destruct (method_aggregations_union set_order v m Hok H) as [Hn Hiff].
  split; [exact Hn|]; split; [exact Hiff|]; split.
  - intros x Hx; apply Hiff in Hx as [(a & Ha & Hx)|(r & Hr & Hx)].
    + destruct (method_args_parsed set_order v m H a Ha) as (p & _ & Hp).
      apply attribute_parse_compositions in Hp as [cv Hcv].
      rewrite Hcv in Hx.
      now apply (parse_compositions_spec set_order cv Hok).
    + destruct (method_return_parsed set_order v m r H Hr) as [t ->].
      unfold DotReturn.parse in Hx; destruct (str_eqb t []);
        cbn [DotReturn.compositions] in Hx; [destruct Hx|].
      now apply (parse_compositions_spec set_order _ Hok) in Hx.
  - intros a Ha.
    destruct (method_args_parsed set_order v m H a Ha) as (p & Hne & Hp).
    destruct (attribute_parse_ok set_order p) as (a' & Ha' & Hd).
    rewrite Hp in Ha'; injection Ha' as <-; now rewrite Hd.
Qed.

Lemma method_aggregations_set_witness :
  exists m,
    DotClassMethod.parse insertion_order (py "f(a: Foo, , b: int): Bar")
    = Ok m
    /\ List.length (DotClassMethod.args m) = 2%nat
    /\ DotClassMethod.aggregations m = [py "Foo"; py "Bar"]
    /\ NoDup (DotClassMethod.aggregations m)
    /\ (forall x,
          In x (DotClassMethod.aggregations m)
          <-> (exists a, In a (DotClassMethod.args m)
                         /\ In x (DotClassAttribute.compositions a))
              \/ (exists r, DotClassMethod.return_args m = Some r
                            /\ In x (DotReturn.compositions r)))
    /\ (forall x, In x (DotClassMethod.aggregations m) ->
                  x <> [] /\ ~ In x DotClassAttribute.filters)
    /\ (forall a, In a (DotClassMethod.args m) ->
                  DotClassAttribute.description a <> []).
Proof.
  eexists; split; [vm_compute; reflexivity|].
  do 2 (split; [reflexivity|]).
  apply (method_aggregations_set insertion_order
           (py "f(a: Foo, , b: int): Bar") _ insertion_order_ok).
  vm_compute; reflexivity.
Defined.

(** ** The shape of a class node *)

Lemma mem_false (x : str) (l : list str) : mem x l = false -> ~ In x l.
Proof. intros H Hin; apply mem_In in Hin; congruence. Qed.

Lemma NoDup_snoc (x : str) (l : list str) :
  NoDup l -> ~ In x l -> NoDup (l ++ [x]).
Proof.
  intros Hl Hx; apply NoDup_app; [assumption | repeat constructor; intros [] |].
  intros y Hy [<-|[]]; contradiction.
Qed.

Lemma add_compositions_NoDup (new lst : list str) :
  NoDup lst -> NoDup (Ingest.add_compositions lst new).
Proof.
  unfold Ingest.add_compositions; revert lst.
  induction new as [|i new IH]; intros lst H; cbn [fold_left]; [assumption|].
  apply IH; destruct (mem i lst) eqn:E; [assumption|].
  apply NoDup_snoc; [assumption | now apply mem_false].
Qed.

Lemma add_aggregations_NoDup (compositions new lst : list str) :
  NoDup lst -> NoDup (Ingest.add_aggregations compositions lst new).
Proof.
  unfold Ingest.add_aggregations; revert lst.
  induction new as [|i new IH]; intros lst H; cbn [fold_left]; [assumption|].
  apply IH; destruct (mem i compositions); cbn [orb]; [assumption|].
  destruct (mem i lst) eqn:E; [assumption|].
  apply NoDup_snoc; [assumption | now apply mem_false].
Qed.

Lemma dict_set_item {V} (d : dict V) (k : str) (v : V) (kv : str * V) :
  In kv (dict_set d k v) -> kv = (k, v) \/ In kv d.
Proof.
  induction d as [|[k' v'] d IH]; cbn [dict_set]; intros H.
  - destruct H as [<-|[]]; now left.
  - unfold str_eqb in *; destruct (str_eq_dec k k') as [->|E].
    + destruct H as [<-|H]; [now left | right; now right].
    + destruct H as [<-|H]; [right; now left|].
      apply IH in H as [H|H]; [now left | right; now right].
Qed.

Lemma dict_set_keys {V} (d : dict V) (k : str) (v : V) :
  NoDup (map fst d) -> NoDup (map fst (dict_set d k v)).
Proof.
  induction d as [|[k' v'] d IH]; cbn [dict_set map fst]; intros H.
  - repeat constructor; intros [].
  - unfold str_eqb; destruct (str_eq_dec k k') as [->|E]; [exact H|].
    cbn [map fst]; inversion H as [|? ? Hk Hd]; subst.
    constructor; [|now apply IH].
    intros Hin; apply in_map_iff in Hin as ([k0 v0] & Hk0 & Hin).
    cbn [fst] in Hk0; subst k0.
    apply dict_set_item in Hin as [Hin|Hin]; [congruence|].
    apply Hk; apply in_map_iff; exists (k', v0); auto.
Qed.

Lemma parse_members_wf (set_order : pyset -> list str) (ms : list str) :
  forall c c',
    Ingest.parse_members set_order ms c = Ok c' ->
    class_wf c ->
    class_wf c' /\ package c' = package c /\ ci_name c' = ci_name c.
Proof.
  induction ms as [|m ms IH]; intros c c' H Hwf;
    cbn [Ingest.parse_members] in H.
  - injection H as <-; auto.
  - destruct (str_eqb m []); [now apply (IH c)|].
    destruct (DotClassAttribute.parse set_order m) as [attr|e];
      cbn [bind] in H; [|discriminate].
    apply IH in H as (H1 & H2 & H3); [auto|].
    destruct Hwf as (W1 & W2 & W3 & W4 & W5 & W6).
    unfold class_wf; cbn.
    split; [now apply add_compositions_NoDup|].
    split; [assumption|].
    split; [now apply dict_set_keys|].
    split; [assumption|].
    split; [|assumption].
    intros k a Hin; apply dict_set_item in Hin as [Hin|Hin];
      [now injection Hin as -> -> | now apply W5].
Qed.

Lemma parse_functions_wf (set_order : pyset -> list str) (fs : list str) :
  forall c c',
    Ingest.parse_functions set_order fs c = Ok c' ->
    class_wf c ->
    class_wf c' /\ package c' = package c /\ ci_name c' = ci_name c.
Proof.
  induction fs as [|f fs IH]; intros c c' H Hwf;
    cbn [Ingest.parse_functions] in H.
  - injection H as <-; auto.
  - destruct (str_eqb f []); [now apply (IH c)|].
    destruct (DotClassMethod.parse set_order f) as [method|e];
      cbn [bind] in H; [|discriminate].
    apply IH in H as (H1 & H2 & H3); [auto|].
    destruct Hwf as (W1 & W2 & W3 & W4 & W5 & W6).
    unfold class_wf; cbn.
    split; [assumption|].
    split; [now apply add_aggregations_NoDup|].
    split; [assumption|].
    split; [now apply dict_set_keys|].
    split; [assumption|].
    intros k a Hin; apply dict_set_item in Hin as [Hin|Hin];
      [now injection Hin as -> -> | now apply W6].
Qed.

Lemma parse_class_wf (set_order : pyset -> list str)
    (package_name info : str) (c : DotClassInfo) :
  Ingest.parse_class set_order package_name info = Ok c ->
  class_wf c /\ package c = Some package_name
  /\ exists members functions,
       Ingest.split_sections info = [ci_name c; members; functions].
Proof.
  unfold Ingest.parse_class.
  destruct (Ingest.split_sections info)
    as [|class_name [|members [|functions [|]]]]; try discriminate.
  cbn [ci_name package attributes methods ci_compositions ci_aggregations].
  destruct (Ingest.parse_members _ _ _) as [c1|e] eqn:E1; cbn [bind];
    [|discriminate].
  intros H.
  apply parse_members_wf in E1 as (W1 & P1 & N1).
  - apply parse_functions_wf in H as (W2 & P2 & N2); [|exact W1].
    cbn in P1, N1; split; [exact W2|]; split; [congruence|].
    exists members, functions; congruence.
  - unfold class_wf; cbn; repeat split; try constructor; intros ? ? [].
Qed.

Lemma split_class_line_name (line name info : str) :
  Ingest._split_class_line line = Some (name, info) -> ~ In c_dquote name.
Proof.
  unfold Ingest._split_class_line.
  destruct (negb (contains line _)); [discriminate|].
  destruct (negb (contains _ _) || negb (contains _ _)); [discriminate|].
  intros H; injection H as <- _; unfold remove_chr; intros Hin.
  apply filter_In in Hin as [_ Hin].
  unfold chr_eqb in Hin; now rewrite Ascii.eqb_refl in Hin.
Qed.

Lemma parse_class_lines_wf (set_order : pyset -> list str)
    (lines : list str) :
  forall acc views,
    Ingest.parse_class_lines set_order lines acc = Ok views ->
    let P c :=
      class_wf c
      /\ exists pkg, package c = Some pkg /\ pkg <> []
                     /\ ~ In c_dquote pkg in
    Forall P acc ->
    Forall P views
    /\ (List.length views <= List.length acc + List.length lines)%nat.
Proof.
  induction lines as [|line lines IH]; intros acc views H P Hacc;
    cbn [Ingest.parse_class_lines] in H.
  - injection H as <-; split; [assumption | lia].
  - cbn [List.length].
    destruct (Ingest._split_class_line line) as [[package_name info]|] eqn:El.
    2:{ apply IH in H; [|exact Hacc]; split; [apply H | lia]. }
    destruct (str_eqb package_name []) eqn:En.
    { apply IH in H; [|exact Hacc]; split; [apply H | lia]. }
    destruct (Ingest.parse_class set_order package_name info) as [c|e] eqn:E;
      cbn [bind] in H; [|discriminate].
    apply IH in H.
    + split; [apply H|]; destruct H as [_ H].
      rewrite length_app in H; cbn [List.length] in H; lia.
    + apply Forall_app; split; [assumption|].
      constructor; [|constructor].
      apply parse_class_wf in E as (W & Pk & _).
      split; [exact W|]; exists package_name; split; [exact Pk|].
      split; [now apply str_eqb_false|].
      now apply (split_class_line_name line package_name info).
Qed.

(** X13: [_parse_classes] returns at most one class per line of the
    diagram.  In every class it returns, the compositions, the
    aggregations, the attribute keys and the method keys are free of
    duplicates, every attribute and method stands under its own name,
    and the package is a string that is not empty and holds no double
    quote. *)
Theorem parse_classes_wf (set_order : pyset -> list str) (text : str)
    (views : list DotClassInfo) :
  Ingest._parse_classes set_order (Some text) = Ok views ->
  (List.length views <= List.length (split c_newline text))%nat
  /\ forall c, In c views ->
       class_wf c
       /\ exists pkg, package c = Some pkg /\ pkg <> []
                      /\ ~ In c_dquote pkg.
Proof.
  cbn [Ingest._parse_classes]; intros H.
  apply parse_class_lines_wf in H as [H1 H2]; [|constructor].
  split; [exact H2|].
  intros c Hc; rewrite Forall_forall in H1; now apply H1.
Qed.

Lemma parse_classes_wf_witness :
  Ingest._parse_classes insertion_order (Some sample_class_line)
  = Ok [sample_class]
  /\ (List.length [sample_class]
      <= List.length (split c_newline sample_class_line))%nat
  /\ forall c, In c [sample_class] ->
       class_wf c
       /\ exists pkg, package c = Some pkg /\ pkg <> []
                      /\ ~ In c_dquote pkg.
Proof.
  split; [vm_compute; reflexivity|].
  apply (parse_classes_wf insertion_order sample_class_line [sample_class]).
  vm_compute; reflexivity.
Defined.

(** ** The sections of a class label *)

Lemma join_cons (sep x y : str) (rest : list str) :
  join sep (x :: y :: rest) = (x ++ sep) ++ join sep (y :: rest).
Proof. reflexivity. Qed.

Lemma split_unescaped_cons (s : str) (prev : option ascii) (cur : str) :
  exists x rest, Ingest.split_unescaped s prev cur = x :: rest.
Proof.
  revert prev cur; induction s as [|c s IH]; intros prev cur;
    cbn [Ingest.split_unescaped]; [eauto|].
  destruct (chr_eqb c c_pipe && negb _); [eauto | apply IH].
Qed.

Lemma split_unescaped_join (s : str) :
  forall prev cur,
    join [c_pipe] (Ingest.split_unescaped s prev cur) = rev cur ++ s.
Proof.
  induction s as [|c s IH]; intros prev cur; cbn [Ingest.split_unescaped].
  - cbn [join]; now rewrite app_nil_r.
  - destruct (chr_eqb c c_pipe && negb _) eqn:E.
    + destruct (split_unescaped_cons s (Some c) []) as (x & rest & Hx).
      pose proof (IH (Some c) []) as Hj; rewrite Hx in *.
      rewrite join_cons, Hj; cbn [rev app].
      apply andb_true_iff in E as [E _]; apply Ascii.eqb_eq in E; subst c.
      now rewrite <- app_assoc.
    + rewrite IH; cbn [rev]; now rewrite <- app_assoc.
Qed.

Lemma last_cons_default {A} (a : A) (l : list A) (d d' : A) :
  last (a :: l) d = last (a :: l) d'.
Proof.
  revert a; induction l as [|b l IH]; intros a; [reflexivity|].
  change (last (a :: b :: l) d) with (last (b :: l) d).
  change (last (a :: b :: l) d') with (last (b :: l) d').
  apply IH.
Qed.

Lemma pipes_escaped_snoc (l : str) (c : ascii) :
  forall prev,
    pipes_escaped prev (l ++ [c])
    = pipes_escaped prev l
      && (negb (chr_eqb c c_pipe)
          || match last (map Some l) prev with
             | Some p => chr_eqb p c_backslash
             | None => false
             end).
Proof.
  induction l as [|x l IH]; intros prev; cbn [app pipes_escaped].
  - cbn; now rewrite andb_true_r.
  - rewrite IH, <- andb_assoc; do 3 f_equal.
    destruct l as [|a l]; [reflexivity|].
    change (last (map Some (x :: a :: l)) prev)
      with (last (Some a :: map Some l) prev).
    cbn [map]; now rewrite (last_cons_default (Some a) _ prev (Some x)).
Qed.

Lemma split_unescaped_escaped (s : str) :
  forall prev cur,
    pipes_escaped None (rev cur) = true ->
    match prev with Some p => chr_eqb p c_backslash | None => false end
    = match last (map Some (rev cur)) None with
      | Some p => chr_eqb p c_backslash
      | None => false
      end ->
    Forall (fun p => pipes_escaped None p = true)
      (Ingest.split_unescaped s prev cur).
Proof.
  induction s as [|c s IH]; intros prev cur Hc Hp;
    cbn [Ingest.split_unescaped]; [repeat constructor; exact Hc|].
  destruct (chr_eqb c c_pipe) eqn:E1; cbn [andb].
  - destruct (match prev with Some p => chr_eqb p c_backslash | None => false
              end) eqn:E2; cbn [negb].
    + apply IH.
      * cbn [rev]; rewrite pipes_escaped_snoc, Hc, <- Hp, orb_true_r.
        reflexivity.
      * cbn [rev]; rewrite map_app; cbn [map]; rewrite last_last.
        apply Ascii.eqb_eq in E1; subst c; reflexivity.
    + constructor; [exact Hc|]; apply IH; [reflexivity|].
      apply Ascii.eqb_eq in E1; subst c; reflexivity.
  - apply IH.
    + cbn [rev]; rewrite pipes_escaped_snoc, Hc.
      unfold chr_eqb in *; now rewrite E1.
    + cbn [rev]; rewrite map_app; cbn [map]; now rewrite last_last.
Qed.

(** X14: the sections into which [_parse_classes] splits the label of a
    class give the label back when they are joined by pipes, and every
    pipe left inside a section stands behind a backslash. *)
Theorem split_sections_join (info : str) :
  join [c_pipe] (Ingest.split_sections info) = info
  /\ Forall (fun p => pipes_escaped None p = true)
       (Ingest.split_sections info).
Proof.
  unfold Ingest.split_sections; split.
  - apply (split_unescaped_join info None []).
  - now apply split_unescaped_escaped.
Qed.

(** ** The mapping of a directory tree *)

Lemma entry_nested_ind (P : entry -> Prop) :
  (forall p, P (File p)) -> (forall p, P (Missing p)) ->
  (forall p es, Forall P es -> P (Dir p es)) ->
  forall e, P e.
Proof.
  intros HF HM HD.
  exact (fix IH (e : entry) : P e :=
           match e with
           | File p => HF p
           | Missing p => HM p
           | Dir p es =>
               HD p es
                 ((fix go (l : list entry) : Forall P l :=
                     match l with
                     | [] => Forall_nil P
                     | x :: t => Forall_cons x (IH x) (go t)
                     end) es)
           end).
Qed.

Lemma create_path_mapping_dir (p : str) (es : list entry) :
  Reconcile._create_path_mapping (Dir p es)
  = let '(m, files) := walk es [(Reconcile.dotted p, p)] [] in
    Reconcile.add_files m files.
Proof. reflexivity. Qed.

Lemma dict_get_set {V} (d : dict V) (k k' : str) (v : V) :
  dict_get (dict_set d k v) k'
  = if str_eqb k' k then Some v else dict_get d k'.
Proof.
  induction d as [|[k0 v0] d IH]; cbn [dict_set dict_get].
  - reflexivity.
  - unfold str_eqb in *.
    destruct (str_eq_dec k k0) as [->|E]; cbn [dict_get]; unfold str_eqb.
    + destruct (str_eq_dec k' k0); reflexivity.
    + destruct (str_eq_dec k' k0) as [->|E'].
      * destruct (str_eq_dec k0 k); [congruence | reflexivity].
      * exact IH.
Qed.

Lemma dict_set_mem {V} (d : dict V) (k k' : str) (v : V) :
  dict_mem k' d = true -> dict_mem k' (dict_set d k v) = true.
Proof.
  unfold dict_mem; rewrite dict_get_set.
  destruct (str_eqb k' k); [reflexivity | auto].
Qed.

Lemma mapping_ok_set (paths : list str) (root_key : str) (m : dict str)
    (k v : str) :
  mapping_ok paths root_key m -> In v paths ->
  k = Reconcile.dotted v
  \/ k = Reconcile.dotted (Reconcile.with_suffix_removed v) ->
  mapping_ok paths root_key (dict_set m k v).
Proof.
  intros (H1 & H2 & H3) Hv Hk; split; [now apply dict_set_keys|].
  split; [now apply dict_set_mem|].
  intros k0 v0 Hin; apply dict_set_item in Hin as [Hin|Hin];
    [injection Hin as -> ->; auto | now apply H3].
Qed.

Lemma mapping_ok_update (paths : list str) (root_key : str)
    (other : dict str) :
  (forall k v, In (k, v) other ->
     In v paths
     /\ (k = Reconcile.dotted v
         \/ k = Reconcile.dotted (Reconcile.with_suffix_removed v))) ->
  forall m, mapping_ok paths root_key m ->
            mapping_ok paths root_key (dict_update m other).
Proof.
  unfold dict_update; induction other as [|[k v] other IH];
    intros Ho m Hm; cbn [fold_left]; [exact Hm|].
  apply IH; [intros k0 v0 Hin; apply Ho; now right|].
  cbn [fst snd]; destruct (Ho k v ltac:(now left)) as [Hv Hk].
  now apply mapping_ok_set.
Qed.

Lemma add_files_ok (paths : list str) (root_key : str) (files : list str) :
  forall m, mapping_ok paths root_key m -> incl files paths ->
            mapping_ok paths root_key (Reconcile.add_files m files).
Proof.
  unfold Reconcile.add_files; induction files as [|f files IH];
    intros m Hm Hf; cbn [fold_left]; [exact Hm|].
  apply IH; [|intros x Hx; apply Hf; now right].
  apply mapping_ok_set; [exact Hm | apply Hf; now left | now right].
Qed.

Lemma walk_ok (paths : list str) (root_key : str) (es : list entry) :
  Forall (fun e => mapping_ok (all_paths e)
                     (Reconcile.dotted (entry_path e))
                     (Reconcile._create_path_mapping e)) es ->
  (forall e, In e es -> incl (all_paths e) paths) ->
  forall m files,
    mapping_ok paths root_key m -> incl files paths ->
    mapping_ok paths root_key (fst (walk es m files))
    /\ incl (snd (walk es m files)) paths.
Proof.
  induction es as [|e es IH]; intros Hes Hin m files Hm Hf;
    cbn [walk]; [now split|].
  inversion Hes as [|? ? He Hes']; subst.
  assert (Hin' : forall e0, In e0 es -> incl (all_paths e0) paths)
    by (intros e0 H0; apply Hin; now right).
  assert (Hsub : mapping_ok paths root_key
                   (dict_update m (Reconcile._create_path_mapping e))).
  { apply mapping_ok_update; [|exact Hm].
    intros k v Hkv; destruct He as (_ & _ & He).
    destruct (He k v Hkv) as [Hv Hk]; split; [|exact Hk].
    now apply (Hin e ltac:(now left)). }
  destruct e as [f|p sub|p].
  - apply IH; auto.
    intros x Hx; apply in_app_or in Hx as [Hx|[Hx|[]]]; [now apply Hf|].
    subst x; apply (Hin (File f) ltac:(now left)); now left.
  - now apply IH.
  - now apply IH.
Qed.

(** X15: in the mapping that [_create_path_mapping] builds for a
    directory tree the keys are distinct and the key of the root is
    among them; every value is the path of an entry of the tree, and its
    key is that path, or that path without its suffix, with the slashes
    turned into dots, so no key holds a slash. *)
Theorem create_path_mapping_ok (e : entry) :
  mapping_ok (all_paths e) (Reconcile.dotted (entry_path e))
    (Reconcile._create_path_mapping e)
  /\ forall k v, In (k, v) (Reconcile._create_path_mapping e) ->
                 ~ In c_slash k.
Proof.
  assert (H : mapping_ok (all_paths e) (Reconcile.dotted (entry_path e))
                (Reconcile._create_path_mapping e)).
  { induction e as [p|p|p es IH] using entry_nested_ind.
    - cbn; unfold mapping_ok, dict_mem; cbn.
      unfold str_eqb; destruct (str_eq_dec _ _); [|contradiction].
      split; [repeat constructor; intros []|]; split; [reflexivity|].
      intros k v [Hkv|[]]; injection Hkv as <- <-; auto.
    - cbn; unfold mapping_ok, dict_mem; cbn.
      unfold str_eqb; destruct (str_eq_dec _ _); [|contradiction].
      split; [repeat constructor; intros []|]; split; [reflexivity|].
      intros k v [Hkv|[]]; injection Hkv as <- <-; auto.
    - rewrite create_path_mapping_dir.
      assert (H0 : mapping_ok (all_paths (Dir p es))
                     (Reconcile.dotted (entry_path (Dir p es)))
                     [(Reconcile.dotted p, p)]).
      { unfold mapping_ok, dict_mem; cbn [entry_path dict_get map fst].
        unfold str_eqb; destruct (str_eq_dec _ _); [|contradiction].
        split; [repeat constructor; intros []|]; split; [reflexivity|].
        intros k v [Hkv|[]]; injection Hkv as <- <-; split; [now left|auto]. }
      destruct (walk_ok (all_paths (Dir p es))
                  (Reconcile.dotted (entry_path (Dir p es))) es IH)
        with (m := [(Reconcile.dotted p, p)]) (files := @nil str)
        as [H1 H2]; [|exact H0|intros x []|].
      + intros e He x Hx; cbn [all_paths]; right.
        apply in_flat_map; exists e; auto.
      + destruct (walk es [(Reconcile.dotted p, p)] []) as [m files].
        now apply add_files_ok. }
  split; [exact H|].
  intros k v Hkv; destruct H as (_ & _ & H).
  destruct (H k v Hkv) as [_ [->| ->]];
    apply replace_chr_absent; discriminate.
Qed.

(** ** Participants of a sequence diagram *)

Lemma take_while_spec (p : ascii -> bool) (s : str) :
  forallb p (RebuildSequenceView.take_while p s) = true
  /\ exists rest, s = RebuildSequenceView.take_while p s ++ rest.
Proof.
  induction s as [|c s [IH1 [rest IH2]]];
    cbn [RebuildSequenceView.take_while]; [split; [reflexivity|now exists []]|].
  destruct (p c) eqn:E; [|split; [reflexivity | now exists (c :: s)]].
  cbn [forallb]; rewrite E, IH1; split; [reflexivity|].
  exists rest; cbn [app]; now rewrite <- IH2.
Qed.

Lemma findall_participant_spec (s : str) :
  forall skip n,
    In n (RebuildSequenceView.findall_participant s skip) ->
    n <> []
    /\ forallb RebuildSequenceView.is_participant_chr n = true
    /\ exists pre post, s = pre ++ py "participant " ++ n ++ post.
Proof.
  induction s as [|c t IH]; intros skip n Hin;
    cbn [RebuildSequenceView.findall_participant] in Hin; [destruct Hin|].
  assert (Hrec : forall k,
             In n (RebuildSequenceView.findall_participant t k) ->
             n <> []
             /\ forallb RebuildSequenceView.is_participant_chr n = true
             /\ exists pre post,
                  c :: t = pre ++ py "participant " ++ n ++ post).
  { intros k Hk; destruct (IH k n Hk) as (H1 & H2 & pre & post & ->).
    split; [exact H1|]; split; [exact H2|].
    now exists (c :: pre), post. }
  destruct skip as [|k]; [|now apply (Hrec k)].
  destruct (startswith (c :: t) (py "participant ")) eqn:Es;
    [|now apply (Hrec 0%nat)].
  set (name := RebuildSequenceView.take_while
                 RebuildSequenceView.is_participant_chr
                 (skipn 12 (c :: t))) in *.
  unfold str_eqb in Hin; destruct (str_eq_dec name []) as [E|E];
    [now apply (Hrec 0%nat)|].
  destruct Hin as [<-|Hin]; [|now apply (Hrec _ Hin)].
  destruct (take_while_spec RebuildSequenceView.is_participant_chr
              (skipn 12 (c :: t))) as [H1 [rest H2]].
  fold name in H1, H2.
  split; [exact E|]; split; [exact H1|].
  destruct (startswith_app _ _ Es) as [post Hp].
  exists [], rest; cbn [app]; rewrite Hp in H2 |- *.
  change (skipn 12 (py "participant " ++ post)) with post in H2.
  now rewrite H2 at 1.
Qed.

(** X16: every name that [parse_participant] finds in a diagram is not
    empty, consists of letters, digits, dots and underscores, and stands
    in the diagram behind the word [participant] and one space. *)
Theorem parse_participant_names (diagram n : str) :
  In n (RebuildSequenceView.parse_participant diagram) ->
  n <> []
  /\ forallb RebuildSequenceView.is_participant_chr n = true
  /\ exists pre post, diagram = pre ++ py "participant " ++ n ++ post.
Proof. apply findall_participant_spec. Qed.

Lemma parse_participant_names_witness :
  RebuildSequenceView.parse_participant sample_diagram
  = [py "a.Main"; py "Bob_2"]
  /\ py "Bob_2" <> []
  /\ forallb RebuildSequenceView.is_participant_chr (py "Bob_2") = true
  /\ exists pre post,
       sample_diagram = pre ++ py "participant " ++ py "Bob_2" ++ post.
Proof.
  split; [vm_compute; reflexivity|].
  apply (parse_participant_names sample_diagram (py "Bob_2")).
  vm_compute; right; left; reflexivity.
Defined.

(** ** The scores of an experiment *)

Lemma str_eqb_refl (a : str) : str_eqb a a = true.
Proof. unfold str_eqb; destruct (str_eq_dec a a); congruence. Qed.

Lemma str_eqb_neq (a b : str) : a <> b -> str_eqb a b = false.
Proof. unfold str_eqb; destruct (str_eq_dec a b); congruence. Qed.

(** X17: [Experimenter.evaluate] evaluates the dev split, then the test
    split, and raises what the first failing evaluation raises; when
    both return, the dictionary it returns holds the two scores under
    [dev_score] and [test_score], whatever stood there before, and
    every other key as it was. *)
Theorem evaluate_outcome (score state : Type)
    (evaluate_prediction : str -> state -> result score)
    (score_dict : dict score) (st : state) :
  match evaluate_prediction (py "dev") st with
  | Raise e =>
      Experimenter.evaluate score state evaluate_prediction score_dict st
      = Raise e
  | Ok dev =>
      match evaluate_prediction (py "test") st with
      | Raise e =>
          Experimenter.evaluate score state evaluate_prediction score_dict st
          = Raise e
      | Ok test =>
          exists r,
            Experimenter.evaluate score state evaluate_prediction
              score_dict st = Ok r
            /\ dict_get r (py "dev_score") = Some dev
            /\ dict_get r (py "test_score") = Some test
            /\ forall k, k <> py "dev_score" -> k <> py "test_score" ->
                         dict_get r k = dict_get score_dict k
      end
  end.
Proof.
  unfold Experimenter.evaluate.
  destruct (evaluate_prediction (py "dev") st) as [dev|e]; cbn [bind];
    [|reflexivity].
  destruct (evaluate_prediction (py "test") st) as [test|e]; cbn [bind];
    [|reflexivity].
  eexists; split; [reflexivity|].
  assert (Hs : dict_set (dict_set [] (py "dev_score") dev)
                 (py "test_score") test
               = [(py "dev_score", dev); (py "test_score", test)])
    by (vm_compute; reflexivity).
  rewrite Hs; unfold dict_update; cbn [fold_left fst snd].
  split; [|split].
  - rewrite !dict_get_set, str_eqb_refl.
    now rewrite (str_eqb_neq (py "dev_score") (py "test_score"))
      by discriminate.
  - now rewrite dict_get_set, str_eqb_refl.
  - intros k H1 H2; rewrite !dict_get_set.
    now rewrite (str_eqb_neq _ _ H1), (str_eqb_neq _ _ H2).
Qed.

(** ** Relationship lines as the diagram tool writes them *)

(** The first occurrence of [sub] is behind [pre] when the first
    character of [sub] is not in [pre]. *)
Lemma find_fresh_first (c : ascii) (sub pre post : str) :
  ~ In c pre ->
  forall i, find_from (c :: sub) (pre ++ (c :: sub) ++ post) i = i + len pre.
Proof.
  induction pre as [|x pre IH]; intros Hno i.
  - cbn [app]; unfold len; cbn [List.length].
    pose proof (startswith_refl_app (c :: sub) post) as H.
    destruct post; cbn [find_from]; cbn [app] in H; rewrite H; lia.
  - cbn [app find_from startswith].
    assert (Hx : chr_eqb c x = false).
    { unfold chr_eqb; apply Ascii.eqb_neq; intros ->; apply Hno; now left. }
    rewrite Hx; cbn [andb]; rewrite IH by (intros H; apply Hno; now right).
    unfold len; cbn [List.length]; lia.
Qed.

(** The same when the second character of [sub] is not in [pre] and
    differs from the first. *)
Lemma find_fresh_second (c1 c2 : ascii) (sub pre post : str) :
  ~ In c2 pre -> c1 <> c2 ->
  forall i,
    find_from (c1 :: c2 :: sub) (pre ++ (c1 :: c2 :: sub) ++ post) i
    = i + len pre.
Proof.
  intros Hno Hc; induction pre as [|x pre IH]; intros i.
  - cbn [app]; unfold len; cbn [List.length].
    pose proof (startswith_refl_app (c1 :: c2 :: sub) post) as H.
    cbn [find_from]; cbn [app] in H; rewrite H; lia.
  - assert (Hs : startswith ((x :: pre) ++ (c1 :: c2 :: sub) ++ post)
                   (c1 :: c2 :: sub) = false).
    { destruct pre as [|y pre]; cbn [app startswith].
      - assert (H : chr_eqb c2 c1 = false)
          by (unfold chr_eqb; apply Ascii.eqb_neq; congruence).
        rewrite H; now rewrite andb_false_r.
      - assert (H : chr_eqb c2 y = false).
        { unfold chr_eqb; apply Ascii.eqb_neq; intros ->.
          apply Hno; right; now left. }
        rewrite H; now rewrite andb_false_r. }
    cbn [app] in Hs |- *; cbn [find_from]; rewrite Hs.
    rewrite IH by (intros H; apply Hno; now right).
    unfold len; cbn [List.length]; lia.
Qed.

Lemma slice_middle (pre mid post : str) :
  slice (pre ++ mid ++ post) (len pre) (len pre + len mid) = mid.
Proof.
  rewrite slice_behind.
  - unfold len; rewrite Nat2Z.id, firstn_app, firstn_all, Nat.sub_diag.
    cbn [firstn]; now rewrite app_nil_r.
  - rewrite len_app; pose proof (len_nonneg mid); pose proof (len_nonneg post).
    lia.
Qed.

Lemma lstrip_chr_fresh (c : ascii) (s : str) :
  ~ In c s -> Reconcile.lstrip_chr c s = s.
Proof.
  destruct s as [|x s]; [reflexivity|]; intros Hno.
  cbn [Reconcile.lstrip_chr]; unfold chr_eqb.
  destruct (Ascii.eqb x c) eqn:E; [|reflexivity].
  apply Ascii.eqb_eq in E; subst x; exfalso; apply Hno; now left.
Qed.

Lemma lstrip_chr_cons_fresh (c x : ascii) (s : str) :
  x <> c -> Reconcile.lstrip_chr c (x :: s) = x :: s.
Proof.
  intros Hx; cbn [Reconcile.lstrip_chr]; unfold chr_eqb.
  destruct (Ascii.eqb x c) eqn:E; [|reflexivity].
  apply Ascii.eqb_eq in E; contradiction.
Qed.

Lemma lstrip_chr_cons_same (c : ascii) (s : str) :
  Reconcile.lstrip_chr c (c :: s) = Reconcile.lstrip_chr c s.
Proof.
  cbn [Reconcile.lstrip_chr]; unfold chr_eqb; now rewrite Ascii.eqb_refl.
Qed.

Lemma strip_chr_fresh_between (c : ascii) (s : str) :
  ~ In c s -> Relationships.strip_chr c (c :: s ++ [c]) = s.
Proof.
  intros Hno; unfold Relationships.strip_chr.
  rewrite lstrip_chr_cons_same.
  destruct s as [|x s].
  - cbn [app]; rewrite lstrip_chr_cons_same; reflexivity.
  - assert (Hx : x <> c) by (intros ->; apply Hno; now left).
    change ((x :: s) ++ [c]) with (x :: s ++ [c]).
    rewrite (lstrip_chr_cons_fresh c x (s ++ [c]) Hx).
    change (x :: s ++ [c]) with ((x :: s) ++ [c]).
    rewrite rev_app_distr.
    change (rev [c] ++ rev (x :: s)) with (c :: rev (x :: s)).
    rewrite lstrip_chr_cons_same, lstrip_chr_fresh, rev_involutive;
      [reflexivity|].
    intros H; apply in_rev in H; contradiction.
Qed.

Lemma leb_len (s : str) : (0 <=? len s) = true.
Proof. apply Z.leb_le, len_nonneg. Qed.

Lemma In_quoted (c : ascii) (s : str) :
  In c (quoted s) -> c = c_dquote \/ In c s.
Proof.
  unfold quoted; intros [H|H]; [now left|].
  apply in_app_or in H as [H|[H|[]]]; auto.
Qed.

(** X18: a line that names two plain classes between double quotes,
    with an arrow between them and properties without a closing bracket
    behind them, is read as a relationship from the first class to the
    second. *)
Theorem split_relationship_line_names (G C A : str) (a b props : str) :
  plain_name a -> plain_name b -> ~ In c_rbracket props ->
  exists r,
    Relationships._split_relationship_line G C A (relationship_line a b props)
    = Some r
    /\ src r = a /\ dest r = b.
Proof.
  intros Ha Hb Hp.
  set (line := relationship_line a b props).
  set (P0 := quoted a).
  set (P1 := P0 ++ py " -> " ++ quoted b).
  set (P2 := P1 ++ py " [" ++ props).
  assert (E0 : line = P0 ++ py " -> "
                      ++ (quoted b ++ py " [" ++ props ++ py "];"))
    by reflexivity.
  assert (E1 : line = P1 ++ py " [" ++ (props ++ py "];"))
    by (unfold line, relationship_line, P1; now rewrite <- !app_assoc).
  assert (E2 : line = P2 ++ py "];" ++ [])
    by (unfold line, relationship_line, P2, P1; now rewrite <- !app_assoc).
  assert (N0 : forall c, In c P0 -> c = c_dquote \/ In c a)
    by (intros c; apply In_quoted).
  assert (N1 : forall c, In c P1 ->
                 c = c_dquote \/ In c a \/ In c b \/ In c (py " -> ")).
  { intros c H; unfold P1 in H.
    apply in_app_or in H as [H|H]; [apply N0 in H; tauto|].
    apply in_app_or in H as [H|H]; [tauto|].
    apply In_quoted in H; tauto. }
  assert (Hi0 : find line (py " -> ") = len P0).
  { rewrite E0.
    apply (find_fresh_first " "%char (py "-> ") P0 _); intros H.
    apply N0 in H as [H|H]; [discriminate|].
    now apply Ha in H. }
  assert (Hi1 : find line (py " [") = len P1).
  { rewrite E1.
    apply (find_fresh_second " "%char c_lbracket [] P1 _);
      [|discriminate].
    intros H; apply N1 in H as [H|[H|[H|H]]]; [discriminate| | |].
    - now apply Ha in H.
    - now apply Hb in H.
    - cbn in H; intuition discriminate. }
  assert (Hi2 : find line (py "];") = len P2).
  { rewrite E2.
    apply (find_fresh_first c_rbracket (py ";") P2 []); intros H.
    unfold P2 in H; apply in_app_or in H as [H|H].
    - apply N1 in H as [H|[H|[H|H]]]; [discriminate| | |].
      + now apply Ha in H.
      + now apply Hb in H.
      + cbn in H; intuition discriminate.
    - apply in_app_or in H as [H|H]; [|contradiction].
      cbn in H; intuition discriminate. }
  assert (Hs0 : slice line 0 (len P0) = P0)
    by (rewrite E0; apply slice_prefix).
  assert (Hs1 : slice line (len P0 + len (py " -> ")) (len P1) = quoted b).
  { replace line
      with ((P0 ++ py " -> ") ++ quoted b ++ (py " [" ++ props ++ py "];"))
      by (rewrite E0; now rewrite <- !app_assoc).
    replace (len P0 + len (py " -> ")) with (len (P0 ++ py " -> "))
      by apply len_app.
    replace (len P1) with (len (P0 ++ py " -> ") + len (quoted b))
      by (unfold P1; rewrite !len_app; lia).
    apply slice_middle. }
  assert (Hs2 : slice line (len P1 + len (py " [")) (len P2) = props).
  { replace line with ((P1 ++ py " [") ++ props ++ py "];")
      by (rewrite E1; now rewrite <- !app_assoc).
    replace (len P1 + len (py " [")) with (len (P1 ++ py " ["))
      by apply len_app.
    replace (len P2) with (len (P1 ++ py " [") + len props)
      by (unfold P2; rewrite !len_app; lia).
    apply slice_middle. }
  unfold Relationships._split_relationship_line; cbv zeta.
  unfold contains; rewrite Hi0, Hi1, Hi2, !leb_len; cbn [negb].
  rewrite Hs0, Hs1, Hs2.
  unfold P0, quoted; rewrite !strip_chr_fresh_between.
  - eexists; split; [reflexivity|].
    split; [apply (set_relationship_spec G C A) |
            apply (set_relationship_spec G C A)].
  - intros H; now apply Hb in H.
  - intros H; now apply Ha in H.
Qed.

Lemma split_relationship_line_names_witness :
  relationship_line (py "a.C") (py "a.D")
    (Relationships.arrowhead "empty" ++ py ", style=solid")
  = quoted (py "a.C") ++ py " -> " ++ quoted (py "a.D") ++ py " ["
      ++ (Relationships.arrowhead "empty" ++ py ", style=solid") ++ py "];"
  /\ exists r,
       Relationships._split_relationship_line
         (py "Generalize") (py "Composite") (py "Aggregate")
         (relationship_line (py "a.C") (py "a.D")
            (Relationships.arrowhead "empty" ++ py ", style=solid"))
       = Some r
       /\ src r = py "a.C" /\ dest r = py "a.D".
Proof.
  split; [reflexivity|].
  apply (split_relationship_line_names (py "Generalize") (py "Composite")
           (py "Aggregate") (py "a.C") (py "a.D")
           (Relationships.arrowhead "empty" ++ py ", style=solid")).
  - intros c H; cbn in H; intuition (subst; discriminate).
  - intros c H; cbn in H; intuition (subst; discriminate).
  - intros H; cbn in H; intuition discriminate.
Defined.

(** ** The tokens of an [if] statement *)





(** ** Markup around a method name *)

Lemma rfind_from_absent (c : ascii) (sub s : str) :
  forall k, ~ In c s -> rfind_from (c :: sub) s k = -1.
Proof.
  induction s as [|x s IH]; intros k Hno; cbn [rfind_from startswith];
    [reflexivity|].
  rewrite IH by (intros H; apply Hno; now right).
  cbn [Z.leb Z.compare].
  assert (Hx : chr_eqb c x = false).
  { unfold chr_eqb; apply Ascii.eqb_neq; intros ->; apply Hno; now left. }
  now rewrite Hx.
Qed.

(** The last occurrence of [sub] is the one behind [pre] when the first
    character of [sub] comes neither later in [sub] nor behind it. *)
Lemma rfind_fresh_last (c : ascii) (sub pre post : str) :
  ~ In c sub -> ~ In c post ->
  forall k, 0 <= k ->
    rfind_from (c :: sub) (pre ++ (c :: sub) ++ post) k = k + len pre.
Proof.
  intros H1 H2; induction pre as [|x pre IH]; intros k Hk.
  - cbn [app]; cbn [rfind_from].
    rewrite rfind_from_absent
      by (intros H; apply in_app_or in H as [H|H]; contradiction).
    cbn [Z.leb Z.compare].
    pose proof (startswith_refl_app (c :: sub) post) as H.
    cbn [app] in H; rewrite H; unfold len; cbn [List.length]; lia.
  - cbn [app rfind_from]; rewrite IH by lia.
    pose proof (len_nonneg pre).
    destruct (0 <=? k + 1 + len pre) eqn:E; [|apply Z.leb_gt in E; lia].
    unfold len; cbn [List.length]; lia.
Qed.

(** X20: [_parse_name] strips the markup around a method name: of an
    opening tag, a text and a closing tag it returns the text without
    the white space around it; a name without a closing angle bracket is
    returned without the white space around it. *)
Theorem method_name_markup (t t' n : str) :
  ~ In c_gt t -> ~ In "<"%char t' ->
  DotClassMethod._parse_name
    (("<"%char :: t) ++ [c_gt] ++ n ++ py "</" ++ t' ++ [c_gt])
  = strip n
  /\ forall v, ~ In c_gt v -> DotClassMethod._parse_name v = strip v.
Proof.
  intros Ht Ht'; split.
  - set (P := ("<"%char :: t) ++ [c_gt]).
    set (v := ("<"%char :: t) ++ [c_gt] ++ n ++ py "</" ++ t' ++ [c_gt]).
    assert (Hf : find v [c_gt] = len ("<"%char :: t)).
    { apply (find_fresh_first c_gt [] ("<"%char :: t) _ ).
      intros [H|H]; [discriminate | contradiction]. }
    assert (E : v = (P ++ n) ++ py "</" ++ (t' ++ [c_gt])).
    { unfold v, P; now rewrite <- !app_assoc. }
    assert (Hr : rfind v (py "</") = len (P ++ n)).
    { rewrite E.
      apply (rfind_fresh_last "<"%char (py "/") (P ++ n) (t' ++ [c_gt]));
        [| |lia].
      - cbn; intuition discriminate.
      - intros H; apply in_app_or in H as [H|[H|[]]];
          [contradiction | discriminate]. }
    assert (Hs : slice v (len ("<"%char :: t) + len [c_gt]) (len (P ++ n))
                 = n).
    { replace v with (P ++ n ++ (py "</" ++ t' ++ [c_gt]))
        by (unfold v, P; now rewrite <- !app_assoc).
      replace (len ("<"%char :: t) + len [c_gt]) with (len P)
        by (unfold P; now rewrite len_app).
      rewrite len_app; apply slice_middle. }
    unfold DotClassMethod._parse_name; cbv zeta; unfold contains.
    fold v; rewrite Hf, Hr, leb_len, Hs; reflexivity.
  - intros v Hv; unfold DotClassMethod._parse_name; cbv zeta.
    unfold contains, find.
    destruct (find_from_chr c_gt v 0)
      as [[H _]|(pre & post & -> & _ & _)].
    + now rewrite H.
    + exfalso; apply Hv, in_or_app; right; now left.
Qed.

Lemma method_name_markup_witness :
  DotClassMethod._parse_name (py "<I>run </I>") = py "run"
  /\ DotClassMethod._parse_name
       (("<"%char :: py "I") ++ [c_gt] ++ py "run " ++ py "</" ++ py "I"
          ++ [c_gt])
     = strip (py "run ")
  /\ forall v, ~ In c_gt v -> DotClassMethod._parse_name v = strip v.
Proof.
  split; [vm_compute; reflexivity|].
  apply (method_name_markup (py "I") (py "I") (py "run "));
    intros H; cbn in H; intuition discriminate.
Defined.

(** ** The parts of a method line *)

Lemma slice_from_behind (pre rest : str) :
  slice_from (pre ++ rest) (len pre) = rest.
Proof.
  unfold slice_from, clamp; rewrite len_app.
  pose proof (len_nonneg pre); pose proof (len_nonneg rest).
  destruct (len pre <? 0) eqn:E; [apply Z.ltb_lt in E; lia|].
  rewrite Z.min_l by lia.
  unfold len; rewrite Nat2Z.id, skipn_app, skipn_all, Nat.sub_diag.
  reflexivity.
Qed.

(** X21: [DotClassMethod.parse] cuts a method line at its first opening
    parenthesis, its last closing parenthesis and the colon behind it:
    the name comes from the text before the parenthesis, the arguments
    from the text between the parentheses, and the return value from the
    text behind the colon, each without the white space around it. *)
Theorem method_line_parts (set_order : pyset -> list str)
    (nm ar rt : str) (m : DotClassMethod.t) :
  ~ In "("%char nm -> ~ In ")"%char rt -> ~ In c_colon rt ->
  DotClassMethod.parse set_order (method_line nm ar rt) = Ok m ->
  DotClassMethod.name m = DotClassMethod._parse_name (strip nm)
  /\ DotClassMethod._parse_args set_order (strip ar)
     = Ok (DotClassMethod.args m)
  /\ DotClassMethod.return_args m
     = Some (DotReturn.parse set_order (strip rt)).
Proof.
  intros Hnm Hrt1 Hrt2.
  set (v := method_line nm ar rt).
  set (Y := nm ++ py "(" ++ ar).
  set (X := Y ++ py ")").
  assert (Hf : find v (py "(") = len nm)
    by (apply (find_fresh_first "("%char [] nm _ Hnm)).
  assert (He : rfind v (py ")") = len Y).
  { replace v with (Y ++ py ")" ++ ([c_colon] ++ rt))
      by (unfold v, method_line, Y; now rewrite <- !app_assoc).
    apply (rfind_fresh_last ")"%char [] Y ([c_colon] ++ rt)); [intros []| |lia].
    intros [H|H]; [discriminate | contradiction]. }
  assert (Hr : rfind v [c_colon] = len X).
  { replace v with (X ++ [c_colon] ++ rt)
      by (unfold v, method_line, X, Y; now rewrite <- !app_assoc).
    apply (rfind_fresh_last c_colon [] X rt); [intros [] | exact Hrt2 | lia]. }
  assert (Hs0 : slice v 0 (len nm) = nm) by apply slice_prefix.
  assert (Hs1 : slice v (len nm + 1) (len Y) = ar).
  { replace v with ((nm ++ py "(") ++ ar ++ (py ")" ++ [c_colon] ++ rt))
      by (unfold v, method_line; now rewrite <- !app_assoc).
    replace (len nm + 1) with (len (nm ++ py "("))
      by (rewrite len_app; reflexivity).
    replace (len Y) with (len (nm ++ py "(") + len ar)
      by (unfold Y; rewrite !len_app; lia).
    apply slice_middle. }
  assert (Hs2 : slice_from v (len X + 1) = rt).
  { replace v with ((X ++ [c_colon]) ++ rt)
      by (unfold v, method_line, X, Y; now rewrite <- !app_assoc).
    replace (len X + 1) with (len (X ++ [c_colon]))
      by (rewrite len_app; reflexivity).
    apply slice_from_behind. }
  assert (Hx : (len X <? 0) || (len X <? len Y) = false).
  { unfold X; rewrite len_app; pose proof (len_nonneg Y).
    change (len (py ")")) with 1.
    destruct (len Y + 1 <? 0) eqn:E1; [apply Z.ltb_lt in E1; lia|].
    destruct (len Y + 1 <? len Y) eqn:E2; [apply Z.ltb_lt in E2; lia|].
    reflexivity. }
  unfold DotClassMethod.parse; cbv zeta.
  rewrite Hf, He, Hr, Hx, Hs0, Hs1, Hs2.
  destruct (DotClassMethod._parse_args set_order (strip ar)) as [args|];
    cbn [bind]; [|discriminate].
  intros H; injection H as <-; cbn; auto.
Qed.

Lemma method_line_parts_witness :
  exists m,
    DotClassMethod.parse insertion_order
      (method_line (py "run") (py "a: Foo") (py " Bar")) = Ok m
    /\ DotClassMethod.name m = py "run"
    /\ DotClassMethod.name m = DotClassMethod._parse_name (strip (py "run"))
    /\ DotClassMethod._parse_args insertion_order (strip (py "a: Foo"))
       = Ok (DotClassMethod.args m)
    /\ DotClassMethod.return_args m
       = Some (DotReturn.parse insertion_order (strip (py " Bar"))).
Proof.
  eexists; split; [vm_compute; reflexivity|].
  split; [reflexivity|].
  apply (method_line_parts insertion_order (py "run") (py "a: Foo")
           (py " Bar"));
    try (intros H; cbn in H; intuition discriminate).
  vm_compute; reflexivity.
Defined.

(** ** The parts of an attribute line *)

Lemma scan_plain (s : str) :
  ~ In c_colon s -> ~ In c_equals s ->
  forall val mc me,
    fold_left DotClassAttribute.scan_step s (val, mc, me)
    = (val ++ s, mc, me).
Proof.
  induction s as [|c s IH]; intros H1 H2 val mc me; cbn [fold_left].
  - now rewrite app_nil_r.
  - unfold DotClassAttribute.scan_step at 2; unfold chr_eqb.
    destruct (Ascii.eqb c c_colon) eqn:E1;
      [apply Ascii.eqb_eq in E1; exfalso; apply H1; now left|].
    destruct (Ascii.eqb c c_equals) eqn:E2;
      [apply Ascii.eqb_eq in E2; exfalso; apply H2; now left|].
    rewrite IH;
      [now rewrite <- app_assoc
      | intros H; apply H1; now right
      | intros H; apply H2; now right].
Qed.

Lemma scan_after_colon (s : str) :
  forall val me,
    fold_left DotClassAttribute.scan_step s (val, true, me)
    = (val ++ s, true, me || existsb (fun c => chr_eqb c c_equals) s).
Proof.
  induction s as [|c s IH]; intros val me; cbn [fold_left existsb].
  - now rewrite app_nil_r, orb_false_r.
  - unfold DotClassAttribute.scan_step at 2.
    destruct (chr_eqb c c_colon) eqn:E1.
    + rewrite IH, <- app_assoc.
      assert (E2 : chr_eqb c c_equals = false).
      { unfold chr_eqb in *; apply Ascii.eqb_eq in E1; subst c.
        reflexivity. }
      now rewrite E2.
    + destruct (chr_eqb c c_equals) eqn:E2.
      * rewrite IH, <- app_assoc; cbn [orb]; now rewrite orb_true_r.
      * now rewrite IH, <- app_assoc.
Qed.

(** X22: [DotClassAttribute.parse] cuts an attribute line at its first
    colon and its last equals sign: the name is the text before the
    colon and the default value the text behind the equals sign, each
    without the white space around it, the text [None] counting as no
    default; when the type between them names no literal, the type is
    its text without white space and quotes and the compositions are
    those of that text, sorted. *)
Theorem attribute_line_parts (set_order : pyset -> list str)
    (nm ty df : str) (a : DotClassAttribute.t) :
  ~ In c_colon nm -> ~ In c_equals nm -> ~ In c_equals df ->
  DotClassAttribute.parse set_order (attribute_line nm ty df) = Ok a ->
  DotClassAttribute.name a = strip nm
  /\ DotClassAttribute.default_ a
     = (if str_eqb (strip df) (py "None") then [] else strip df)
  /\ (contains (normal_type ty) (py "Literal[") = false ->
      DotClassAttribute.type_ a = remove_quotes (normal_type ty)
      /\ DotClassAttribute.compositions a
         = sort (DotClassAttribute.parse_compositions set_order
                   (remove_quotes (normal_type ty)))).
Proof.
  intros Hn1 Hn2 Hd.
  set (v := attribute_line nm ty df).
  assert (Hscan : fold_left DotClassAttribute.scan_step v ([], false, false)
                  = (v, true, true)).
  { unfold v, attribute_line; rewrite fold_left_app.
    rewrite (scan_plain nm Hn1 Hn2); cbn [app fold_left].
    unfold DotClassAttribute.scan_step at 2; cbn [chr_eqb Ascii.eqb].
    change (chr_eqb c_colon c_colon) with true; cbv iota.
    rewrite scan_after_colon, existsb_app; cbn [existsb orb].
    change (chr_eqb c_equals c_equals) with true.
    rewrite orb_true_r; cbn [orb].
    now rewrite <- app_assoc. }
  assert (Hc : find v [c_colon] = len nm)
    by (apply (find_fresh_first c_colon [] nm _ Hn1)).
  assert (He : rfind v [c_equals] = len (nm ++ [c_colon] ++ ty)).
  { replace v with ((nm ++ [c_colon] ++ ty) ++ [c_equals] ++ df)
      by (unfold v, attribute_line; now rewrite <- !app_assoc).
    apply (rfind_fresh_last c_equals [] (nm ++ [c_colon] ++ ty) df);
      [intros [] | exact Hd | lia]. }
  assert (Hs0 : slice v 0 (len nm) = nm) by apply slice_prefix.
  assert (Hs1 : slice v (len nm + 1) (len (nm ++ [c_colon] ++ ty)) = ty).
  { replace v with ((nm ++ [c_colon]) ++ ty ++ ([c_equals] ++ df))
      by (unfold v, attribute_line; now rewrite <- !app_assoc).
    replace (len nm + 1) with (len (nm ++ [c_colon]))
      by (rewrite len_app; reflexivity).
    replace (len (nm ++ [c_colon] ++ ty)) with (len (nm ++ [c_colon]) + len ty)
      by (rewrite !len_app; lia).
    apply slice_middle. }
  assert (Hs2 : slice_from v (len (nm ++ [c_colon] ++ ty) + 1) = df).
  { replace v with (((nm ++ [c_colon] ++ ty) ++ [c_equals]) ++ df)
      by (unfold v, attribute_line; now rewrite <- !app_assoc).
    replace (len (nm ++ [c_colon] ++ ty) + 1)
      with (len ((nm ++ [c_colon] ++ ty) ++ [c_equals]))
      by (rewrite (len_app _ [c_equals]); reflexivity).
    apply slice_from_behind. }
  unfold DotClassAttribute.parse; rewrite Hscan; cbv beta iota zeta.
  rewrite Hc, He, Hs0, Hs1, Hs2.
  unfold normal_type; cbv zeta.
  set (T := if str_eqb (DotClassAttribute.remove_white_spaces ty)
                 (py "NoneType")
            then [] else DotClassAttribute.remove_white_spaces ty).
  destruct (contains T (py "Literal[")) eqn:Ec.
  - destruct (DotClassAttribute._split_literal T)
      as [[[p l] q]|]; cbn [bind]; [|discriminate].
    intros H; injection H as <-.
    cbn [DotClassAttribute.name DotClassAttribute.default_].
    split; [reflexivity|]; split; [reflexivity|].
    intros Hf; change (contains T (py "Literal[") = false) in Hf.
    rewrite Ec in Hf; discriminate.
  - cbn [bind]; intros H; injection H as <-.
    cbn [DotClassAttribute.name DotClassAttribute.default_
         DotClassAttribute.type_ DotClassAttribute.compositions].
    split; [reflexivity|]; split; [reflexivity|].
    intros _; split; reflexivity.
Qed.

Lemma attribute_line_parts_witness :
  exists a,
    DotClassAttribute.parse insertion_order
      (attribute_line (py "x ") (py " List[Foo] ") (py " None")) = Ok a
    /\ DotClassAttribute.type_ a = py "List[Foo]"
    /\ DotClassAttribute.name a = strip (py "x ")
    /\ DotClassAttribute.default_ a
       = (if str_eqb (strip (py " None")) (py "None") then []
          else strip (py " None"))
    /\ (contains (normal_type (py " List[Foo] ")) (py "Literal[") = false ->
        DotClassAttribute.type_ a
        = remove_quotes (normal_type (py " List[Foo] "))
        /\ DotClassAttribute.compositions a
           = sort (DotClassAttribute.parse_compositions insertion_order
                     (remove_quotes (normal_type (py " List[Foo] "))))).
Proof.
  eexists; split; [vm_compute; reflexivity|].
  split; [reflexivity|].
  apply (attribute_line_parts insertion_order (py "x ") (py " List[Foo] ")
           (py " None"));
    try (intros H; cbn in H; intuition discriminate).
  vm_compute; reflexivity.
Defined.

(** ** The parts of an argument list *)

Lemma range_cons (lo hi : Z) :
  lo < hi -> range lo hi = lo :: range (lo + 1) hi.
Proof.
  intros H; unfold range.
  replace (Z.to_nat (hi - lo)) with (S (Z.to_nat (hi - (lo + 1)))) by lia.
  cbn [seq map]; rewrite <- seq_shift, map_map; f_equal; [lia|].
  apply map_ext; intros k; lia.
Qed.

Lemma range_nil (lo : Z) : range lo lo = [].
Proof. unfold range; now rewrite Z.sub_diag. Qed.

Lemma getitem_app (pre post : str) (x : ascii) :
  getitem (pre ++ x :: post) (len pre) = Ok x.
Proof.
  unfold getitem; pose proof (len_nonneg pre) as Hp.
  destruct (len pre <? 0) eqn:E; [apply Z.ltb_lt in E; lia|].
  rewrite len_app; unfold len at 3; cbn [List.length].
  destruct (len pre <? 0) eqn:E1; [apply Z.ltb_lt in E1; lia|].
  destruct (len pre + Z.of_nat (S (List.length post)) <=? len pre) eqn:E2;
    [apply Z.leb_le in E2; lia|].
  cbn [orb]; unfold len; rewrite Nat2Z.id, nth_error_app2, Nat.sub_diag;
    [reflexivity | lia].
Qed.

Lemma parse_args_loop_part (v : str) (q : str) :
  forall pre post parts bix counter d,
    v = pre ++ q ++ post ->
    part_depth q counter = Some d ->
    DotClassMethod.parse_args_loop v (range (len pre) (len v)) parts bix
      counter
    = DotClassMethod.parse_args_loop v (range (len pre + len q) (len v))
        parts bix d.
Proof.
  induction q as [|x q IH]; intros pre post parts bix counter d Hv Hd.
  - cbn in Hd; injection Hd as <-.
    unfold len at 2; cbn [List.length]; now rewrite Z.add_0_r.
  - assert (Hlt : len pre < len v).
    { rewrite Hv, !len_app; unfold len at 3; cbn [List.length].
      pose proof (len_nonneg post); lia. }
    rewrite (range_cons _ _ Hlt); cbn [DotClassMethod.parse_args_loop].
    rewrite Hv at 1; cbn [app]; rewrite getitem_app; cbn [bind].
    assert (Hv' : v = (pre ++ [x]) ++ q ++ post)
      by (rewrite Hv; cbn [app]; now rewrite <- app_assoc).
    assert (Hl : len pre + 1 = len (pre ++ [x]))
      by (rewrite len_app; reflexivity).
    assert (Hl' : len pre + len (x :: q) = len (pre ++ [x]) + len q).
    { rewrite len_app; unfold len; cbn [List.length]; lia. }
    rewrite Hl, Hl'; cbn [part_depth] in Hd.
    destruct (chr_eqb x c_lbracket); [now apply (IH _ post)|].
    destruct (chr_eqb x c_rbracket); [now apply (IH _ post)|].
    destruct (chr_eqb x c_comma && (counter =? 0)); [discriminate|].
    now apply (IH _ post).
Qed.

Lemma parse_args_loop_parts (v : str) (qs : list str) :
  forall q pre parts,
    v = pre ++ join [c_comma] (q :: qs) ->
    Forall (fun q => part_depth q 0 = Some 0) (q :: qs) ->
    exists bix,
      DotClassMethod.parse_args_loop v (range (len pre) (len v)) parts
        (len pre) 0
      = Ok (parts ++ map strip (removelast (q :: qs)), bix)
      /\ slice_from v bix = last (q :: qs) [].
Proof.
  induction qs as [|q' qs IH]; intros q pre parts Hv Hok.
  - cbn [join] in Hv; inversion Hok as [|? ? Hq _]; subst.
    rewrite (parse_args_loop_part (pre ++ q) q pre [] parts (len pre) 0 0)
      by (rewrite ?app_nil_r; auto).
    rewrite <- len_app, range_nil; cbn [DotClassMethod.parse_args_loop].
    exists (len pre); cbn [removelast map last]; rewrite app_nil_r.
    split; [reflexivity | apply slice_from_behind].
  - rewrite join_cons in Hv; apply Forall_cons_iff in Hok as [Hq Hok'].
    assert (Hv1 : v = pre ++ q ++ ([c_comma] ++ join [c_comma] (q' :: qs)))
      by (rewrite Hv; now rewrite <- !app_assoc).
    rewrite (parse_args_loop_part v q pre _ parts (len pre) 0 0 Hv1 Hq).
    assert (Hlt : len pre + len q < len v).
    { rewrite Hv1, !len_app; unfold len at 5; cbn [List.length].
      pose proof (len_nonneg (join [c_comma] (q' :: qs))); lia. }
    rewrite (range_cons _ _ Hlt); cbn [DotClassMethod.parse_args_loop].
    assert (Hg : getitem v (len pre + len q) = Ok c_comma).
    { rewrite <- len_app.
      replace v with ((pre ++ q) ++ c_comma :: join [c_comma] (q' :: qs))
        by (rewrite Hv1; now rewrite <- app_assoc).
      apply getitem_app. }
    rewrite Hg; cbn [bind].
    change (chr_eqb c_comma c_lbracket) with false.
    change (chr_eqb c_comma c_rbracket) with false.
    change (chr_eqb c_comma c_comma && (0 =? 0)) with true; cbv iota.
    assert (Hs : slice v (len pre) (len pre + len q) = q)
      by (rewrite Hv1; apply slice_middle).
    rewrite Hs.
    assert (Hv2 : v = ((pre ++ q) ++ [c_comma])
                        ++ join [c_comma] (q' :: qs))
      by (rewrite Hv1; now rewrite <- !app_assoc).
    replace (len pre + len q + 1) with (len ((pre ++ q) ++ [c_comma]))
      by (rewrite !len_app; reflexivity).
    destruct (IH q' _ (parts ++ [strip q]) Hv2 Hok') as (bix & H1 & H2).
    exists bix; rewrite H1; split; [|exact H2].
    change (removelast (q :: q' :: qs)) with (q :: removelast (q' :: qs)).
    cbn [map]; now rewrite <- app_assoc.
Qed.

(** X23: [_parse_args] splits an argument list at the commas outside
    brackets.  When the list is made of parts joined by commas, each
    part holding no comma outside brackets and as many closing as
    opening brackets, the arguments are the attributes parsed from the
    parts, stripped of the white space around them, the empty ones left
    out. *)
Theorem parse_args_parts (set_order : pyset -> list str) (qs : list str) :
  Forall (fun q => part_depth q 0 = Some 0) qs ->
  DotClassMethod._parse_args set_order (join [c_comma] qs)
  = mapM (DotClassAttribute.parse set_order)
      (filter (fun p => negb (str_eqb p [])) (map strip qs)).
Proof.
  intros Hok; destruct qs as [|q qs]; [reflexivity|].
  unfold DotClassMethod._parse_args.
  set (v := join [c_comma] (q :: qs)).
  unfold str_eqb at 1; destruct (str_eq_dec v []) as [E|E].
  - destruct qs as [|q' qs].
    + unfold v in E; cbn [join] in E; subst q; reflexivity.
    + unfold v in E; rewrite join_cons in E.
      apply (f_equal (@List.length ascii)) in E.
      rewrite !length_app in E; cbn in E; lia.
  - destruct (parse_args_loop_parts v qs q [] [] eq_refl Hok)
      as (bix & H1 & H2).
    change (len []) with 0 in H1; rewrite H1; cbn [bind app].
    rewrite H2.
    replace (map strip (removelast (q :: qs)) ++ [strip (last (q :: qs) [])])
      with (map strip (q :: qs)); [reflexivity|].
    rewrite (app_removelast_last (l := q :: qs) []) at 1 by discriminate.
    now rewrite map_app.
Qed.

Lemma parse_args_parts_witness :
  join [c_comma] [py "a: Dict[str, Foo]"; py " "; py " b: Bar"]
  = py "a: Dict[str, Foo], , b: Bar"
  /\ DotClassMethod._parse_args insertion_order
       (join [c_comma] [py "a: Dict[str, Foo]"; py " "; py " b: Bar"])
     = mapM (DotClassAttribute.parse insertion_order)
         (filter (fun p => negb (str_eqb p []))
            (map strip [py "a: Dict[str, Foo]"; py " "; py " b: Bar"])).
Proof.
  split; [reflexivity|].
  apply (parse_args_parts insertion_order
           [py "a: Dict[str, Foo]"; py " "; py " b: Bar"]).
  repeat constructor.
Defined.
